(** * HiReCS: graph builder, cluster ids, [.hig] link lines and cluster unwrapping

    A shallow embedding of the parts of the HiReCS library and client that
    the specification talks about:

    - [export/cluster.hpp]: [InpOperations::addLink], [acsAddNodes],
      [acsAddNodeLink], [acsAddNodeLinks], [acsAddNodeAndLinks] and the
      methods of [Graph];
    - [export/types.h] / [types.hpp]: the [Cluster] constructor with its id
      counter [m_uid], and [Hierarchy::unwrap];
    - the client: [Client::parseLinks], and around it [classifyArgs],
      [Client::parseArgs], the reader of [.hig] files [Client::process]
      with [Client::processGraph], and the formatting helper [itemsToStr].
      The clustering ([cluster], behind [processNodes]) is no part of these
      files; the reader is stated for every [processNodes].

    Conventions.
    - [Id] is [uint32_t]: a [Z] in [[0, 2^32)], wrap-around written out.
    - Pointers to nodes are addresses ([nat]) into a heap of node objects;
      the [std::list] of nodes is the list of their addresses in list order,
      so [emplace_front] does not move any node.
    - A call ends in one of four ways, see [Outcome]: it returns, it throws
      a C++ exception, an [assert] fails (only in a build without [NDEBUG]),
      or it runs into undefined behaviour.  The state left behind by a call
      that does not return is not modelled.
    - [rand()] is an oracle: the stream of the values that the calls return,
      in call order.
    - Link weights are [float] in the source.  The builder is stated over
      any weight type with the operations it uses, with instances for exact
      rationals and for IEEE binary32.  The shares of [unwrap] are exact
      rationals, see there. *)

From Stdlib Require Import ZArith QArith Qcanon String Ascii List Lia.
From Stdlib Require Import Floats.SpecFloat.
From stdpp Require Import base option numbers list gmap strings pretty.

Local Open Scope string_scope.
Local Open Scope list_scope.
Local Open Scope Z_scope.

(** ** Outcomes of a call *)

Inductive Exception : Type :=
| domain_error (what : string)
| out_of_range (what : string)
| invalid_argument (what : string).

Inductive Outcome (A : Type) : Type :=
| Done (a : A)
| Thrown (e : Exception)
| AssertFailed (msg : string)
| Undefined (what : string).
Arguments Done {A} a.
Arguments Thrown {A} e.
Arguments AssertFailed {A} msg.
Arguments Undefined {A} what.

Definition Outcome_bind {A B : Type} (f : A → Outcome B) (o : Outcome A) : Outcome B :=
  match o with
  | Done a => f a
  | Thrown e => Thrown e
  | AssertFailed m => AssertFailed m
  | Undefined u => Undefined u
  end.

#[global] Instance Outcome_ret : MRet Outcome := @Done.
#[global] Instance Outcome_mbind : MBind Outcome := @Outcome_bind.

(** ** Identifiers (types.h) *)

Definition Id : Type := Z.
Definition Id_modulus : Z := 2 ^ 32.
(** [numeric_limits<Id>::max()] *)
Definition ID_NONE : Id := Id_modulus - 1.
(** conversion of an integer value to [Id] *)
Definition to_Id (z : Z) : Id := z mod Id_modulus.

(** ** Weights

    [LinkWeight<UNSIGNED>::Type] is [float].  The builder only converts
    small integers to a weight, multiplies, divides and tests for zero, so
    it is stated over any type with these operations. *)

Class WeightOps (W : Type) : Type := {
  w_of_int : Z → W;
  wmul : W → W → W;
  wdiv : W → W → W;
  w_nonzero : W → bool
}.

(** Exact arithmetic on canonical rationals. *)
#[global] Instance Qc_WeightOps : WeightOps Qc := {|
  w_of_int := Qc_of_Z;
  wmul := Qcmult;
  wdiv := Qcdiv;
  w_nonzero := λ q, negb (Qc_eq_bool q 0%Qc)
|}.

(** IEEE binary32, the [float] of the source: 24 bits of precision,
    exponents below 128, round to nearest even. *)
Definition binary32_of_int (z : Z) : spec_float :=
  binary_normalize 24 128 z 0 false.

#[global] Instance binary32_WeightOps : WeightOps spec_float := {|
  w_of_int := binary32_of_int;
  wmul := SFmul 24 128;
  wdiv := SFdiv 24 128;
  w_nonzero := λ x, negb (SFeqb x (S754_zero false))
|}.

(** ** Nodes and links as the builder sees them (types.h) *)

Definition NodePtr : Type := nat.

Section graph.
Context {W : Type} `{WeightOps W}.

(** [Link<WeightT, WEIGHTED>]: the unweighted specialisation has no weight
    field, its [weight] is the static constant 1. *)
Inductive Link : Type :=
| WeightedLink (ldest : NodePtr) (lweight : W)
| SimpleLink (ldest : NodePtr).

Definition dest (l : Link) : NodePtr :=
  match l with WeightedLink d _ => d | SimpleLink d => d end.


(** [InpLink<WEIGHTED, UNSIGNED>] (cluster.h), same shape. *)
Inductive InpLink : Type :=
| InpWeighted (lid : Id) (lweight : W)
| InpSimple (lid : Id).

Definition inp_id (l : InpLink) : Id :=
  match l with InpWeighted i _ => i | InpSimple i => i end.

Definition inp_weight (l : InpLink) : W :=
  match l with InpWeighted _ w => w | InpSimple _ => w_of_int 1 end.

(** [Node<LinksT>]; [owners] and the clustering context are empty while a
    graph is built and are left out. *)
Record Node : Type := mkNode {
  id : Id;
  links : list Link;
  m_sweight : W
}.

(** [Node::Node(Id nid, Id linksNum)] *)
Definition Node_ctor (nid : Id) : Node :=
  {| id := nid; links := []; m_sweight := w_of_int 0 |}.

Definition set_links (ls : list Link) (n : Node) : Node :=
  {| id := id n; links := ls; m_sweight := m_sweight n |}.

Definition set_sweight (w : W) (n : Node) : Node :=
  {| id := id n; links := links n; m_sweight := w |}.

(** ** The process state: heap of nodes and the [rand()] oracle *)

Record World : Type := mkWorld {
  mem : gmap NodePtr Node;
  rng : nat → nat
}.

Definition M (A : Type) : Type := World → Outcome (A * World).

Definition M_ret {A : Type} (a : A) : M A := λ w, Done (a, w).
Definition M_bind {A B : Type} (f : A → M B) (m : M A) : M B :=
  λ w, match m w with
       | Done (a, w') => f a w'
       | Thrown e => Thrown e
       | AssertFailed msg => AssertFailed msg
       | Undefined u => Undefined u
       end.

#[global] Instance M_mret : MRet M := @M_ret.
#[global] Instance M_mbind : MBind M := @M_bind.

Definition throw {A : Type} (e : Exception) : M A := λ _, Thrown e.
Definition undefined {A : Type} (what : string) : M A := λ _, Undefined what.

(** The build configuration: [NDEBUG] compiles the assertions out. *)
Variable NDEBUG : bool.

Definition assert (cond : M bool) (msg : string) : M unit :=
  if NDEBUG then mret ()
  else c ← cond; if (c : bool) then mret () else (λ _, AssertFailed msg).

(** [rand()] *)
Definition rand : M nat :=
  λ w, Done (rng w 0%nat, {| mem := mem w; rng := λ n, rng w (S n) |}).

(** [srand(time(nullptr))]: reseeding only changes which unknown values
    follow, so it leaves the oracle as it is. *)
Definition srand_time : M unit := mret ().

(** Reading and writing through a node pointer. *)
Definition deref (p : NodePtr) : M Node :=
  λ w, match mem w !! p with
       | Some n => Done (n, w)
       | None => Undefined "dangling node pointer"
       end.

Definition store (p : NodePtr) (n : Node) : M unit :=
  λ w, Done ((), {| mem := <[p := n]> (mem w); rng := rng w |}).

(** Allocation of a list node holding [Node(nid)]. *)
Definition alloc_node (nid : Id) : M NodePtr :=
  λ w, let p := fresh (dom (mem w)) in
       Done (p, {| mem := <[p := Node_ctor nid]> (mem w); rng := rng w |}).

(** [selfWeight() const] and [selfWeight(AccWeight)]: the value passes
    through [double] and comes back unchanged. *)
Definition selfWeight (p : NodePtr) : M W := n ← deref p; mret (m_sweight n).
Definition selfWeight_set (p : NodePtr) (w : W) : M unit :=
  n ← deref p; store p (set_sweight w n).

(** ** cluster.hpp: accessory routines *)

(** [vector::emplace(begin() + pos, ...)] *)
Definition emplace_at {A : Type} (pos : nat) (x : A) (l : list A) : list A :=
  take pos l ++ x :: drop pos l.

(** [InpOperations<SIMPLE>::addLink]: the position is
    [rand() % src->links.size()], a division by zero on an empty vector. *)
Definition addLink (SIMPLE : bool) (src dst : NodePtr) (wgt : W) (shuffle : bool) : M unit :=
  let ln := if SIMPLE then SimpleLink dst else WeightedLink dst wgt in
  n ← deref src;
  if negb shuffle then store src (set_links (links n ++ [ln]) n)
  else
    r ← rand;
    if (length (links n) =? 0)%nat then undefined "rand() % 0"
    else store src (set_links (emplace_at (r mod length (links n))%nat ln (links n)) n).

(** [unordered_map::emplace]: inserts unless the key is present, and tells
    whether it inserted. *)
Definition map_emplace (k : Id) (p : NodePtr) (m : gmap Id NodePtr) : gmap Id NodePtr * bool :=
  match m !! k with
  | Some _ => (m, false)
  | None => (<[k := p]> m, true)
  end.

(** [iback = !shuffle || rand() % 2], then [emplace_back] or [emplace_front]
    and the address of the new element.  The source repeats these lines in
    [acsAddNodes], [acsAddNodeAndLinks] (twice) and [Graph::addNodes]. *)
Definition emplace_node (nodes : list NodePtr) (nid : Id) (shuffle : bool)
  : M (list NodePtr * NodePtr) :=
  iback ← (if negb shuffle then mret true
           else r ← rand; mret (negb (r mod 2 =? 0)%nat));
  p ← alloc_node nid;
  mret (if (iback : bool) then nodes ++ [p] else p :: nodes, p).

(** [acsAddNodes] *)
Fixpoint acsAddNodes (nodes : list NodePtr) (idNodes : gmap Id NodePtr)
    (nodesIds : list Id) (shuffle : bool) : M (list NodePtr * gmap Id NodePtr) :=
  match nodesIds with
  | [] => mret (nodes, idNodes)
  | nid :: rest =>
      '(nodes', p) ← emplace_node nodes nid shuffle;
      let ridn := map_emplace nid p idNodes in
      assert (mret ridn.2) "acsAddNodes(), input node is duplicated";;
      acsAddNodes nodes' ridn.1 rest shuffle
  end.

(** [acsAddNodeLink<DIRECTED, WEIGHTED>] *)
Definition acsAddNodeLink (DIRECTED WEIGHTED : bool) (nd dst : NodePtr) (wgt : W)
    (shuffle : bool) : M unit :=
  if decide (dst = nd) then
    assert (sw ← selfWeight dst; mret (negb (w_nonzero sw)))
      "acsAddNodeLinks(), selfweight can be initialized just once";;
    selfWeight_set dst (wmul wgt (w_of_int (1 + Z.b2z (negb WEIGHTED && negb DIRECTED))))
  else if negb DIRECTED then
    let wgt := wdiv wgt (w_of_int 2) in
    addLink (negb WEIGHTED) dst nd wgt shuffle;;
    addLink (negb WEIGHTED) nd dst wgt shuffle
  else addLink (negb WEIGHTED) nd dst wgt shuffle.

(** [unordered_map::at]: throws [out_of_range]; the text of [what()] is the
    standard library's (here libstdc++'s). *)
Definition at_what : string := "_Map_base::at".

Definition map_at (m : gmap Id NodePtr) (k : Id) : M NodePtr :=
  match m !! k with
  | Some p => mret p
  | None => throw (out_of_range at_what)
  end.

(** [std::to_string] of an [Id] *)
Definition to_string (i : Id) : string := pretty i.

(** The [catch(out_of_range& err)] clause of [acsAddNodeLinks]: [dstId] is
    the value of the local variable when the exception arrives. *)
Definition unexistent_cause (dstId src : Id) (err_what : string) : string :=
  ("acsAddNodeLinks(), the link with unexistent node is used: #"
   +:+ to_string (if decide (dstId ≠ ID_NONE) then dstId else src))
  +:+ String "010"%char EmptyString +:+ err_what.

Definition catch_unexistent {A : Type} (dstId src : Id) (body : M A) : M A :=
  λ w, match body w with
       | Thrown (out_of_range err_what) =>
           Thrown (out_of_range (unexistent_cause dstId src err_what))
       | o => o
       end.

(** [acsAddNodeLinks<DIRECTED, WEIGHTED>].  The [try] block is entered once
    in the source; its only operations that throw [out_of_range] are the two
    calls of [at], so the handler is attached to each of them, with the value
    [dstId] has at that point ([ID_NONE] before the loop, [ln.id] in it). *)
Fixpoint acsAddNodeLinks_loop (DIRECTED WEIGHTED : bool) (idNodes : gmap Id NodePtr)
    (src : Id) (nd : NodePtr) (lns : list InpLink) (shuffle : bool) : M unit :=
  match lns with
  | [] => mret ()
  | ln :: rest =>
      let dstId := inp_id ln in
      dst ← catch_unexistent dstId src (map_at idNodes dstId);
      acsAddNodeLink DIRECTED WEIGHTED nd dst (inp_weight ln) shuffle;;
      acsAddNodeLinks_loop DIRECTED WEIGHTED idNodes src nd rest shuffle
  end.

Definition acsAddNodeLinks (DIRECTED WEIGHTED : bool) (idNodes : gmap Id NodePtr)
    (src : Id) (lns : list InpLink) (shuffle : bool) : M unit :=
  nd ← catch_unexistent ID_NONE src (map_at idNodes src);
  acsAddNodeLinks_loop DIRECTED WEIGHTED idNodes src nd lns shuffle.

(** [find] followed by the creation of the node when it is missing; the
    result is the pointer stored in the map ([ridn.first->second]). *)
Definition find_or_add (nodes : list NodePtr) (idNodes : gmap Id NodePtr) (nid : Id)
    (shuffle : bool) (msg : string) : M (list NodePtr * gmap Id NodePtr * NodePtr) :=
  match idNodes !! nid with
  | Some p => mret (nodes, idNodes, p)
  | None =>
      '(nodes', p) ← emplace_node nodes nid shuffle;
      let ridn := map_emplace nid p idNodes in
      assert (mret ridn.2) msg;;
      mret (nodes', ridn.1, default p (ridn.1 !! nid))
  end.

(** [acsAddNodeAndLinks<DIRECTED, WEIGHTED>] *)
Fixpoint acsAddNodeAndLinks_loop (DIRECTED WEIGHTED : bool) (nodes : list NodePtr)
    (idNodes : gmap Id NodePtr) (ind : NodePtr) (lns : list InpLink) (shuffle : bool)
    : M (list NodePtr * gmap Id NodePtr) :=
  match lns with
  | [] => mret (nodes, idNodes)
  | ln :: rest =>
      '(nodes', idNodes', idst) ← find_or_add nodes idNodes (inp_id ln) shuffle
          "acsAddNodeAndLinks(), duplicated input nodes in links";
      acsAddNodeLink DIRECTED WEIGHTED ind idst (inp_weight ln) shuffle;;
      acsAddNodeAndLinks_loop DIRECTED WEIGHTED nodes' idNodes' ind rest shuffle
  end.

Definition acsAddNodeAndLinks (DIRECTED WEIGHTED : bool) (nodes : list NodePtr)
    (idNodes : gmap Id NodePtr) (src : Id) (lns : list InpLink) (shuffle : bool)
    : M (list NodePtr * gmap Id NodePtr) :=
  '(nodes', idNodes', ind) ← find_or_add nodes idNodes src shuffle
      "acsAddNodeAndLinks(), duplicated input nodes";
  acsAddNodeAndLinks_loop DIRECTED WEIGHTED nodes' idNodes' ind lns shuffle.

(** ** cluster.h / cluster.hpp: [Graph<WEIGHTED, UNSIGNED>] *)

Record Graph : Type := mkGraph {
  nodes : list NodePtr;
  m_idNodes : gmap Id NodePtr;
  m_finalized : bool;
  m_directed : bool;
  m_shuffle : bool
}.

(** [Graph::Graph(Id nodesNum, bool shuffle)]: the initialiser list reads
    [m_shuffle(false)]. *)
Definition Graph_ctor (nodesNum : Id) (shuffle : bool) : M Graph :=
  srand_time;;
  mret {| nodes := []; m_idNodes := ∅; m_finalized := false;
          m_directed := false; m_shuffle := false |}.

(** [Graph::reinit]; the nodes of the cleared list are destroyed. *)
Definition reinit (nodesNum : Id) (shuffle : bool) (g : Graph) : M Graph :=
  (λ w, Done ((), {| mem := filter (λ kv, kv.1 ∉ nodes g) (mem w); rng := rng w |}));;
  srand_time;;
  mret {| nodes := []; m_idNodes := ∅; m_finalized := m_finalized g;
          m_directed := false; m_shuffle := shuffle |}.

(** [Graph::validateExtension] *)
Definition validateExtension (g : Graph) : M unit :=
  if m_finalized g
  then throw (domain_error ("addNodes(), Finalized graph can't be extended"
                            +:+ String "010"%char EmptyString))
  else mret ().

Definition with_nodes (g : Graph) (ns : list NodePtr) (ids : gmap Id NodePtr) : Graph :=
  {| nodes := ns; m_idNodes := ids; m_finalized := m_finalized g;
     m_directed := m_directed g; m_shuffle := m_shuffle g |}.

Definition with_directed (g : Graph) (d : bool) : Graph :=
  {| nodes := nodes g; m_idNodes := m_idNodes g; m_finalized := m_finalized g;
     m_directed := d; m_shuffle := m_shuffle g |}.

(** [Graph::addNodes(const Ids&)] and [Graph::addNodes(initializer_list<Id>)] *)
Definition addNodes (nodesIds : list Id) (g : Graph) : M Graph :=
  validateExtension g;;
  '(ns, ids) ← acsAddNodes (nodes g) (m_idNodes g) nodesIds (m_shuffle g);
  mret (with_nodes g ns ids).

(** [Graph::addNodes(Id idBeg, Id idEnd)]: the loop runs over
    [idBeg, idBeg + 1, ..., idEnd - 1]. *)
Fixpoint addNodes_range_loop (ns : list NodePtr) (ids : gmap Id NodePtr)
    (todo : list Id) (shuffle : bool) : M (list NodePtr * gmap Id NodePtr) :=
  match todo with
  | [] => mret (ns, ids)
  | nid :: rest =>
      '(ns', p) ← emplace_node ns nid shuffle;
      let idn := map_emplace nid p ids in
      assert (mret idn.2) "addNodes(), input node is duplicated";;
      addNodes_range_loop ns' idn.1 rest shuffle
  end.

Definition addNodes_range (idBeg idEnd : Id) (g : Graph) : M Graph :=
  validateExtension g;;
  if idEnd <? idBeg
  then throw (domain_error ("addNodes(), idEnd must be >= idBeg"
                            +:+ String "010"%char EmptyString))
  else
    '(ns, ids) ← addNodes_range_loop (nodes g) (m_idNodes g)
                   (seqZ idBeg (idEnd - idBeg)) (m_shuffle g);
    mret (with_nodes g ns ids).

(** [Graph::addNodeLinks<DIRECTED>] (both overloads) *)
Definition addNodeLinks (WEIGHTED DIRECTED : bool) (node : Id) (lns : list InpLink)
    (g : Graph) : M Graph :=
  validateExtension g;;
  let g := with_directed g (m_directed g || DIRECTED) in
  acsAddNodeLinks DIRECTED WEIGHTED (m_idNodes g) node lns (m_shuffle g);;
  mret g.

(** [Graph::addNodeAndLinks<DIRECTED>] *)
Definition addNodeAndLinks (WEIGHTED DIRECTED : bool) (node : Id) (lns : list InpLink)
    (g : Graph) : M Graph :=
  validateExtension g;;
  let g := with_directed g (m_directed g || DIRECTED) in
  '(ns, ids) ← acsAddNodeAndLinks DIRECTED WEIGHTED (nodes g) (m_idNodes g) node lns
                 (m_shuffle g);
  mret (with_nodes g ns ids).

(** [Graph::finalize] *)
Definition finalize (g : Graph) : Graph * list NodePtr :=
  ({| nodes := nodes g; m_idNodes := ∅; m_finalized := true;
      m_directed := m_directed g; m_shuffle := m_shuffle g |}, nodes g).

(** [Graph::directed] *)
Definition directed (g : Graph) : bool := m_directed g.

(** The graph of [testcase()] in client/main.cpp, "Basic 3x overlapping";
    an [InpLink] made from an id alone has the default weight 1. *)
Definition testcase_graph : M Graph :=
  g ← Graph_ctor 0 false;
  g ← addNodes [0; 1; 2; 3] g;
  g ← addNodeLinks true true 0 [InpWeighted 0 (w_of_int 6)] g;
  g ← addNodeLinks true true 1 [InpWeighted 1 (w_of_int 6)] g;
  g ← addNodeLinks true true 3 [InpWeighted 3 (w_of_int 6)] g;
  addNodeLinks true false 2
    [InpWeighted 0 (w_of_int 1); InpWeighted 1 (w_of_int 1); InpWeighted 3 (w_of_int 1)] g.

End graph.

(** ** types.h / types.hpp: items of a hierarchy

    [ClusterI<LinksT>*] points to a [Node] or to a [Cluster]; the pointer is
    kept together with the dynamic type of its target, which is what the
    virtual call [descs()] dispatches on.  Nodes and clusters are addressed
    by their position in [m_nodes] and [m_cls]: [unwrap] is [const], so the
    positions are stable.  Fields that [unwrap] and the constructor's id
    counter do not touch (links, self weight, context, core) are left out. *)

Inductive ItemPtr : Type :=
| NodeItem (n : nat)
| ClusterItem (c : nat).

Record HNode : Type := mkHNode {
  nid : Id;
  nowners : list nat
}.

Record Cluster : Type := mkCluster {
  cid : Id;
  cowners : list nat;
  des : list ItemPtr
}.





Record Hierarchy : Type := mkHierarchy {
  m_nodes : list HNode;
  m_cls : list Cluster;
  m_root : list nat
}.

#[global] Instance ItemPtr_eq_dec : EqDecision ItemPtr.
Proof. solve_decision. Defined.

#[global] Instance ItemPtr_countable : Countable ItemPtr.
Proof.
  refine (inj_countable'
    (λ p, match p with NodeItem n => inl n | ClusterItem c => inr c end)
    (λ s, match s with inl n => NodeItem n | inr c => ClusterItem c end) _).
  by intros [].
Defined.

(** ** types.hpp: [Hierarchy::unwrap]

    [Share] is [float].  The order in which the loops visit an
    [unordered_map] is the order of the hash buckets of the pointers, and
    float addition depends on it; shares are therefore taken as exact
    rationals, for which every visiting order gives the same maps. *)

Abbreviation Share := Qc.

(** [cl->owners] and [il.first->descs()] through an item pointer.  A pointer
    outside [m_nodes] / [m_cls] has no counterpart in a C++ hierarchy; it is
    read as an item without owners and without descendants. *)
Definition owners (h : Hierarchy) (p : ItemPtr) : list nat :=
  match p with
  | NodeItem n => from_option nowners [] (m_nodes h !! n)
  | ClusterItem c => from_option cowners [] (m_cls h !! c)
  end.

Definition descs (h : Hierarchy) (p : ItemPtr) : option (list ItemPtr) :=
  match p with
  | NodeItem _ => None
  | ClusterItem c => Some (from_option des [] (m_cls h !! c))
  end.

(** [m[k] += x] on an [unordered_map]: [operator[]] inserts 0 for a new key. *)
Definition map_add `{Countable K} (k : K) (x : Share) (m : gmap K Share) : gmap K Share :=
  <[k := (default 0%Qc (m !! k) + x)%Qc]> m.

(** [!cl->owners.empty() ? cl->owners.size() : 1], converted to [float] *)
Definition owners_divisor (h : Hierarchy) (cl : ItemPtr) : Share :=
  let n := length (owners h cl) in
  Qc_of_Z (Z.of_nat (if (n =? 0)%nat then 1 else n)).

(** The cast of [il.first] to a pointer to [Node]. *)
Definition cast_Node (p : ItemPtr) : nat :=
  match p with NodeItem n => n | ClusterItem c => c end.

(** The body of [for(const auto& il: lev)], on the pair [(levn, clNodes)]. *)
Definition unwrap_item (h : Hierarchy)
    (st : gmap ItemPtr Share * gmap nat Share) (il : ItemPtr * Share)
    : gmap ItemPtr Share * gmap nat Share :=
  match descs h il.1 with
  | Some ds =>
      if bool_decide (ds = []) then st
      else (foldl (λ levn cl, map_add cl (il.2 / owners_divisor h cl)%Qc levn) st.1 ds,
            st.2)
  | None => (st.1, map_add (cast_Node il.1) il.2 st.2)
  end.

(** One round of [while(!lev.empty())]: the next level and the result map. *)
Definition unwrap_level (h : Hierarchy) (lev : gmap ItemPtr Share) (clNodes : gmap nat Share)
    : gmap ItemPtr Share * gmap nat Share :=
  foldl (unwrap_item h) (∅, clNodes) (map_to_list lev).

(** The [while] loop, with a bound on the number of rounds. *)
Fixpoint unwrap_loop (fuel : nat) (h : Hierarchy) (lev : gmap ItemPtr Share)
    (clNodes : gmap nat Share) : option (gmap nat Share) :=
  if decide (lev = ∅) then Some clNodes
  else match fuel with
       | O => None
       | S fuel' =>
           let st := unwrap_level h lev clNodes in
           unwrap_loop fuel' h st.1 st.2
       end.

(** [Hierarchy::unwrap(cl, clNodes)], [cl] being the cluster [m_cls[c]]. *)
Definition unwrap (fuel : nat) (h : Hierarchy) (c : nat) (clNodes : gmap nat Share)
    : option (gmap nat Share) :=
  unwrap_loop fuel h {[ ClusterItem c := 1%Qc ]} clNodes.

(** ** The client: [std::string] operations used by [Client::parseLinks]

    Positions are [size_t] values; they stay below the length of the line
    (or are [npos]), so no addition on them wraps. *)

Definition npos : Z := 2 ^ 64 - 1.
Definition ULONG_MAX : Z := 2 ^ 64 - 1.

Definition str_size (s : string) : Z := Z.of_nat (String.length s).

Fixpoint str_drop (n : nat) (s : string) : string :=
  match n, s with
  | O, _ => s
  | S n', String _ s' => str_drop n' s'
  | S _, EmptyString => EmptyString
  end.

Fixpoint str_take (n : nat) (s : string) : string :=
  match n, s with
  | O, _ => EmptyString
  | S n', String c s' => String c (str_take n' s')
  | S _, EmptyString => EmptyString
  end.

(** [line[pos]]; reading at [size()] gives the null character. *)
Definition str_at (s : string) (pos : Z) : ascii :=
  match str_drop (Z.to_nat pos) s with
  | String c _ => c
  | EmptyString => "000"%char
  end.

Fixpoint find_if (P : ascii → bool) (s : string) : option nat :=
  match s with
  | EmptyString => None
  | String c s' => if P c then Some O else S <$> find_if P s'
  end.

Definition find_if_from (P : ascii → bool) (s : string) (pos : Z) : Z :=
  if str_size s <=? pos then npos
  else match find_if P (str_drop (Z.to_nat pos) s) with
       | Some i => pos + Z.of_nat i
       | None => npos
       end.

Definition char_in (chars : string) (c : ascii) : bool :=
  bool_decide (c ∈ list_ascii_of_string chars).

(** [s.find(c, pos)], [s.find_first_of(chars, pos)], [s.find_first_not_of(chars, pos)] *)
Definition str_find (s : string) (c : ascii) (pos : Z) : Z :=
  find_if_from (λ x, bool_decide (x = c)) s pos.
Definition find_first_of (s chars : string) (pos : Z) : Z :=
  find_if_from (char_in chars) s pos.
Definition find_first_not_of (s chars : string) (pos : Z) : Z :=
  find_if_from (λ x, negb (char_in chars x)) s pos.

(** [s.substr(pos, n)] *)
Definition substr (s : string) (pos n : Z) : Outcome string :=
  if str_size s <? pos then Thrown (out_of_range "basic_string::substr")
  else Done (str_take (Z.to_nat n) (str_drop (Z.to_nat pos) s)).

(** [std::stoul(str, &idx)] in base 10, after [strtoul]: white space, an
    optional sign, digits.  The result is the [unsigned long] value and the
    number of characters read. *)
Definition isspace (c : ascii) : bool :=
  char_in (String " " (String "009" (String "010" (String "011"
          (String "012" (String "013" EmptyString)))))) c.

Definition digit_of (c : ascii) : option Z :=
  let n := Z.of_nat (nat_of_ascii c) in
  if (48 <=? n) && (n <=? 57) then Some (n - 48) else None.

Fixpoint read_digits (s : string) (acc cnt : Z) : Z * Z :=
  match s with
  | EmptyString => (acc, cnt)
  | String c s' =>
      match digit_of c with
      | Some d => read_digits s' (10 * acc + d) (cnt + 1)
      | None => (acc, cnt)
      end
  end.

Fixpoint count_spaces (s : string) : nat :=
  match s with
  | String c s' => if isspace c then S (count_spaces s') else O
  | EmptyString => O
  end.

Definition stoul (s : string) : Outcome (Z * Z) :=
  let ws := count_spaces s in
  let s1 := str_drop ws s in
  let '(neg, s2, signlen) :=
    match s1 with
    | String c r =>
        if Ascii.eqb c "-" then (true, r, 1)
        else if Ascii.eqb c "+" then (false, r, 1)
        else (false, s1, 0)
    | EmptyString => (false, s1, 0)
    end in
  let '(v, cnt) := read_digits s2 0 0 in
  if cnt =? 0 then Thrown (invalid_argument "stoul")
  else if ULONG_MAX <? v then Thrown (out_of_range "stoul")
  else Done (if (neg : bool) then (- v) mod 2 ^ 64 else v, Z.of_nat ws + signlen + cnt).

(** ** The client: [Client::parseLinks] *)

Section client.
Context {W : Type} `{WeightOps W}.
Variable NDEBUG : bool.

(** [std::stof(str, &idx)]: the value and the number of characters read. *)
Variable stof : string → Outcome (W * nat).

(** The fields of [Client] that [parseLinks] reads and writes; [m_graphPtr]
    is null or points to the graph. *)
Record Client : Type := mkClient {
  m_reorder : bool;
  m_nodesNum : Id;
  m_nodesStartId : Id;
  m_graphPtr : option Graph
}.

Definition spaces : string := String " " (String "009" EmptyString).

(** [numeric_limits<float>::digits10 + 2] *)
Definition SYM_DIGITS_MAX : Z := 6 + 2.

(** [Operations<SIMPLE>::addLink] on [Links<InpLink<WEIGHTED>>]:
    [LinkT(id)] when [SIMPLE], [LinkT(id, weight)] otherwise; the weight of
    [InpLink<true>(id)] is [DEFAULT_WEIGHT]. *)
Definition Operations_addLink (SIMPLE WEIGHTED : bool) (lnks : list (@InpLink W))
    (i : Id) (wgt : W) : list InpLink :=
  lnks ++ [if SIMPLE
           then (if WEIGHTED then InpWeighted i (w_of_int 1) else InpSimple i)
           else InpWeighted i wgt].

Definition invalid_format (line : string) (pos : Z) : Exception :=
  let ctxSize := SYM_DIGITS_MAX in
  let pbeg := if ctxSize <? pos then pos - ctxSize else 0 in
  let pend := if str_size line <? pos + ctxSize + 1 then str_size line
              else pos + ctxSize + 1 in
  domain_error (("Invalid value format in pos: " +:+ pretty pos)
                +:+ ", context(+/-PRECISION_DIG symbols): "
                +:+ str_take (Z.to_nat (pend - pbeg)) (str_drop (Z.to_nat pbeg) line)
                +:+ String "010"%char EmptyString).

(** The body of [while(pos < lineLen)]: the next [pos] and the links. *)
Definition parseLinks_step (WEIGHTED : bool) (line : string) (pos : Z)
    (lnks : list InpLink) : Outcome (Z * list InpLink) :=
  let lineLen := str_size line in
  let pos := find_first_not_of line spaces pos in
  sub ← substr line pos SYM_DIGITS_MAX;
  '(did, offs) ← stoul sub;
  let did := to_Id did in
  let pos := pos + offs in
  '(wgt, weightAssigned, pos) ←
    (if WEIGHTED && (pos <? lineLen) && bool_decide (str_at line pos = ":"%char)
     then
       sub ← substr line (pos + 1) SYM_DIGITS_MAX;
       '(w, offs) ← stof sub;
       mret (w, true, pos + 1 + Z.of_nat offs)
     else mret (w_of_int 0, false, pos));
  let offs := find_first_of line spaces pos in
  if negb (offs =? pos) && negb (offs =? npos)
     && (WEIGHTED || negb (bool_decide (str_at line pos = ":"%char)))
  then Thrown (invalid_format line pos)
  else
    let pos := offs in
    let lnks := if (weightAssigned : bool)
                then Operations_addLink (negb WEIGHTED) WEIGHTED lnks did wgt
                else Operations_addLink true WEIGHTED lnks did wgt in
    Done (if pos =? npos then lineLen else pos, lnks).

(** The [while] loop; [None] when the bound on the rounds is used up. *)
Fixpoint parseLinks_loop (fuel : nat) (WEIGHTED : bool) (line : string) (pos : Z)
    (lnks : list InpLink) : option (Outcome (list InpLink)) :=
  if negb (pos <? str_size line) then Some (Done lnks)
  else match fuel with
       | O => None
       | S fuel' =>
           match parseLinks_step WEIGHTED line pos lnks with
           | Done (pos', lnks') => parseLinks_loop fuel' WEIGHTED line pos' lnks'
           | Thrown e => Some (Thrown e)
           | AssertFailed m => Some (AssertFailed m)
           | Undefined u => Some (Undefined u)
           end
       end.

(** The text of the line: the source id and the links, or nothing when
    there is no [>]. *)
Definition parseLinks_line (WEIGHTED : bool) (line : string)
    : option (Outcome (option (Id * list InpLink))) :=
  match stoul line with
  | Done (nid, pos) =>
      let nid := to_Id nid in
      let pos := find_first_not_of line spaces (str_find line ">"%char pos) in
      if pos =? npos then Some (Done None)
      else
        match parseLinks_loop (S (String.length line)) WEIGHTED line (pos + 1) [] with
        | Some (Done lnks) => Some (Done (Some (nid, lnks)))
        | Some (Thrown e) => Some (Thrown e)
        | Some (AssertFailed m) => Some (AssertFailed m)
        | Some (Undefined u) => Some (Undefined u)
        | None => None
        end
  | Thrown e => Some (Thrown e)
  | AssertFailed m => Some (AssertFailed m)
  | Undefined u => Some (Undefined u)
  end.

Definition lift_Outcome {A : Type} (o : Outcome A) : @M W A :=
  λ w, match o with
       | Done a => Done (a, w)
       | Thrown e => Thrown e
       | AssertFailed m => AssertFailed m
       | Undefined u => Undefined u
       end.

(** [Client::parseLinks<WEIGHTED>(line, directed)]: the graph is created on
    the first call, then the line is read and its links are stored. *)
Definition parseLinks (WEIGHTED : bool) (line : string) (directed : bool) (c : Client)
    : World → option (Outcome (Client * World)) :=
  λ w,
    parsed ← parseLinks_line WEIGHTED line;
    Some ((g ← match m_graphPtr c with
               | Some g => mret g
               | None =>
                   g ← Graph_ctor (m_nodesNum c) (m_reorder c);
                   if decide (m_nodesStartId c ≠ ID_NONE)
                   then addNodes_range NDEBUG (m_nodesStartId c)
                          (to_Id (m_nodesStartId c + m_nodesNum c)) g
                   else mret g
               end;
           let c' := {| m_reorder := m_reorder c; m_nodesNum := m_nodesNum c;
                        m_nodesStartId := m_nodesStartId c; m_graphPtr := Some g |} in
           r ← lift_Outcome parsed;
           match r with
           | None => mret c'
           | Some (_, []) => mret c'
           | Some (nid, lnks) =>
               g' ← (if decide (m_nodesStartId c ≠ ID_NONE)
                     then addNodeLinks NDEBUG WEIGHTED directed nid lnks g
                     else addNodeAndLinks NDEBUG WEIGHTED directed nid lnks g);
               mret {| m_reorder := m_reorder c; m_nodesNum := m_nodesNum c;
                       m_nodesStartId := m_nodesStartId c; m_graphPtr := Some g' |}
           end) w).

End client.

(** ** The client: more [std::string] operations *)

(** [std::tolower] in the "C" locale, which the client never changes: the
    letters [A] to [Z] become [a] to [z], every other byte stays. *)
Definition tolower (c : ascii) : ascii :=
  let n := nat_of_ascii c in
  if (65 <=? n)%nat && (n <=? 90)%nat then ascii_of_nat (n + 32) else c.

Fixpoint str_map (f : ascii → ascii) (s : string) : string :=
  match s with
  | EmptyString => EmptyString
  | String c s' => String (f c) (str_map f s')
  end.

Fixpoint str_prefix (p s : string) : bool :=
  match p, s with
  | EmptyString, _ => true
  | String a p', String b s' => Ascii.eqb a b && str_prefix p' s'
  | String _ _, EmptyString => false
  end.

Fixpoint find_str (p s : string) : option nat :=
  if str_prefix p s then Some O
  else match s with
       | EmptyString => None
       | String _ s' => S <$> find_str p s'
       end.

(** [s.find(str, pos)] *)
Definition str_find_str (s p : string) (pos : Z) : Z :=
  if str_size s <? pos then npos
  else match find_str p (str_drop (Z.to_nat pos) s) with
       | Some i => pos + Z.of_nat i
       | None => npos
       end.

(** [s.resize(n)] with [n] at most the size *)
Definition str_resize (s : string) (n : Z) : string := str_take (Z.to_nat n) s.

(** [std::stoi(str)] in base 10, after [strtol]; the value must fit into
    [int]. *)
Definition INT_MIN : Z := - 2 ^ 31.
Definition INT_MAX : Z := 2 ^ 31 - 1.

Definition stoi (s : string) : Outcome Z :=
  let ws := count_spaces s in
  let s1 := str_drop ws s in
  let '(neg, s2) :=
    match s1 with
    | String c r =>
        if Ascii.eqb c "-" then (true, r)
        else if Ascii.eqb c "+" then (false, r)
        else (false, s1)
    | EmptyString => (false, s1)
    end in
  let '(v, cnt) := read_digits s2 0 0 in
  let v := if (neg : bool) then - v else v in
  if cnt =? 0 then Thrown (invalid_argument "stoi")
  else if (v <? INT_MIN) || (INT_MAX <? v) then Thrown (out_of_range "stoi")
  else Done v.

(** ** The client: arguments *)

(** [classifyArgs]: the arguments after the program name; one that starts
    with [-] is an option and loses the [-], the others are files. *)
Fixpoint classifyArgs_loop (args opts files : list string) : list string * list string :=
  match args with
  | [] => (opts, files)
  | arg :: rest =>
      if bool_decide (str_at arg 0 = "-"%char)
      then classifyArgs_loop rest (opts ++ [str_drop 1 arg]) files
      else classifyArgs_loop rest opts (files ++ [arg])
  end.

Definition classifyArgs (argv : list string) : list string * list string :=
  if Z.of_nat (length argv) <? 2 then ([], [])
  else classifyArgs_loop (drop 1 argv) [] [].

Section client_process.
Context {W : Type} `{WeightOps W}.
Variable NDEBUG : bool.
Variable stof : string → Outcome (W * nat).

(** The user-defined parameters of [Client]; [m_reorder] and the fields of
    the file reader are in the record [Client] above. *)
Record ClientParams : Type := mkClientParams {
  m_outfmpt : ascii;
  m_extoutp : Z;
  m_validate : bool;
  m_fast : bool;
  m_modProfitMarg : W;
  m_inpfile : string
}.

Definition unexpected_option (opt : string) : string :=
  "Unexpected option is provided: -" +:+ opt +:+ String "010"%char EmptyString.

(** The body of [for(const auto& opt: opts)] in [Client::parseArgs] *)
Definition parseArgs_option (opt : string) (pc : ClientParams * Client)
    : Outcome (ClientParams * Client) :=
  let '(p, c) := pc in
  let opt0 := str_at opt 0 in
  if bool_decide (opt0 = "o"%char) then
    if (str_size opt <? 2)
       || ((3 <=? str_size opt) && negb (bool_decide (str_at opt 2 = "e"%char))
           && negb (bool_decide (str_at opt 2 = "d"%char)))
    then Thrown (domain_error (unexpected_option opt))
    else
      Done ({| m_outfmpt := str_at opt 1;
               m_extoutp := if 3 <=? str_size opt
                            then (if bool_decide (str_at opt 2 = "e"%char) then 1 else 2)
                            else m_extoutp p;
               m_validate := m_validate p; m_fast := m_fast p;
               m_modProfitMarg := m_modProfitMarg p; m_inpfile := m_inpfile p |}, c)
  else if bool_decide (opt0 = "c"%char) then
    Done ({| m_outfmpt := m_outfmpt p; m_extoutp := m_extoutp p;
             m_validate := false; m_fast := m_fast p;
             m_modProfitMarg := m_modProfitMarg p; m_inpfile := m_inpfile p |}, c)
  else if bool_decide (opt0 = "f"%char) then
    Done ({| m_outfmpt := m_outfmpt p; m_extoutp := m_extoutp p;
             m_validate := m_validate p; m_fast := true;
             m_modProfitMarg := m_modProfitMarg p; m_inpfile := m_inpfile p |}, c)
  else if bool_decide (opt0 = "r"%char) then
    Done (p, {| m_reorder := true; m_nodesNum := m_nodesNum c;
                m_nodesStartId := m_nodesStartId c; m_graphPtr := m_graphPtr c |})
  else if bool_decide (opt0 = "m"%char) then
    sub ← substr opt 1 npos;
    '(v, _) ← stof sub;
    Done ({| m_outfmpt := m_outfmpt p; m_extoutp := m_extoutp p;
             m_validate := m_validate p; m_fast := m_fast p;
             m_modProfitMarg := v; m_inpfile := m_inpfile p |}, c)
  else Thrown (invalid_argument (unexpected_option opt)).

Fixpoint parseArgs_options (opts : list string) (pc : ClientParams * Client)
    : Outcome (ClientParams * Client) :=
  match opts with
  | [] => Done pc
  | opt :: rest => pc' ← parseArgs_option opt pc; parseArgs_options rest pc'
  end.

(** [Client::parseArgs]; [argv] holds the program name and the arguments. *)
Definition parseArgs (argv : list string) (pc : ClientParams * Client)
    : Outcome (bool * (ClientParams * Client)) :=
  if Z.of_nat (length argv) <? 2 then Done (false, pc)
  else
    let '(opts, files) := classifyArgs argv in
    match files with
    | [] => Thrown (domain_error "Output file name is expected to be provided")
    | file :: _ =>
        let '(p, c) := pc in
        let p := {| m_outfmpt := m_outfmpt p; m_extoutp := m_extoutp p;
                    m_validate := m_validate p; m_fast := m_fast p;
                    m_modProfitMarg := m_modProfitMarg p; m_inpfile := file |} in
        pc' ← parseArgs_options opts (p, c);
        Done (true, pc')
    end.

(** ** The client: the sections of a [.hig] file *)

(** [Client::FileSection] *)
Inductive FileSection : Type := NONE | GRAPH | NODES | EDGES | ARCS.

#[global] Instance FileSection_eq_dec : EqDecision FileSection.
Proof. solve_decision. Defined.

(** The state of the loop of [Client::process]: the local variables
    [weighted] and [sect], and the fields of the client. *)
Record Reader : Type := mkReader {
  weighted : bool;
  sect : FileSection;
  client : Client
}.

Definition newline : string := String "010"%char EmptyString.

(** The [/Graph] header: the attribute [weighted:]. *)
Definition header_graph (line : string) (pose : Z) (st : Reader) : Outcome Reader :=
  if negb (bool_decide (sect st = NONE))
  then Thrown (domain_error
                 ("Unexpected section: Graph section must be first one" +:+ newline))
  else if pose =? npos
  then Done {| weighted := weighted st; sect := GRAPH; client := client st |}
  else
    let title := "weighted:" in
    let pos := str_find_str line title (pose + 1) in
    if pos =? npos
    then Done {| weighted := weighted st; sect := GRAPH; client := client st |}
    else
      let pos := find_first_not_of line spaces (pos + str_size title) in
      sub ← substr line pos (find_first_of line spaces ((pos + 1) mod 2 ^ 64));
      v ← stoi sub;
      Done {| weighted := negb (v =? 0); sect := GRAPH; client := client st |}.

Definition with_nodesNum (c : Client) (n : Id) : Client :=
  {| m_reorder := m_reorder c; m_nodesNum := n;
     m_nodesStartId := m_nodesStartId c; m_graphPtr := m_graphPtr c |}.

Definition with_nodesStartId (c : Client) (i : Id) : Client :=
  {| m_reorder := m_reorder c; m_nodesNum := m_nodesNum c;
     m_nodesStartId := i; m_graphPtr := m_graphPtr c |}.

(** The [/Nodes] header: the number of nodes and the start id. *)
Definition header_nodes (line : string) (pose : Z) (st : Reader) : Outcome Reader :=
  if negb (bool_decide (sect st = NONE)) && negb (bool_decide (sect st = GRAPH))
  then Thrown (domain_error
                 ("Unexpected section: Nodes section must be first one"
                  +:+ " or after the Graph section" +:+ newline))
  else if pose =? npos
  then Done {| weighted := weighted st; sect := NODES; client := client st |}
  else
    let pos := find_first_not_of line spaces (pose + 1) in
    if pos =? npos
    then Done {| weighted := weighted st; sect := NODES; client := client st |}
    else
      let pose := find_first_of line spaces (pos + 1) in
      sub ← substr line pos pose;
      '(num, _) ← stoul sub;
      let c := with_nodesNum (client st) (to_Id num) in
      if pose =? npos
      then Done {| weighted := weighted st; sect := NODES; client := c |}
      else
        let pos := find_first_not_of line spaces (pose + 1) in
        if pos =? npos
        then Done {| weighted := weighted st; sect := NODES; client := c |}
        else
          sub ← substr line pos (find_first_of line spaces (pos + 1));
          '(start, _) ← stoul sub;
          Done {| weighted := weighted st; sect := NODES;
                  client := with_nodesStartId c (to_Id start) |}.

(** A line whose first character after the blanks is [/], at [pos]. *)
Definition process_header (line : string) (pos : Z) (st : Reader) : Outcome Reader :=
  let pos := pos + 1 in
  let pose := find_first_of line spaces pos in
  title ← substr line pos (pose - pos);
  if bool_decide (title = EmptyString)
  then Thrown (domain_error ("Invalid (empty) section header" +:+ newline))
  else
    let title := str_map tolower title in
    let pos := str_find_str line "#" pose in
    let line := if pos =? npos then line else str_resize line pos in
    if bool_decide (title = "graph") then header_graph line pose st
    else if bool_decide (title = "nodes") then header_nodes line pose st
    else if bool_decide (title = "edges")
    then Done {| weighted := weighted st; sect := EDGES; client := client st |}
    else if bool_decide (title = "arcs")
    then Done {| weighted := weighted st; sect := ARCS; client := client st |}
    else Thrown (out_of_range (("Unknown section is used: " +:+ title) +:+ newline)).

(** The body of [while(getline(infile, line))] *)
Definition process_line (st : Reader) (line : string)
    : @World W → option (Outcome (Reader * @World W)) :=
  λ w,
    let pos := find_first_not_of line spaces 0 in
    if (pos =? npos) || bool_decide (str_at line pos = "#"%char)
    then Some (Done (st, w))
    else if negb (bool_decide (str_at line pos = "/"%char))
    then
      if negb (bool_decide (sect st = EDGES)) && negb (bool_decide (sect st = ARCS))
      then Some (Done (st, w))
      else
        r ← parseLinks NDEBUG stof (weighted st) line (bool_decide (sect st = ARCS))
               (client st) w;
        Some ('(c, w') ← r;
              Done ({| weighted := weighted st; sect := sect st; client := c |}, w'))
    else Some (st' ← process_header line pos st; Done (st', w)).

(** The loop over the lines that [getline] delivers. *)
Fixpoint process_lines (st : Reader) (lines : list string)
    : @World W → option (Outcome (Reader * @World W)) :=
  λ w,
    match lines with
    | [] => Some (Done (st, w))
    | line :: rest =>
        r ← process_line st line w;
        match r with
        | Done (st', w') => process_lines st' rest w'
        | Thrown e => Some (Thrown e)
        | AssertFailed m => Some (AssertFailed m)
        | Undefined u => Some (Undefined u)
        end
    end.

(** [processNodes<WEIGHTED>(nodes, symmetric, ...)] clusters the nodes and
    prints the hierarchy; the clustering is no part of these files, so the
    reader is stated for every such procedure. *)
Variable processNodes : bool → list NodePtr → bool → ClientParams → @M W unit.

(** [Client::processGraph<WEIGHTED>] *)
Definition processGraph (WEIGHTED : bool) (p : ClientParams) (c : Client) : @M W Client :=
  match m_graphPtr c with
  | None => throw (domain_error ("Graph should be existed" +:+ newline))
  | Some g =>
      processNodes WEIGHTED (finalize g).2 (negb (directed g)) p;;
      mret {| m_reorder := m_reorder c; m_nodesNum := m_nodesNum c;
              m_nodesStartId := m_nodesStartId c; m_graphPtr := None |}
  end.

(** [Client::process]; [lines] are the lines of the input file, none when
    the file cannot be opened. *)
Definition process (lines : list string) (p : ClientParams) (c : Client)
    : @World W → option (Outcome (Client * @World W)) :=
  λ w,
    match assert NDEBUG (mret (bool_decide (m_graphPtr c = None)))
            ("m_graphPtr should be empty on start" +:+ newline) w with
    | Done (_, w) =>
        let c := {| m_reorder := m_reorder c; m_nodesNum := 0;
                    m_nodesStartId := ID_NONE; m_graphPtr := None |} in
        r ← process_lines {| weighted := true; sect := NONE; client := c |} lines w;
        Some ('(st, w') ← r;
              '(c', w'') ← processGraph (weighted st) p (client st) w';
              '(_, w''') ← assert NDEBUG (mret (bool_decide (m_graphPtr c' = None)))
                             ("Graph must be released after processing" +:+ newline) w'';
              Done (c', w'''))
    | Thrown e => Some (Thrown e)
    | AssertFailed m => Some (AssertFailed m)
    | Undefined u => Some (Undefined u)
    end.

End client_process.

(** ** The client: formatting helpers *)

(** [str.pop_back()] *)
Definition str_pop_back (s : string) : string := str_take (String.length s - 1) s.

(** [itemsToStr]: [ItemsT] holds pointers to items, [id_of] reads the id
    through such a pointer ([c->id]). *)
Definition itemsToStr {A : Type} (id_of : A → Id) (els : list A) (delim : ascii)
    (strict : bool) (prefix suffix : string) : string :=
  match els with
  | _ :: _ =>
      let str := foldl (λ str c, str +:+ (to_string (id_of c) +:+ String delim EmptyString))
                   prefix els in
      str_pop_back str +:+ suffix
  | [] => if negb strict then "-" else EmptyString
  end.

(** * Vocabulary of the statements *)

(** The values of the weight type that are well formed: every rational,
    and the floats whose mantissa and exponent are in range. *)
Class WeightValid (W : Type) : Type := w_valid : W → Prop.

#[global] Instance Qc_WeightValid : WeightValid Qc := λ _, True.

#[global] Instance binary32_WeightValid : WeightValid spec_float :=
  λ x, valid_binary 24 128 x = true.

(** Multiplying by the integer 1 gives a well-formed weight back. *)
Class WeightLaws (W : Type) `{WeightOps W, WeightValid W} : Prop :=
  wmul_one : ∀ x : W, w_valid x → wmul x (w_of_int 1) = x.

Section statements.
Context {W : Type} `{WeightOps W}.

(** The link that [addLink<!WEIGHTED>] stores for destination [d]. *)
Definition arc (WEIGHTED : bool) (d : NodePtr) (wgt : W) : @Link W :=
  if negb WEIGHTED then SimpleLink d else WeightedLink d wgt.


(** Every pointer of the id map points to a node. *)
Definition pointers_valid (idNodes : gmap Id NodePtr) (w : @World W) : Prop :=
  ∀ i p, idNodes !! i = Some p → is_Some (mem w !! p).

(** The ids of the nodes of a graph, in the order of its node list. *)
Definition node_ids (g : Graph) (w : @World W) : list (option Id) :=
  (λ p, id <$> mem w !! p) <$> nodes g.


End statements.

(** ** The specification's reading of [unwrap]

    The share of a key that a map does not hold is 0. *)
Definition share_at `{Countable K} (m : gmap K Share) (k : K) : Share :=
  default 0%Qc (m !! k).

Definition sumQc (l : list Qc) : Qc := foldr Qcplus 0%Qc l.

(** The descendants of the cluster [m_cls[c]]. *)
Definition des_of (h : Hierarchy) (c : nat) : list ItemPtr :=
  from_option des [] (m_cls h !! c).

(** "divided by that descendant's number of owners (or by 1 when the
    descendant's owners list is empty)" *)
Definition spec_divisor (h : Hierarchy) (y : ItemPtr) : Qc :=
  Qc_of_Z (Z.of_nat (Nat.max 1 (length (owners h y)))).

(** The clusters that have [y] among their descendants, once for every
    time they list it. *)
Definition parents (h : Hierarchy) (y : ItemPtr) : list nat :=
  c ← seq 0 (length (m_cls h));
  (λ _, c) <$> filter (λ d, d = y) (des_of h c).

(** "at each step an item's share is added to each of its descendants
    divided by that descendant's number of owners": the shares of the next
    level, from the shares [L] of a level. *)
Definition spec_next (h : Hierarchy) (L : ItemPtr → Qc) (y : ItemPtr) : Qc :=
  sumQc ((λ c, L (ClusterItem c) / spec_divisor h y)%Qc <$> parents h y).

(** "level-by-level descent starting from {c ↦ 1}" *)
Fixpoint spec_level (h : Hierarchy) (c : nat) (k : nat) : ItemPtr → Qc :=
  match k with
  | O => λ y, if decide (y = ClusterItem c) then 1%Qc else 0%Qc
  | S k' => spec_next h (spec_level h c k')
  end.


(** Descendants lie strictly below their cluster: [rank] is a height. *)
Definition descends (h : Hierarchy) (rank : ItemPtr → nat) : Prop :=
  ∀ c y, y ∈ des_of h c → (rank y < rank (ClusterItem c))%nat.



(** Every share of a map is greater than 0. *)
Definition all_positive `{Countable K} (m : gmap K Share) : Prop :=
  ∀ k s, m !! k = Some s → (0 < s)%Qc.

(** What the item [x] with share [s] passes down to [y]. *)
Definition item_down (h : Hierarchy) (x : ItemPtr) (s : Qc) (y : ItemPtr) : Qc :=
  match x with
  | ClusterItem c =>
      sumQc ((λ _, s / spec_divisor h y)%Qc <$> filter (λ d, d = y) (des_of h c))
  | NodeItem _ => 0%Qc
  end.

(** The shares that the levels below [K] give to [y], summed. *)
Definition levels_total (h : Hierarchy) (c K : nat) (y : ItemPtr) : Qc :=
  sumQc ((λ k, spec_level h c k y) <$> seq 0 K).

(** ** The state of the graph builder *)

Section builder_statements.
Context {W : Type} `{WeightOps W}.

(** The state of a builder is well formed: the node list has no repetition
    and holds allocated nodes, the id map sends an id to a node of the list
    that carries this id, and every link of a node of the list points to a
    node of the list. *)
Record builder_wf (ns : list NodePtr) (idNodes : gmap Id NodePtr) (w : @World W) : Prop :=
  mk_builder_wf {
  wf_NoDup : NoDup ns;
  wf_nodes : ∀ p, p ∈ ns → is_Some (mem w !! p);
  wf_ids : ∀ i p, idNodes !! i = Some p → p ∈ ns ∧ id <$> mem w !! p = Some i;
  wf_links : ∀ p n l, p ∈ ns → mem w !! p = Some n → l ∈ links n → dest l ∈ ns
}.

Definition Graph_wf (g : Graph) (w : @World W) : Prop :=
  builder_wf (nodes g) (m_idNodes g) w.

(** What a call may do to the nodes that exist: a node keeps its id, and
    its links stay in the vector in their order. *)
Definition nodes_kept (w w' : @World W) : Prop :=
  ∀ p n, mem w !! p = Some n →
    ∃ n', mem w' !! p = Some n' ∧ id n' = id n ∧ links n `sublist_of` links n'.

(** The same link with another destination. *)
Definition retarget (l : @Link W) (p : NodePtr) : Link :=
  match l with
  | WeightedLink _ x => WeightedLink p x
  | SimpleLink _ => SimpleLink p
  end.

(** Every link of a node of [ns] has its back link, of the same weight. *)
Definition links_symmetric (ns : list NodePtr) (w : @World W) : Prop :=
  ∀ a na l, a ∈ ns → mem w !! a = Some na → l ∈ links na →
    ∃ nb, mem w !! dest l = Some nb ∧ retarget l a ∈ links nb.

(** The error of a mutator on a finalized graph. *)
Definition finalized_error : Exception :=
  domain_error ("addNodes(), Finalized graph can't be extended"
                +:+ String "010"%char EmptyString).

(** What [acsAddNodeLink] does to the heap, seen from a list [ns] that
    holds its two nodes: no node is allocated or freed, ids stay, links are
    kept in their order and the added ones point into [ns]. *)
Definition grown (ns : list NodePtr) (w w' : @World W) : Prop :=
  ∀ p,
    match mem w !! p with
    | Some n =>
        ∃ n', mem w' !! p = Some n' ∧ id n' = id n
              ∧ links n `sublist_of` links n'
              ∧ ∀ l, l ∈ links n' → l ∈ links n ∨ dest l ∈ ns
    | None => mem w' !! p = None
    end.

End builder_statements.

(** ** Hierarchies: what lies below a cluster *)

(** The items below the cluster [m_cls[c]]: its descendants, their
    descendants, and so on. *)
Inductive below (h : Hierarchy) (c : nat) : ItemPtr → Prop :=
| below_des (y : ItemPtr) : y ∈ des_of h c → below h c y
| below_step (d : nat) (y : ItemPtr) :
    below h c (ClusterItem d) → y ∈ des_of h d → below h c y.





(** ** Link lines: vocabulary *)

(** Every character of a string passes a test. *)
Fixpoint str_all (P : ascii → bool) (s : string) : bool :=
  match s with
  | EmptyString => true
  | String c s' => P c && str_all P s'
  end.

Definition is_digit (c : ascii) : bool :=
  match digit_of c with Some _ => true | None => false end.

(** A space or a tab, the separators of [parseLinks]. *)
Definition is_blank (c : ascii) : bool := char_in spaces c.

(** The number that a string of digits writes. *)
Definition digits_value (s : string) : Z := (read_digits s 0 0).1.

(** A string of [n] digits at most, not empty. *)
Definition digits_upto (n : nat) (t : string) : Prop :=
  t ≠ EmptyString ∧ str_all is_digit t = true ∧ (String.length t ≤ n)%nat.

(** The destination tokens of a link line, each after its blanks. *)
Fixpoint join_tokens (toks : list (string * string)) : string :=
  match toks with
  | [] => EmptyString
  | (ws, t) :: rest => ws +:+ t +:+ join_tokens rest
  end.

(** Blanks before a token; a token that is not the first needs one. *)
Fixpoint tokens_ok (first : bool) (toks : list (string * string)) : Prop :=
  match toks with
  | [] => True
  | (ws, t) :: rest =>
      str_all is_blank ws = true ∧ (first = false → ws ≠ EmptyString)
      ∧ digits_upto 8 t ∧ tokens_ok false rest
  end.

Section link_statements.
Context {W : Type} `{WeightOps W}.

(** The link that a token without a weight gives: [InpLink(did)]. *)
Definition plain_link (WEIGHTED : bool) (t : string) : @InpLink W :=
  if WEIGHTED then InpWeighted (to_Id (digits_value t)) (w_of_int 1)
  else InpSimple (to_Id (digits_value t)).

End link_statements.

(** Where [read_digits] stops: at the end or at a character that is no
    digit. *)
Definition no_digit_ahead (s : string) : Prop :=
  match s with
  | EmptyString => True
  | String c _ => is_digit c = false
  end.

(** What follows a token: the end of the line or a blank. *)
Definition blank_ahead (s : string) : Prop :=
  match s with
  | EmptyString => True
  | String c _ => is_blank c = true
  end.

(** ** Arguments: vocabulary *)

(** The first character of an option tells what it is. *)
Definition option_kind (k : ascii) (opt : string) : bool :=
  bool_decide (str_at opt 0 = k).

Definition known_option (opt : string) : bool :=
  option_kind "o" opt || option_kind "c" opt || option_kind "f" opt
  || option_kind "r" opt || option_kind "m" opt.

(** ** Lines of a file: vocabulary *)

(** The first character of a line that is no blank, when there is one. *)
Fixpoint first_char (line : string) : option ascii :=
  match line with
  | EmptyString => None
  | String c rest => if is_blank c then first_char rest else Some c
  end.

(** A blank line or a comment line. *)
Definition comment_line (line : string) : bool :=
  match first_char line with
  | None => true
  | Some c => bool_decide (c = "#"%char)
  end.

(** A section header: the first character after the blanks is [/]. *)
Definition header_line (line : string) : bool :=
  match first_char line with
  | None => false
  | Some c => bool_decide (c = "/"%char)
  end.

(** The sections in which a header with the (lowercase) title is accepted,
    and the error otherwise. *)
Definition section_of (title : string) : option FileSection :=
  if bool_decide (title = "graph") then Some GRAPH
  else if bool_decide (title = "nodes") then Some NODES
  else if bool_decide (title = "edges") then Some EDGES
  else if bool_decide (title = "arcs") then Some ARCS
  else None.

(** No sign of a comment. *)
Definition not_hash (c : ascii) : bool := negb (bool_decide (c = "#"%char)).

(** The ids of a list in decimal, with the delimiter between them. *)
Fixpoint ids_joined (delim : ascii) (ids : list Id) : string :=
  match ids with
  | [] => EmptyString
  | [i] => to_string i
  | i :: rest => to_string i +:+ String delim (ids_joined delim rest)
  end.

(** ** The graph that the reader hands to the clustering *)

Section handover_statements.
Context {W : Type} `{WeightOps W}.

(** What the clustering may rely on: the graph is well formed, and its
    links are symmetric when [directed()] is false. *)
Definition graph_ok (g : Graph) (w : @World W) : Prop :=
  Graph_wf g w ∧ (directed g = false → links_symmetric (nodes g) w).

(** The same for the graph of a client, when it has one. *)
Definition client_ok (c : Client) (w : @World W) : Prop :=
  match m_graphPtr c with
  | Some g => graph_ok g w
  | None => True
  end.

End handover_statements.

(** ** Inputs of the examples *)

(** Two nodes 10 and 11 at the addresses 0 and 1, each with one link to
    the other. *)
Definition two_nodes : @World Qc :=
  {| mem := {[ 0%nat := {| id := 10; links := [WeightedLink 1%nat (Q2Qc 1)];
                           m_sweight := Q2Qc 0 |};
               1%nat := {| id := 11; links := [WeightedLink 0%nat (Q2Qc 1)];
                           m_sweight := Q2Qc 0 |} ]};
     rng := λ _, 3%nat |}.

(** The same two nodes in an unweighted graph with [float] self weights. *)
Definition two_nodes_binary32 : @World spec_float :=
  {| mem := {[ 0%nat := {| id := 10; links := [SimpleLink 1%nat];
                           m_sweight := S754_zero false |};
               1%nat := {| id := 11; links := [SimpleLink 0%nat];
                           m_sweight := S754_zero false |} ]};
     rng := λ _, 3%nat |}.

(** A [stof] for the lines of unweighted graphs, which never call it. *)
Definition no_stof : string → Outcome (Qc * nat) :=
  λ _, Thrown (invalid_argument "stof").

(** *** The hierarchy of the "basic 3x overlapping" scenario

    Node 2 belongs to three clusters, one with each of the nodes 0, 1, 3. *)
Definition overlap3 : Hierarchy :=
  {| m_nodes := [ {| nid := 0; nowners := [0%nat] |};
                  {| nid := 1; nowners := [1%nat] |};
                  {| nid := 2; nowners := [0; 1; 2]%nat |};
                  {| nid := 3; nowners := [2%nat] |} ];
     m_cls := [ {| cid := 0; cowners := []; des := [NodeItem 2; NodeItem 0] |};
                {| cid := 1; cowners := []; des := [NodeItem 2; NodeItem 1] |};
                {| cid := 2; cowners := []; des := [NodeItem 2; NodeItem 3] |} ];
     m_root := [0; 1; 2]%nat |}.

Definition overlap3_rank (p : ItemPtr) : nat :=
  match p with NodeItem _ => 0 | ClusterItem _ => 1 end.

(** The graph of the two nodes 10 and 11. *)
Definition two_nodes_graph : Graph :=
  {| nodes := [0%nat; 1%nat]; m_idNodes := {[ 10 := 0%nat; 11 := 1%nat ]};
     m_finalized := false; m_directed := false; m_shuffle := false |}.

(** A client as its constructor leaves it, with the margin as a rational. *)
Definition fresh_client : Client :=
  {| m_reorder := false; m_nodesNum := 0; m_nodesStartId := ID_NONE; m_graphPtr := None |}.

Definition default_params : @ClientParams Qc :=
  {| m_outfmpt := "t"; m_extoutp := 0; m_validate := true; m_fast := false;
     m_modProfitMarg := Q2Qc (-0.999); m_inpfile := EmptyString |}.

(** The reader at the start of a file. *)
Definition reader_start : Reader :=
  {| weighted := true; sect := NONE; client := fresh_client |}.

(** A [processNodes] that does nothing. *)
Definition no_processNodes : bool → list NodePtr → bool → @ClientParams Qc → @M Qc unit :=
  λ _ _ _ _, mret ().

(** An empty heap. *)
Definition no_nodes : @World Qc := {| mem := ∅; rng := λ _, 0%nat |}.

(** * Properties *)

(** ** Weights *)

#[global] Instance Qc_WeightLaws : WeightLaws Qc.
Proof. intros x _. apply Qcmult_1_r. Qed.

(** A multiplication of a [float] by 1.0 is exact. *)
#[global] Instance binary32_WeightLaws : WeightLaws spec_float.
Proof.
  intros x Hvalid. unfold w_valid, binary32_WeightValid in Hvalid.
  change (wmul x (w_of_int 1)) with (SFmul 24 128 x (S754_finite false 8388608 (-23))).
  destruct x as [s|s| |s m e]; simpl.
  - by rewrite xorb_false_r.
  - by rewrite xorb_false_r.
  - done.
  - rewrite xorb_false_r. simpl in Hvalid. unfold bounded, canonical_mantissa in Hvalid.
    apply andb_true_iff in Hvalid as [Hcanon Hle]. apply Z.eqb_eq in Hcanon.
    rewrite Pos.mul_comm.
    change (8388608 * m)%positive
      with (m~0~0~0~0~0~0~0~0~0~0~0~0~0~0~0~0~0~0~0~0~0~0~0)%positive.
    unfold binary_round_aux, shr_fexp.
    assert (Hdig : Zdigits2 (Z.pos m~0~0~0~0~0~0~0~0~0~0~0~0~0~0~0~0~0~0~0~0~0~0~0)
                   = Z.pos (digits2_pos m) + 23).
    { simpl. lia. }
    rewrite Hdig.
    replace (Z.pos (digits2_pos m) + 23 + (e + -23)) with (Z.pos (digits2_pos m) + e) by lia.
    rewrite Hcanon. replace (e - (e + -23)) with 23 by lia.
    cbn [shr shr_record_of_loc SpecFloat.iter_pos shr_1 shr_m shr_r shr_s
         loc_of_shr_record round_nearest_even orb].
    cbn [Zdigits2].
    replace (e + -23 + 23) with e by lia.
    rewrite Hcanon, Z.sub_diag. cbn [shr shr_record_of_loc shr_m].
    change (128 - 24) with 104 in *. by rewrite Hle.
Qed.

(** ** The graph builder *)

Section graph_facts.
Context {W : Type} `{WeightOps W}.

Implicit Types (w : @World W) (n : @Node W) (p nd dst src : NodePtr) (wgt : W).

Ltac run_M :=
  unfold mbind, mret, M_mbind, M_mret, M_bind, M_ret, deref, store, rand,
    undefined, throw in *; simpl in *.

Lemma emplace_at_length {A : Type} (x : A) (l : list A) :
  emplace_at (length l) x l = l ++ [x].
Proof.
  unfold emplace_at. by rewrite firstn_all, drop_all.
Qed.

Lemma arc_dest WEIGHTED d wgt : dest (arc WEIGHTED d wgt) = d.
Proof. by destruct WEIGHTED. Qed.


(** [addLink] returns when shuffling is off or the vector is not empty, and
    then it has put the link somewhere into the vector of [src] (at the
    back without shuffling) and touched nothing else. *)
Lemma addLink_Done WEIGHTED src dst wgt shuffle w n :
  mem w !! src = Some n →
  shuffle = false ∨ links n ≠ [] →
  ∃ i r,
    addLink (negb WEIGHTED) src dst wgt shuffle w
      = Done ((), {| mem := <[src := set_links (emplace_at i (arc WEIGHTED dst wgt) (links n)) n]> (mem w);
                     rng := r |})
    ∧ (i ≤ length (links n))%nat
    ∧ (shuffle = false → i = length (links n) ∧ r = rng w).
Proof.
  intros Hsrc Hok. unfold addLink. run_M. rewrite Hsrc.
  destruct shuffle; simpl.
  - destruct Hok as [|Hne]; [done|].
    destruct (links n) as [|l ls] eqn:Hl; [done|]. simpl.
    eexists _, _. split; [reflexivity|]. split; [|done].
    pose proof (Nat.mod_upper_bound (rng w 0%nat) (S (length ls))). simpl. lia.
  - exists (length (links n)), (rng w). rewrite emplace_at_length.
    split; [by destruct w|]. split; [lia|done].
Qed.

(** With shuffling on, the first link of a node makes [addLink] compute
    [rand() % 0]. *)
Lemma addLink_first_shuffled SIMPLE src dst wgt w n :
  mem w !! src = Some n → links n = [] →
  addLink SIMPLE src dst wgt true w = Undefined "rand() % 0".
Proof.
  intros Hsrc Hl. unfold addLink. run_M. by rewrite Hsrc, Hl.
Qed.


(** C4. A self-referencing link of weight [w]: the self weight of the node
    becomes [w * 2] in the undirected unweighted case and [w] in every other
    case; the link vectors, the id and every other node stay as they are and
    no random number is drawn.  The call returns when the assertion on the
    old self weight holds or is compiled out.  The weight is well formed
    and the weight type is one where a multiplication by 1 is exact, such
    as [float]. *)
Theorem acsAddNodeLink_self `{!WeightValid W, !WeightLaws W}
    (NDEBUG DIRECTED WEIGHTED shuffle : bool) nd wgt w (ndv : @Node W) :
  w_valid wgt →
  mem w !! nd = Some ndv →
  NDEBUG = true ∨ w_nonzero (m_sweight ndv) = false →
  ∃ ndv',
    acsAddNodeLink NDEBUG DIRECTED WEIGHTED nd nd wgt shuffle w
      = Done ((), {| mem := <[nd := ndv']> (mem w); rng := rng w |})
    ∧ m_sweight ndv' = (if negb WEIGHTED && negb DIRECTED
                        then wmul wgt (w_of_int 2) else wgt)
    ∧ links ndv' = links ndv
    ∧ id ndv' = id ndv.
Proof.
  intros Hwgt Hnd Hassert.
  exists (set_sweight (wmul wgt (w_of_int (1 + Z.b2z (negb WEIGHTED && negb DIRECTED)))) ndv).
  split.
  - unfold acsAddNodeLink. rewrite decide_True by done.
    unfold assert, selfWeight, selfWeight_set.
    destruct NDEBUG; run_M; rewrite Hnd; simpl.
    + by destruct w.
    + destruct Hassert as [|Hz]; [done|]. rewrite Hz. simpl. rewrite Hnd. by destruct w.
  - simpl. split; [|done].
    destruct (negb WEIGHTED && negb DIRECTED); simpl; [done|by apply wmul_one].
Qed.

(** Without shuffling a call of [acsAddNodeLink] on valid pointers returns
    and keeps the set of allocated nodes, unless it trips the assertion. *)
Lemma acsAddNodeLink_returns (NDEBUG DIRECTED WEIGHTED : bool) nd dst wgt w :
  is_Some (mem w !! nd) → is_Some (mem w !! dst) →
  NDEBUG = true ∨ dst ≠ nd →
  ∃ w', acsAddNodeLink NDEBUG DIRECTED WEIGHTED nd dst wgt false w = Done ((), w')
        ∧ ∀ p, is_Some (mem w' !! p) ↔ is_Some (mem w !! p).
Proof.
  intros [ndv Hnd] [dstv Hdst] Hself. unfold acsAddNodeLink.
  assert (Hdom : ∀ q (v v' : @Node W) (m : gmap NodePtr Node) p,
            m !! q = Some v → is_Some (<[q := v']> m !! p) ↔ is_Some (m !! p)).
  { intros q v v' m p Hq. destruct (decide (q = p)) as [->|].
    - rewrite lookup_insert_eq, Hq. split; eauto.
    - by rewrite lookup_insert_ne. }
  destruct (decide (dst = nd)) as [->|Hne].
  - destruct Hself as [->|]; [|done].
    unfold assert, selfWeight_set. run_M. rewrite Hnd. simpl.
    eexists. split; [reflexivity|]. simpl. intros p. by eapply Hdom.
  - destruct DIRECTED; simpl.
    + destruct (addLink_Done WEIGHTED nd dst wgt false w ndv Hnd) as (i & r & Hrun & _);
        [by left|].
      rewrite Hrun. eexists. split; [reflexivity|]. simpl. intros p. by eapply Hdom.
    + destruct (addLink_Done WEIGHTED dst nd (wdiv wgt (w_of_int 2)) false w dstv Hdst)
        as (j & r1 & Hrun1 & _); [by left|].
      run_M. rewrite Hrun1.
      match goal with |- context [addLink _ nd dst _ false ?w1] =>
        destruct (addLink_Done WEIGHTED nd dst (wdiv wgt (w_of_int 2)) false w1 ndv)
          as (i & r2 & Hrun2 & _) end.
      { simpl. by rewrite lookup_insert_ne. }
      { by left. }
      rewrite Hrun2. eexists. split; [reflexivity|]. simpl. intros p.
      rewrite Hdom; [by eapply Hdom|]. by rewrite lookup_insert_ne.
Qed.






(** In a build with [NDEBUG], [acsAddNodes] returns for every list of ids,
    duplicates included, and allocates one node per id. *)
Lemma acsAddNodes_release (ns : list NodePtr) (idNodes : gmap Id NodePtr)
    (ids : list Id) (shuffle : bool) w :
  ∃ ns' idNodes' w',
    acsAddNodes true ns idNodes ids shuffle w = Done ((ns', idNodes'), w')
    ∧ length ns' = (length ns + length ids)%nat.
Proof.
  revert ns idNodes w. induction ids as [|i ids IH]; intros ns idNodes w.
  - simpl. eexists _, _, _. split; [reflexivity|]. simpl. lia.
  - simpl. unfold emplace_node, alloc_node, assert. run_M.
    destruct shuffle; simpl.
    + match goal with |- context [negb ?c] => destruct c end; simpl;
        match goal with |- context [acsAddNodes true ?a ?b ids true ?c] =>
          destruct (IH a b c) as (ns' & idn' & w' & -> & Hlen) end;
        eexists _, _, _; (split; [reflexivity|]); simpl in Hlen;
        rewrite ?length_app in Hlen; simpl in Hlen |- *; lia.
    + match goal with |- context [acsAddNodes true ?a ?b ids false ?c] =>
        destruct (IH a b c) as (ns' & idn' & w' & -> & Hlen) end.
      eexists _, _, _. split; [reflexivity|].
      rewrite length_app in Hlen. simpl in Hlen |- *. lia.
Qed.

(** *** The pointers of the id map stay valid *)

Lemma insert_is_Some_same (m : gmap NodePtr (@Node W)) (q : NodePtr) (v v' : @Node W)
    (p : NodePtr) :
  m !! q = Some v → is_Some (<[q := v']> m !! p) ↔ is_Some (m !! p).
Proof.
  intros Hq. destruct (decide (q = p)) as [->|].
  - rewrite lookup_insert_eq, Hq. split; eauto.
  - by rewrite lookup_insert_ne.
Qed.

Lemma addLink_allocated (SIMPLE shuffle : bool) src dst wgt w w' :
  addLink SIMPLE src dst wgt shuffle w = Done ((), w') →
  ∀ p, is_Some (mem w' !! p) ↔ is_Some (mem w !! p).
Proof.
  unfold addLink. run_M. destruct (mem w !! src) as [n|] eqn:Hsrc; [|done]. simpl.
  destruct shuffle; simpl.
  - destruct (length (links n)); simpl; [done|]. intros [= <-] p. simpl.
    by eapply insert_is_Some_same.
  - intros [= <-] p. simpl. by eapply insert_is_Some_same.
Qed.

Lemma acsAddNodeLink_allocated (NDEBUG DIRECTED WEIGHTED shuffle : bool)
    nd dst wgt w w' :
  acsAddNodeLink NDEBUG DIRECTED WEIGHTED nd dst wgt shuffle w = Done ((), w') →
  ∀ p, is_Some (mem w' !! p) ↔ is_Some (mem w !! p).
Proof.
  unfold acsAddNodeLink. destruct (decide (dst = nd)) as [->|Hne].
  - unfold assert, selfWeight, selfWeight_set. destruct NDEBUG; run_M.
    + destruct (mem w !! nd) as [n|] eqn:Hnd; [|done]. simpl.
      intros [= <-] p. simpl. by eapply insert_is_Some_same.
    + destruct (mem w !! nd) as [n|] eqn:Hnd; [|done]. simpl.
      destruct (negb (w_nonzero (m_sweight n))); simpl; [|done].
      rewrite Hnd. simpl. intros [= <-] p. simpl. by eapply insert_is_Some_same.
  - destruct DIRECTED; simpl; [apply addLink_allocated|].
    run_M.
    destruct (addLink (negb WEIGHTED) dst nd _ shuffle w) as [[[] w1]| | |] eqn:H1;
      try done.
    intros H2 p. rewrite (addLink_allocated _ _ _ _ _ _ _ H2).
    by apply (addLink_allocated _ _ _ _ _ _ _ H1).
Qed.

Lemma emplace_node_pointers_valid (ns ns' : list NodePtr) (i : Id) (shuffle : bool)
    (p : NodePtr) (idNodes : gmap Id NodePtr) w w' :
  pointers_valid idNodes w →
  emplace_node ns i shuffle w = Done ((ns', p), w') →
  pointers_valid (map_emplace i p idNodes).1 w'.
Proof.
  intros Hval. unfold emplace_node, alloc_node. run_M.
  assert (Hgen : ∀ w0 : @World W, mem w0 = mem w →
            pointers_valid (map_emplace i (fresh (dom (mem w0))) idNodes).1
              {| mem := <[fresh (dom (mem w0)) := Node_ctor i]> (mem w0); rng := rng w0 |}).
  { intros w0 Hw0 j q. unfold map_emplace. simpl.
    destruct (idNodes !! i) eqn:Hi; simpl.
    - intros Hj. destruct (decide (fresh (dom (mem w0)) = q)) as [->|].
      + rewrite lookup_insert_eq. eauto.
      + rewrite lookup_insert_ne by done. rewrite Hw0. by eapply Hval.
    - destruct (decide (i = j)) as [->|].
      + rewrite lookup_insert_eq. intros [= <-]. rewrite lookup_insert_eq. eauto.
      + rewrite lookup_insert_ne by done. intros Hj.
        destruct (decide (fresh (dom (mem w0)) = q)) as [->|].
        * rewrite lookup_insert_eq. eauto.
        * rewrite lookup_insert_ne by done. rewrite Hw0. by eapply Hval. }
  destruct shuffle; simpl; intros [= <- <- <-]; by apply Hgen.
Qed.

Lemma acsAddNodes_pointers_valid (NDEBUG shuffle : bool) (ids : list Id)
    (ns ns' : list NodePtr) (idNodes idNodes' : gmap Id NodePtr) w w' :
  pointers_valid idNodes w →
  acsAddNodes NDEBUG ns idNodes ids shuffle w = Done ((ns', idNodes'), w') →
  pointers_valid idNodes' w'.
Proof.
  revert ns idNodes w. induction ids as [|i ids IH]; intros ns idNodes w Hval.
  - simpl. run_M. by intros [= <- <- <-].
  - cbn [acsAddNodes]. unfold mbind, M_mbind, M_bind at 1.
    destruct (emplace_node ns i shuffle w) as [[[ns1 p] w1]| | |] eqn:Hem; try done.
    pose proof (emplace_node_pointers_valid _ _ _ _ _ _ _ _ Hval Hem) as Hval1.
    unfold mbind, M_mbind, M_bind at 1. unfold assert.
    destruct NDEBUG; run_M.
    + by apply IH.
    + destruct ((map_emplace i p idNodes).2); simpl; [|done]. by apply IH.
Qed.

(** A graph from the constructor has valid pointers, and [addNodes] keeps
    them valid. *)
Lemma Graph_ctor_pointers_valid (nodesNum : Id) (shuffle : bool) (g : Graph) w w' :
  Graph_ctor nodesNum shuffle w = Done (g, w') → pointers_valid (m_idNodes g) w'.
Proof.
  unfold Graph_ctor, srand_time. run_M. intros [= <- <-] i p. simpl.
  by rewrite lookup_empty.
Qed.

Lemma addNodes_pointers_valid (NDEBUG : bool) (ids : list Id) (g g' : Graph) w w' :
  pointers_valid (m_idNodes g) w →
  addNodes NDEBUG ids g w = Done (g', w') →
  pointers_valid (m_idNodes g') w'.
Proof.
  intros Hval. unfold addNodes, validateExtension.
  destruct (m_finalized g); run_M; [done|].
  destruct (acsAddNodes NDEBUG (nodes g) (m_idNodes g) ids (m_shuffle g) w)
    as [[[ns ids'] w1]| | |] eqn:Hadd; try done.
  intros [= <- <-]. simpl. by eapply acsAddNodes_pointers_valid.
Qed.

(** *** The calls of [acsAddNodeLink] in [acsAddNodeLinks] *)

Lemma acsAddNodeLinks_cons (NDEBUG DIRECTED WEIGHTED shuffle : bool)
    (idNodes : gmap Id NodePtr) (sid : Id) (ln : @InpLink W) (lns : list (@InpLink W))
    nd dst w :
  idNodes !! sid = Some nd →
  idNodes !! inp_id ln = Some dst →
  acsAddNodeLinks NDEBUG DIRECTED WEIGHTED idNodes sid (ln :: lns) shuffle w
  = (acsAddNodeLink NDEBUG DIRECTED WEIGHTED nd dst (inp_weight ln) shuffle;;
     acsAddNodeLinks_loop NDEBUG DIRECTED WEIGHTED idNodes sid nd lns shuffle) w.
Proof.
  intros Hsrc Hdst. unfold acsAddNodeLinks. cbn [acsAddNodeLinks_loop].
  unfold catch_unexistent, map_at. run_M. by rewrite Hsrc, Hdst.
Qed.

(** *** Defects of the builder *)

(** Without shuffling [emplace_node] appends the new node and draws no
    random number. *)
Lemma emplace_node_back (ns : list NodePtr) (i : Id) (w : @World W) :
  emplace_node ns i false w
  = Done ((ns ++ [fresh (dom (mem w))], fresh (dom (mem w))),
          {| mem := <[fresh (dom (mem w)) := Node_ctor i]> (mem w); rng := rng w |}).
Proof. reflexivity. Qed.

(** C5. [addNodes] with an id that is given twice, on a new graph.  In a
    build with [NDEBUG] the call returns: the node list holds two nodes with
    the id [i] and the id map points to the first.  With the assertions
    compiled in, the second node is created and [assert] stops the program.
    No exception is thrown in either build. *)
Theorem addNodes_duplicate_id (i : Id) (r : nat → nat) :
  (g ← Graph_ctor 0 false; addNodes true [i; i] g) {| mem := ∅; rng := r |}
  = Done ({| nodes := [0; 1]%nat; m_idNodes := {[ i := 0%nat ]}; m_finalized := false;
             m_directed := false; m_shuffle := false |},
          {| mem := <[1%nat := Node_ctor i]> (<[0%nat := Node_ctor i]> ∅); rng := r |})
  ∧ (g ← Graph_ctor 0 false; addNodes false [i; i] g) {| mem := (∅ : gmap NodePtr (@Node W)); rng := r |}
    = AssertFailed "acsAddNodes(), input node is duplicated".
Proof.
  assert (Hrun : ∀ NDEBUG,
            (g ← Graph_ctor 0 false; addNodes NDEBUG [i; i] g)
              {| mem := (∅ : gmap NodePtr (@Node W)); rng := r |}
            = (assert NDEBUG (mret false) "acsAddNodes(), input node is duplicated";;
               mret {| nodes := [0; 1]%nat; m_idNodes := {[ i := 0%nat ]};
                       m_finalized := false; m_directed := false; m_shuffle := false |})
                {| mem := <[1%nat := Node_ctor i]> (<[0%nat := Node_ctor i]> ∅); rng := r |}).
  { intros NDEBUG.
    assert (E1 : map_emplace i 0%nat ∅ = ({[ i := 0%nat ]}, true)).
    { unfold map_emplace. by rewrite lookup_empty, insert_empty. }
    assert (E2 : ∀ p, map_emplace i p {[ i := 0%nat ]} = ({[ i := 0%nat ]}, false)).
    { intros p. unfold map_emplace. by rewrite lookup_singleton_eq. }
    unfold mbind at 1. unfold M_mbind, M_bind.
    change (Graph_ctor 0 false {| mem := ∅; rng := r |})
      with (Done ({| nodes := []; m_idNodes := ∅; m_finalized := false;
                     m_directed := false; m_shuffle := false |},
                   {| mem := (∅ : gmap NodePtr (@Node W)); rng := r |})).
    cbv beta iota. unfold addNodes, validateExtension.
    cbn [m_finalized nodes m_idNodes m_shuffle acsAddNodes].
    unfold mbind, M_mbind, M_bind, mret, M_mret, M_ret.
    rewrite emplace_node_back. cbv beta iota. cbn [mem rng].
    change (fresh (dom (∅ : gmap NodePtr (@Node W)))) with 0%nat.
    rewrite E1. cbn [fst snd].
    replace (assert NDEBUG (λ w : @World W, Done (true, w))
               "acsAddNodes(), input node is duplicated"
               {| mem := <[0%nat:=Node_ctor i]> ∅; rng := r |})
      with (Done ((), {| mem := <[0%nat:=Node_ctor i]> (∅ : gmap NodePtr (@Node W)); rng := r |}))
      by (unfold assert; by destruct NDEBUG).
    cbv beta iota. rewrite emplace_node_back. cbv beta iota. cbn [mem rng].
    change (fresh (dom (<[0%nat := Node_ctor i]> (∅ : gmap NodePtr (@Node W))))) with 1%nat.
    rewrite E2. cbn [fst snd app].
    by destruct (assert NDEBUG _ _ _) as [[[] ?]| | |]. }
  split; rewrite Hrun; reflexivity.
Qed.

(** [emplace_node] allocates the node at the next free address, whatever
    the oracle says. *)
Lemma emplace_node_alloc (ns : list NodePtr) (i : Id) (shuffle : bool) (w : @World W) :
  ∃ ns' r',
    emplace_node ns i shuffle w
    = Done ((ns', fresh (dom (mem w))),
            {| mem := <[fresh (dom (mem w)) := Node_ctor i]> (mem w); rng := r' |}).
Proof.
  unfold emplace_node, alloc_node. run_M. destruct shuffle; simpl; by eexists _, _.
Qed.

(** C10. With shuffling on, the first link of a node makes [addLink]
    evaluate [rand() % 0].  A builder that was reinitialised with the flag
    on and given the nodes 0 and 1 runs into it with the link 0 → 1,
    whatever the values of [rand()], the weight and the kinds of the graph
    and of the link are. *)
Theorem addLink_modulo_by_zero (NDEBUG WEIGHTED DIRECTED : bool) (r : nat → nat) (wgt : W) :
  (g ← Graph_ctor 0 false; g ← reinit 0 true g; g ← addNodes NDEBUG [0; 1] g;
   addNodeLinks NDEBUG WEIGHTED DIRECTED 0 [InpWeighted 1 wgt] g)
    {| mem := ∅; rng := r |}
  = Undefined "rand() % 0".
Proof.
  unfold mbind at 1 2 3. unfold M_mbind, M_bind.
  change (Graph_ctor 0 false {| mem := ∅; rng := r |})
    with (Done ({| nodes := []; m_idNodes := ∅; m_finalized := false;
                   m_directed := false; m_shuffle := false |},
                 {| mem := (∅ : gmap NodePtr (@Node W)); rng := r |})).
  cbv beta iota.
  change (reinit 0 true _ {| mem := ∅; rng := r |})
    with (Done ({| nodes := []; m_idNodes := ∅; m_finalized := false;
                   m_directed := false; m_shuffle := true |},
                 {| mem := (∅ : gmap NodePtr (@Node W)); rng := r |})).
  cbv beta iota.
  unfold addNodes, validateExtension. cbn [m_finalized nodes m_idNodes m_shuffle].
  unfold mbind at 1 2. unfold M_mbind, M_bind, mret at 1, M_mret, M_ret.
  cbn [acsAddNodes].
  unfold mbind at 1. unfold M_mbind, M_bind.
  destruct (emplace_node_alloc [] 0 true {| mem := ∅; rng := r |}) as (ns1 & r1 & ->).
  cbv beta iota.
  change (fresh (dom (mem {| mem := (∅ : gmap NodePtr (@Node W)); rng := r |}))) with 0%nat.
  unfold mbind at 1. unfold M_mbind, M_bind.
  assert (Hassert : ∀ (c : bool) msg (w : @World W), c = true →
            assert NDEBUG (mret c) msg w = Done ((), w)).
  { intros c msg w ->. unfold assert. by destruct NDEBUG. }
  rewrite Hassert by reflexivity. cbv beta iota.
  unfold mbind at 1. unfold M_mbind, M_bind.
  match goal with |- context [emplace_node ns1 1 true ?w1] =>
    destruct (emplace_node_alloc ns1 1 true w1) as (ns2 & r2 & ->) end.
  cbv beta iota. cbn [mem].
  change (fresh (dom (<[0%nat := Node_ctor 0]> (∅ : gmap NodePtr (@Node W))))) with 1%nat.
  unfold mbind at 1. unfold M_mbind, M_bind.
  rewrite Hassert by reflexivity. cbv beta iota.
  unfold mret at 1, M_mret, M_ret. cbv beta iota.
  unfold mret at 1, M_mret, M_ret. cbv beta iota.
  unfold addNodeLinks, validateExtension, with_nodes, with_directed.
  cbn [m_finalized nodes m_idNodes m_shuffle m_directed].
  unfold mbind at 1 2. unfold M_mbind, M_bind, mret at 1, M_mret, M_ret.
  unfold acsAddNodeLinks. cbn [acsAddNodeLinks_loop].
  unfold catch_unexistent, map_at, mbind, M_mbind, M_bind, mret, M_mret, M_ret.
  change (((map_emplace 1 1%nat (map_emplace 0 0%nat ∅).1).1 : gmap Id NodePtr) !! 0)
    with (Some 0%nat).
  cbv beta iota.
  change (((map_emplace 1 1%nat (map_emplace 0 0%nat ∅).1).1 : gmap Id NodePtr)
            !! inp_id (InpWeighted 1 wgt)) with (Some 1%nat).
  cbv beta iota.
  unfold acsAddNodeLink. rewrite decide_False by lia.
  destruct DIRECTED; cbn [negb].
  - rewrite (addLink_first_shuffled _ _ _ _ _ (Node_ctor 0)); [done| |done].
    cbn [mem]. by rewrite lookup_insert_ne, lookup_insert_eq.
  - unfold mbind, M_mbind, M_bind.
    rewrite (addLink_first_shuffled _ _ _ _ _ (Node_ctor 1)); [done| |done].
    cbn [mem]. by rewrite lookup_insert_eq.
Qed.

End graph_facts.

(** *** The builder on concrete inputs *)


Lemma acsAddNodeLink_self_witness :
  ∃ ndv',
    acsAddNodeLink false false false 0%nat 0%nat (S754_finite false 8388608 (-23)) false
      two_nodes_binary32
    = Done ((), {| mem := <[0%nat := ndv']> (mem two_nodes_binary32);
                   rng := rng two_nodes_binary32 |})
    ∧ m_sweight ndv' = S754_finite false 8388608 (-22)
    ∧ links ndv' = [SimpleLink 1%nat]
    ∧ id ndv' = 10.
Proof.
  destruct (acsAddNodeLink_self false false false false 0%nat
              (S754_finite false 8388608 (-23)) two_nodes_binary32
              {| id := 10; links := [SimpleLink 1%nat]; m_sweight := S754_zero false |})
    as (ndv' & Hrun & Hsw & Hlinks & Hid).
  - reflexivity.
  - reflexivity.
  - right. reflexivity.
  - exists ndv'. split; [exact Hrun|]. split; [|split; [exact Hlinks|exact Hid]].
    rewrite Hsw. reflexivity.
Defined.


(** The graph of the test case in client/main.cpp, with [float] weights:
    the edges of node 2 become arcs of weight 0.5 in both directions, the
    self-referencing arcs set the self weights 6, and the graph counts as
    directed. *)
Example testcase_graph_binary32 :
  ∃ g w,
    @testcase_graph spec_float _ false {| mem := ∅; rng := λ _, 0%nat |} = Done (g, w)
    ∧ directed g = true
    ∧ mem w !! 2%nat
      = Some {| id := 2;
                links := [WeightedLink 0%nat (S754_finite false 8388608 (-24));
                          WeightedLink 1%nat (S754_finite false 8388608 (-24));
                          WeightedLink 3%nat (S754_finite false 8388608 (-24))];
                m_sweight := S754_zero false |}
    ∧ mem w !! 0%nat
      = Some {| id := 0;
                links := [WeightedLink 2%nat (S754_finite false 8388608 (-24))];
                m_sweight := S754_finite false 12582912 (-21) |}.
Proof. eexists _, _. split; [vm_compute; reflexivity|]. by vm_compute. Qed.

(** C8. The constructor of [Graph] does not keep its [shuffle] argument:
    [m_shuffle] is [false] whatever is passed.  With an oracle whose every
    value is even (so that a shuffling builder puts every node to the
    front), a graph constructed with the flag on appends the nodes 1, 2, 3
    at the back, as it does with every oracle, and draws no random number;
    after [reinit] with the flag on the same call puts them to the front. *)
Theorem Graph_ctor_drops_shuffle :
  (∀ (nodesNum : Id) (shuffle : bool) (w : @World spec_float),
     Graph_ctor nodesNum shuffle w
     = Done ({| nodes := []; m_idNodes := ∅; m_finalized := false;
                m_directed := false; m_shuffle := false |}, w))
  ∧ (∀ r : nat → nat,
       ∃ g w, (g ← @Graph_ctor spec_float 0 true; addNodes true [1; 2; 3] g)
                {| mem := ∅; rng := r |} = Done (g, w)
              ∧ node_ids g w = [Some 1; Some 2; Some 3]
              ∧ rng w = r)
  ∧ (∃ g w, (g ← @Graph_ctor spec_float 0 true; g ← reinit 0 true g;
             addNodes true [1; 2; 3] g)
              {| mem := ∅; rng := λ _, 0%nat |} = Done (g, w)
            ∧ node_ids g w = [Some 3; Some 2; Some 1]).
Proof.
  split; [by intros ? ? []|]. split.
  - intros r. eexists _, _. split; [vm_compute; reflexivity|]. split; reflexivity.
  - eexists _, _. split; [vm_compute; reflexivity|reflexivity].
Qed.

(** ** Cluster ids *)







(** ** Link lines of an unweighted graph *)

Section client_facts.
Context {W : Type} `{WeightOps W}.
Variable stof : string → Outcome (W * nat).

(** C7, as the code has it.  In [parseLinks<false>] a link token [dst:w] is
    accepted: when the characters read by [stoul] are followed by [:], the
    round does not throw, it skips the rest of the token up to the next
    space (or the end of the line) and adds the link to [dst] without a
    weight. *)
Theorem parseLinks_step_unweighted_suffix (line : string) (pos p did offs : Z)
    (sub : string) (lnks : list (@InpLink W)) :
  find_first_not_of line spaces pos = p →
  substr line p SYM_DIGITS_MAX = Done sub →
  stoul sub = Done (did, offs) →
  str_at line (p + offs) = ":"%char →
  parseLinks_step stof false line pos lnks
  = Done (let next := find_first_of line spaces (p + offs) in
          if next =? npos then str_size line else next,
          lnks ++ [InpSimple (to_Id did)]).
Proof.
  intros Hp Hsub Hstoul Hcolon. unfold parseLinks_step.
  rewrite Hp, Hsub. simpl. rewrite Hstoul. simpl.
  rewrite Hcolon. rewrite bool_decide_eq_true_2 by done.
  simpl. by rewrite andb_false_r.
Qed.

(** *** The loop of [parseLinks] ends *)

Lemma str_drop_length (n : nat) (s : string) :
  String.length (str_drop n s) = (String.length s - n)%nat.
Proof.
  revert s. induction n as [|n IH]; intros s; simpl; [lia|].
  destruct s as [|c s]; simpl; [done|]. apply IH.
Qed.

Lemma find_if_lt (P : ascii → bool) (s : string) (i : nat) :
  find_if P s = Some i → (i < String.length s)%nat.
Proof.
  revert i. induction s as [|c s IH]; intros i Hi; simpl in Hi; [done|].
  destruct (P c); [inversion Hi; simpl; lia|].
  destruct (find_if P s) as [j|]; [|done]. inversion Hi. simpl.
  specialize (IH j eq_refl). lia.
Qed.

(** A search from [pos] finds nothing or a position from [pos] on. *)
Lemma find_if_from_range (P : ascii → bool) (s : string) (pos : Z) :
  0 ≤ pos →
  find_if_from P s pos = npos
  ∨ pos ≤ find_if_from P s pos < str_size s.
Proof.
  intros Hpos. unfold find_if_from. case_match; [by left|].
  destruct (find_if P (str_drop (Z.to_nat pos) s)) as [i|] eqn:Hi; [|by left].
  right. apply find_if_lt in Hi. rewrite str_drop_length in Hi.
  unfold str_size. lia.
Qed.

Lemma read_digits_count (s : string) (acc cnt : Z) :
  cnt ≤ (read_digits s acc cnt).2.
Proof.
  revert acc cnt. induction s as [|c s IH]; intros acc cnt; simpl; [lia|].
  destruct (digit_of c); simpl; [|lia].
  specialize (IH (10 * acc + z) (cnt + 1)). lia.
Qed.

(** [stoul] reads at least one character when it returns. *)
Lemma stoul_reads (s : string) (v offs : Z) : stoul s = Done (v, offs) → 1 ≤ offs.
Proof.
  unfold stoul. intros Hs.
  assert (Hgen : ∀ (neg : bool) (s2 : string) (signlen : Z), 0 ≤ signlen →
            (let '(v0, cnt) := read_digits s2 0 0 in
             if cnt =? 0 then Thrown (invalid_argument "stoul")
             else if ULONG_MAX <? v0 then Thrown (out_of_range "stoul")
             else Done (if neg then (- v0) mod 2 ^ 64 else v0,
                        Z.of_nat (count_spaces s) + signlen + cnt))
            = Done (v, offs) → 1 ≤ offs).
  { intros neg s2 signlen Hsign Hrun.
    pose proof (read_digits_count s2 0 0) as Hcnt.
    destruct (read_digits s2 0 0) as [v0 cnt]. simpl in Hcnt.
    destruct (cnt =? 0) eqn:Hz; [done|]. apply Z.eqb_neq in Hz.
    destruct (ULONG_MAX <? v0); [done|]. inversion Hrun. lia. }
  destruct (str_drop (count_spaces s) s) as [|c r].
  - apply (Hgen false EmptyString 0); [lia|exact Hs].
  - destruct (Ascii.eqb c "-"); [apply (Hgen true r 1); [lia|exact Hs]|].
    destruct (Ascii.eqb c "+"); [apply (Hgen false r 1); [lia|exact Hs]|].
    apply (Hgen false (String c r) 0); [lia|exact Hs].
Qed.

(** A round of the loop moves [pos] forward and keeps it within the line. *)
Lemma parseLinks_step_progress (WEIGHTED : bool) (line : string) (pos pos' : Z)
    (lnks lnks' : list (@InpLink W)) :
  str_size line < npos →
  0 ≤ pos < str_size line →
  parseLinks_step stof WEIGHTED line pos lnks = Done (pos', lnks') →
  pos < pos' ≤ str_size line.
Proof.
  intros Hsize Hpos. unfold parseLinks_step, substr.
  destruct (find_if_from_range (λ x, negb (char_in spaces x)) line pos) as [Hp|Hp];
    [lia| |]; unfold find_first_not_of.
  - rewrite Hp. replace (str_size line <? npos) with true by (symmetry; by apply Z.ltb_lt).
    done.
  - set (p := find_if_from (λ x, negb (char_in spaces x)) line pos) in *.
    replace (str_size line <? p) with false by (symmetry; apply Z.ltb_ge; lia).
    simpl. destruct (stoul _) as [[did offs]| | |] eqn:Hstoul; simpl; try done.
    apply stoul_reads in Hstoul.
    assert (Htail : ∀ (wgt : W) (wa : bool) (pos2 : Z), p + offs ≤ pos2 →
              (let offs0 := find_first_of line spaces pos2 in
               if negb (offs0 =? pos2) && negb (offs0 =? npos)
                  && (WEIGHTED || negb (bool_decide (str_at line pos2 = ":"%char)))
               then Thrown (invalid_format line pos2)
               else Done (if offs0 =? npos then str_size line else offs0,
                          if wa
                          then Operations_addLink (negb WEIGHTED) WEIGHTED lnks (to_Id did) wgt
                          else Operations_addLink true WEIGHTED lnks (to_Id did) wgt))
              = Done (pos', lnks') → pos < pos' ≤ str_size line).
    { intros wgt wa pos2 Hpos2 Hrun. simpl in Hrun.
      destruct (find_if_from_range (char_in spaces) line pos2) as [Ho|Ho]; [lia| |];
        unfold find_first_of in Hrun.
      - rewrite Ho in Hrun. rewrite Z.eqb_refl in Hrun. simpl in Hrun.
        rewrite andb_false_r in Hrun. simpl in Hrun. inversion Hrun. lia.
      - set (o := find_if_from (char_in spaces) line pos2) in *.
        destruct (negb (o =? pos2) && negb (o =? npos) && _); [done|].
        replace (o =? npos) with false in Hrun by (symmetry; apply Z.eqb_neq; lia).
        inversion Hrun. lia. }
    destruct (WEIGHTED && (p + offs <? str_size line)
              && bool_decide (str_at line (p + offs) = ":"%char)); simpl.
    + destruct (str_size line <? p + offs + 1); simpl; [done|].
      destruct (stof _) as [[w offs']| | |]; simpl; try done.
      apply (Htail w true (p + offs + 1 + Z.of_nat offs')). lia.
    + apply (Htail (w_of_int 0) false (p + offs)). lia.
Qed.

(** The bound on the rounds is never used up. *)
Lemma parseLinks_loop_terminates (WEIGHTED : bool) (line : string) (fuel : nat)
    (pos : Z) (lnks : list (@InpLink W)) :
  str_size line < npos →
  0 ≤ pos →
  str_size line - pos < Z.of_nat fuel →
  is_Some (parseLinks_loop stof fuel WEIGHTED line pos lnks).
Proof.
  intros Hsize. revert pos lnks. induction fuel as [|fuel IH]; intros pos lnks Hpos Hfuel.
  - simpl. replace (pos <? str_size line) with false by (symmetry; apply Z.ltb_ge; lia).
    by eexists.
  - cbn [parseLinks_loop]. destruct (pos <? str_size line) eqn:Hlt; simpl; [|by eexists].
    apply Z.ltb_lt in Hlt.
    destruct (parseLinks_step stof WEIGHTED line pos lnks) as [[pos' lnks']| | |] eqn:Hstep;
      try by eexists.
    apply parseLinks_step_progress in Hstep; [|done|lia].
    apply IH; lia.
Qed.

Lemma parseLinks_line_total (WEIGHTED : bool) (line : string) :
  str_size line < npos → is_Some (parseLinks_line stof WEIGHTED line).
Proof.
  intros Hsize. unfold parseLinks_line.
  destruct (stoul line) as [[nid pos]| | |] eqn:Hstoul; try by eexists.
  apply stoul_reads in Hstoul.
  assert (Hnpos : 0 ≤ npos) by (by vm_compute).
  assert (Hgt : 0 ≤ str_find line ">"%char pos).
  { unfold str_find.
    destruct (find_if_from_range (λ x, bool_decide (x = ">"%char)) line pos) as [->|?]; lia. }
  unfold find_first_not_of.
  destruct (find_if_from_range (λ x, negb (char_in spaces x)) line
              (str_find line ">"%char pos) Hgt) as [Hp|Hp].
  - rewrite Hp. simpl. by eexists.
  - set (p := find_if_from _ line (str_find line ">"%char pos)) in *.
    replace (p =? npos) with false by (symmetry; apply Z.eqb_neq; lia).
    destruct (parseLinks_loop_terminates WEIGHTED line (S (String.length line)) (p + 1) [])
      as [r Hr]; [done|lia|unfold str_size; lia|].
    rewrite Hr. destruct r; by eexists.
Qed.

End client_facts.

Lemma parseLinks_step_unweighted_suffix_witness :
  parseLinks_step no_stof false "0> 1:5 2" 2 []
  = Done (let next := find_first_of "0> 1:5 2" spaces (3 + 1) in
          if next =? npos then str_size "0> 1:5 2" else next,
          [] ++ [InpSimple (to_Id 1)]).
Proof.
  apply (parseLinks_step_unweighted_suffix no_stof "0> 1:5 2" 2 3 1 1 "1:5 2" []).
  - reflexivity.
  - reflexivity.
  - reflexivity.
  - reflexivity.
Defined.

(** C7 as it is written fails: for an unweighted graph whose nodes 0, 1, 2
    were declared, the line [0> 1:5 2] of an edges section is read without
    an error; node 0 gets the links to 1 and 2, and 1 and 2 the links back,
    all without a weight. *)
Lemma parseLinks_unweighted_accepts_weight :
  ∃ c' w',
    parseLinks false no_stof false "0> 1:5 2" false
      {| m_reorder := false; m_nodesNum := 3; m_nodesStartId := 0; m_graphPtr := None |}
      {| mem := ∅; rng := λ _, 0%nat |}
    = Some (Done (c', w'))
    ∧ links <$> mem w' !! 0%nat = Some [SimpleLink 1%nat; SimpleLink 2%nat]
    ∧ links <$> mem w' !! 1%nat = Some [SimpleLink 0%nat]
    ∧ links <$> mem w' !! 2%nat = Some [SimpleLink 0%nat].
Proof.
  eexists _, _. split; [vm_compute; reflexivity|]. by vm_compute.
Qed.

(** ** Unwrapping a cluster *)

Section unwrap_facts.
Local Open Scope Qc_scope.

(** *** Sums of rationals *)

Lemma sumQc_cons (x : Qc) (l : list Qc) : sumQc (x :: l) = x + sumQc l.
Proof. reflexivity. Qed.

Lemma sumQc_app (l1 l2 : list Qc) : sumQc (l1 ++ l2) = sumQc l1 + sumQc l2.
Proof.
  induction l1 as [|x l1 IH].
  - simpl. by rewrite Qcplus_0_l.
  - rewrite <- app_comm_cons, !sumQc_cons, IH. apply Qcplus_assoc.
Qed.

Lemma sumQc_perm (l1 l2 : list Qc) : l1 ≡ₚ l2 → sumQc l1 = sumQc l2.
Proof.
  induction 1 as [|x l1 l2 _ IH|x y l|l1 l2 l3 _ IH1 _ IH2].
  - done.
  - by rewrite !sumQc_cons, IH.
  - rewrite !sumQc_cons, !Qcplus_assoc. f_equal. apply Qcplus_comm.
  - by rewrite IH1.
Qed.

Lemma sumQc_ext {A : Type} (f g : A → Qc) (l : list A) :
  (∀ x, x ∈ l → f x = g x) → sumQc (f <$> l) = sumQc (g <$> l).
Proof.
  induction l as [|a l IH]; intros Hfg; [done|].
  rewrite !fmap_cons, !sumQc_cons, Hfg by left.
  rewrite IH; [done|]. intros x Hx. apply Hfg. by right.
Qed.

Lemma sumQc_zero {A : Type} (f : A → Qc) (l : list A) :
  (∀ x, x ∈ l → f x = 0) → sumQc (f <$> l) = 0.
Proof.
  induction l as [|a l IH]; intros Hf; [done|].
  rewrite fmap_cons, sumQc_cons, Hf by left.
  rewrite IH, Qcplus_0_l; [done|]. intros x Hx. apply Hf. by right.
Qed.

Lemma sumQc_plus {A : Type} (f g : A → Qc) (l : list A) :
  sumQc ((λ x, f x + g x) <$> l) = sumQc (f <$> l) + sumQc (g <$> l).
Proof.
  induction l as [|a l IH].
  - simpl. by rewrite Qcplus_0_l.
  - rewrite !fmap_cons, !sumQc_cons, IH. ring.
Qed.

Lemma sumQc_nonneg {A : Type} (f : A → Qc) (l : list A) :
  (∀ x, x ∈ l → 0 ≤ f x) → 0 ≤ sumQc (f <$> l).
Proof.
  induction l as [|a l IH]; intros Hf; [done|].
  rewrite fmap_cons, sumQc_cons.
  apply Qcplus_nonneg_nonneg; [apply Hf; left|].
  apply IH. intros x Hx. apply Hf. by right.
Qed.



Lemma sumQc_bind {A B : Type} (f : A → list B) (g : B → Qc) (l : list A) :
  sumQc (g <$> (l ≫= f)) = sumQc ((λ a, sumQc (g <$> f a)) <$> l).
Proof.
  induction l as [|a l IH]; [done|].
  rewrite bind_cons, fmap_app, sumQc_app, IH. done.
Qed.

Lemma sumQc_indicator (i : ItemPtr) (v : Qc) (a n : nat) :
  sumQc ((λ c, if decide (i = ClusterItem c) then v else 0) <$> seq a n)
  = match i with
    | ClusterItem c0 => if decide (a ≤ c0 < a + n)%nat then v else 0
    | NodeItem _ => 0
    end.
Proof.
  revert a. induction n as [|n IH]; intros a.
  - simpl. destruct i as [|c0]; [done|]. rewrite decide_False; [done|lia].
  - cbn [seq]. rewrite fmap_cons, sumQc_cons, IH. destruct i as [m|c0].
    + rewrite decide_False by done. by rewrite Qcplus_0_l.
    + destruct (decide (ClusterItem c0 = ClusterItem a)) as [Heq|Hne].
      * inversion Heq; subst. rewrite decide_False by lia.
        rewrite decide_True by lia. by rewrite Qcplus_0_r.
      * rewrite Qcplus_0_l. assert (c0 ≠ a) by congruence.
        destruct (decide (S a ≤ c0 < S a + n)%nat);
          [rewrite decide_True by lia|rewrite decide_False by lia]; done.
Qed.

(** *** [m[k] += x] *)

Lemma share_at_empty `{Countable K} (k : K) : share_at (∅ : gmap K Share) k = 0.
Proof. unfold share_at. by rewrite lookup_empty. Qed.

Lemma share_at_insert `{Countable K} (m : gmap K Share) (i k : K) (x : Share) :
  share_at (<[i := x]> m) k = if decide (i = k) then x else share_at m k.
Proof.
  unfold share_at. destruct (decide (i = k)) as [->|Hne].
  - by rewrite lookup_insert_eq.
  - by rewrite lookup_insert_ne.
Qed.

Lemma share_at_map_add `{Countable K} (m : gmap K Share) (k k' : K) (x : Share) :
  share_at (map_add k x m) k' = share_at m k' + (if decide (k = k') then x else 0).
Proof.
  unfold map_add. rewrite share_at_insert.
  destruct (decide (k = k')) as [->|Hne]; [done|]. by rewrite Qcplus_0_r.
Qed.

Lemma map_add_is_Some `{Countable K} (m : gmap K Share) (k k' : K) (x : Share) :
  is_Some (map_add k x m !! k') ↔ is_Some (m !! k') ∨ k = k'.
Proof.
  unfold map_add. destruct (decide (k = k')) as [->|Hne].
  - rewrite lookup_insert_eq. split; eauto.
  - rewrite lookup_insert_ne by done. split; [by left|]. by intros [|].
Qed.

Lemma map_add_positive `{Countable K} (m : gmap K Share) (k : K) (x : Share) :
  all_positive m → 0 < x → all_positive (map_add k x m).
Proof.
  intros Hm Hx k' s. unfold map_add.
  destruct (decide (k = k')) as [->|Hne].
  - rewrite lookup_insert_eq. intros [= <-].
    destruct (m !! k') as [s'|] eqn:Hk; simpl.
    + apply Qcplus_pos_pos; [by eapply Hm|done].
    + by rewrite Qcplus_0_l.
  - rewrite lookup_insert_ne by done. apply Hm.
Qed.

Lemma all_positive_share_at `{Countable K} (m : gmap K Share) (k : K) :
  all_positive m → is_Some (m !! k) ↔ share_at m k ≠ 0.
Proof.
  intros Hm. unfold share_at. destruct (m !! k) as [s|] eqn:Hk; simpl.
  - split; [|eauto]. intros _ ->. specialize (Hm k 0 Hk). by apply Qclt_not_eq in Hm.
  - split; [by intros [? ?]|done].
Qed.

(** *** The divisor *)

Lemma owners_divisor_spec (h : Hierarchy) (y : ItemPtr) :
  owners_divisor h y = spec_divisor h y.
Proof.
  unfold owners_divisor, spec_divisor.
  by destruct (length (owners h y)) as [|n].
Qed.

Lemma spec_divisor_pos (h : Hierarchy) (y : ItemPtr) : 0 < spec_divisor h y.
Proof.
  unfold spec_divisor. rewrite <- Z2Qc_inj_0. apply (proj1 (Z2Qc_inj_lt _ _)). lia.
Qed.

Lemma Qcdiv_pos (s d : Qc) : 0 < s → 0 < d → 0 < s / d.
Proof. intros Hs Hd. unfold Qcdiv. apply Qcmult_pos_pos; [done|by apply Qcinv_pos]. Qed.

(** *** One item of a level *)

Lemma foldl_des_share (h : Hierarchy) (s : Qc) (ds : list ItemPtr)
    (levn : gmap ItemPtr Share) (y : ItemPtr) :
  share_at (foldl (λ levn cl, map_add cl (s / owners_divisor h cl) levn) levn ds) y
  = share_at levn y + sumQc ((λ _, s / spec_divisor h y) <$> filter (λ d, d = y) ds).
Proof.
  revert levn. induction ds as [|d ds IH]; intros levn.
  - simpl. by rewrite Qcplus_0_r.
  - cbn [foldl]. rewrite IH, share_at_map_add, filter_cons.
    destruct (decide (d = y)) as [->|Hne].
    + rewrite fmap_cons, sumQc_cons, owners_divisor_spec. ring.
    + ring.
Qed.

Lemma foldl_des_is_Some (h : Hierarchy) (s : Qc) (ds : list ItemPtr)
    (levn : gmap ItemPtr Share) (y : ItemPtr) :
  is_Some (foldl (λ levn cl, map_add cl (s / owners_divisor h cl) levn) levn ds !! y)
  ↔ is_Some (levn !! y) ∨ y ∈ ds.
Proof.
  revert levn. induction ds as [|d ds IH]; intros levn.
  - simpl. rewrite elem_of_nil. tauto.
  - cbn [foldl]. rewrite IH, map_add_is_Some, elem_of_cons.
    intuition (auto; congruence).
Qed.

Lemma foldl_des_positive (h : Hierarchy) (s : Qc) (ds : list ItemPtr)
    (levn : gmap ItemPtr Share) :
  0 < s → all_positive levn →
  all_positive (foldl (λ levn cl, map_add cl (s / owners_divisor h cl) levn) levn ds).
Proof.
  intros Hs. revert levn. induction ds as [|d ds IH]; intros levn Hlevn; [done|].
  cbn [foldl]. apply IH, map_add_positive; [done|].
  rewrite owners_divisor_spec. apply Qcdiv_pos; [done|apply spec_divisor_pos].
Qed.

Lemma unwrap_item_level (h : Hierarchy) (st : gmap ItemPtr Share * gmap nat Share)
    (x : ItemPtr) (s : Qc) (y : ItemPtr) :
  share_at (unwrap_item h st (x, s)).1 y = share_at st.1 y + item_down h x s y.
Proof.
  unfold unwrap_item, item_down. destruct x as [n|c]; simpl.
  - by rewrite Qcplus_0_r.
  - fold (des_of h c). case_bool_decide as Hds.
    + rewrite Hds. simpl. by rewrite Qcplus_0_r.
    + simpl. apply foldl_des_share.
Qed.

Lemma unwrap_item_nodes (h : Hierarchy) (st : gmap ItemPtr Share * gmap nat Share)
    (x : ItemPtr) (s : Qc) (n : nat) :
  share_at (unwrap_item h st (x, s)).2 n
  = share_at st.2 n + (if decide (x = NodeItem n) then s else 0).
Proof.
  unfold unwrap_item. destruct x as [m|c]; simpl.
  - rewrite share_at_map_add. destruct (decide (m = n)) as [->|Hne].
    + by rewrite decide_True.
    + rewrite decide_False; [done|congruence].
  - case_bool_decide; simpl; by rewrite Qcplus_0_r.
Qed.

Lemma unwrap_item_level_is_Some (h : Hierarchy)
    (st : gmap ItemPtr Share * gmap nat Share) (x : ItemPtr) (s : Qc) (y : ItemPtr) :
  is_Some ((unwrap_item h st (x, s)).1 !! y)
  ↔ is_Some (st.1 !! y) ∨ ∃ c, x = ClusterItem c ∧ y ∈ des_of h c.
Proof.
  unfold unwrap_item. destruct x as [n|c]; simpl.
  - split; [by left|]. by intros [|(c & ? & _)].
  - fold (des_of h c). case_bool_decide as Hds; simpl.
    + split; [by left|]. intros [|(c' & [= <-] & Hin)]; [done|].
      rewrite Hds in Hin. by apply elem_of_nil in Hin.
    + rewrite foldl_des_is_Some. split.
      * intros [|]; [by left|right; eauto].
      * intros [|(c' & [= <-] & ?)]; [by left|by right].
Qed.

Lemma unwrap_item_nodes_is_Some (h : Hierarchy)
    (st : gmap ItemPtr Share * gmap nat Share) (x : ItemPtr) (s : Qc) (n : nat) :
  is_Some ((unwrap_item h st (x, s)).2 !! n) ↔ is_Some (st.2 !! n) ∨ x = NodeItem n.
Proof.
  unfold unwrap_item. destruct x as [m|c]; simpl.
  - rewrite map_add_is_Some. split; (intros [|]; [by left|right; congruence]).
  - case_bool_decide; simpl; (split; [by left|by intros [|]]).
Qed.

Lemma unwrap_item_positive (h : Hierarchy)
    (st : gmap ItemPtr Share * gmap nat Share) (x : ItemPtr) (s : Qc) :
  0 < s → all_positive st.1 → all_positive (unwrap_item h st (x, s)).1.
Proof.
  intros Hs Hst. unfold unwrap_item. destruct x as [n|c]; simpl; [done|].
  case_bool_decide; simpl; [done|]. by apply foldl_des_positive.
Qed.

(** *** All items of a level *)

Lemma foldl_items_level (h : Hierarchy) (l : list (ItemPtr * Share))
    (st : gmap ItemPtr Share * gmap nat Share) (y : ItemPtr) :
  share_at (foldl (unwrap_item h) st l).1 y
  = share_at st.1 y + sumQc ((λ il, item_down h il.1 il.2 y) <$> l).
Proof.
  revert st. induction l as [|[x s] l IH]; intros st.
  - simpl. by rewrite Qcplus_0_r.
  - cbn [foldl]. rewrite IH, unwrap_item_level, fmap_cons, sumQc_cons. simpl. ring.
Qed.

Lemma foldl_items_nodes (h : Hierarchy) (l : list (ItemPtr * Share))
    (st : gmap ItemPtr Share * gmap nat Share) (n : nat) :
  share_at (foldl (unwrap_item h) st l).2 n
  = share_at st.2 n
    + sumQc ((λ il, if decide (il.1 = NodeItem n) then il.2 else 0) <$> l).
Proof.
  revert st. induction l as [|[x s] l IH]; intros st.
  - simpl. by rewrite Qcplus_0_r.
  - cbn [foldl]. rewrite IH, unwrap_item_nodes, fmap_cons, sumQc_cons. simpl. ring.
Qed.

Lemma foldl_items_level_is_Some (h : Hierarchy) (l : list (ItemPtr * Share))
    (st : gmap ItemPtr Share * gmap nat Share) (y : ItemPtr) :
  is_Some ((foldl (unwrap_item h) st l).1 !! y)
  ↔ is_Some (st.1 !! y) ∨ ∃ c s, (ClusterItem c, s) ∈ l ∧ y ∈ des_of h c.
Proof.
  revert st. induction l as [|[x s] l IH]; intros st.
  - simpl. split; [by left|]. intros [|(c & s & Hin & _)]; [done|].
    by apply elem_of_nil in Hin.
  - cbn [foldl]. rewrite IH, unwrap_item_level_is_Some. split.
    + intros [[|(c & -> & Hy)]|(c & s' & Hin & Hy)].
      * by left.
      * right. exists c, s. split; [left|done].
      * right. exists c, s'. split; [by right|done].
    + intros [|(c & s' & Hin & Hy)]; [by left; left|].
      apply elem_of_cons in Hin as [[= <- <-]|Hin].
      * left. right. eauto.
      * right. eauto.
Qed.

Lemma foldl_items_nodes_is_Some (h : Hierarchy) (l : list (ItemPtr * Share))
    (st : gmap ItemPtr Share * gmap nat Share) (n : nat) :
  is_Some ((foldl (unwrap_item h) st l).2 !! n)
  ↔ is_Some (st.2 !! n) ∨ ∃ s, (NodeItem n, s) ∈ l.
Proof.
  revert st. induction l as [|[x s] l IH]; intros st.
  - simpl. split; [by left|]. intros [|(s & Hin)]; [done|].
    by apply elem_of_nil in Hin.
  - cbn [foldl]. rewrite IH, unwrap_item_nodes_is_Some. split.
    + intros [[?| ->]|(s' & Hin)].
      * by left.
      * right. exists s. left.
      * right. exists s'. by right.
    + intros [|(s' & Hin)]; [by left; left|].
      apply elem_of_cons in Hin as [[= <- <-]|Hin].
      * left. by right.
      * right. eauto.
Qed.

Lemma foldl_items_positive (h : Hierarchy) (l : list (ItemPtr * Share))
    (st : gmap ItemPtr Share * gmap nat Share) :
  (∀ il, il ∈ l → 0 < il.2) → all_positive st.1 →
  all_positive (foldl (unwrap_item h) st l).1.
Proof.
  revert st. induction l as [|[x s] l IH]; intros st Hl Hst; [done|].
  cbn [foldl]. apply IH.
  - intros il Hil. apply Hl. by right.
  - apply unwrap_item_positive; [|done]. apply (Hl (x, s)). left.
Qed.

(** *** From the entries of a level map to the clusters of the hierarchy *)

Lemma sum_items_universe (g : ItemPtr → Qc → Qc) (n : nat) (lev : gmap ItemPtr Share) :
  (∀ x, g x 0 = 0) →
  (∀ m s, g (NodeItem m) s = 0) →
  (∀ c s, (n ≤ c)%nat → g (ClusterItem c) s = 0) →
  sumQc ((λ il, g il.1 il.2) <$> map_to_list lev)
  = sumQc ((λ c, g (ClusterItem c) (share_at lev (ClusterItem c))) <$> seq 0 n).
Proof.
  intros Hg0 Hnode Hout.
  induction lev as [|i x m Hi IH] using map_ind.
  - rewrite map_to_list_empty. simpl. symmetry. apply sumQc_zero.
    intros c _. by rewrite share_at_empty.
  - rewrite (sumQc_perm _ ((λ il, g il.1 il.2) <$> ((i, x) :: map_to_list m)))
      by (apply fmap_Permutation, map_to_list_insert; done).
    rewrite fmap_cons, sumQc_cons, IH. simpl.
    rewrite (sumQc_ext
               (λ c, g (ClusterItem c) (share_at (<[i:=x]> m) (ClusterItem c)))
               (λ c, (if decide (i = ClusterItem c) then g i x else 0)
                     + g (ClusterItem c) (share_at m (ClusterItem c)))).
    + rewrite sumQc_plus, sumQc_indicator. f_equal.
      destruct i as [k|c0]; [apply Hnode|].
      destruct (decide (0 ≤ c0 < 0 + n)%nat); [done|]. apply Hout. lia.
    + intros c _. rewrite share_at_insert.
      destruct (decide (i = ClusterItem c)) as [->|Hne].
      * unfold share_at at 1. rewrite Hi. simpl. rewrite Hg0. ring.
      * ring.
Qed.

Lemma sum_items_node (lev : gmap ItemPtr Share) (n : nat) :
  sumQc ((λ il, if decide (il.1 = NodeItem n) then il.2 else 0) <$> map_to_list lev)
  = share_at lev (NodeItem n).
Proof.
  induction lev as [|i x m Hi IH] using map_ind.
  - rewrite map_to_list_empty. simpl. by rewrite share_at_empty.
  - rewrite (sumQc_perm _ ((λ il, if decide (il.1 = NodeItem n) then il.2 else 0)
                             <$> ((i, x) :: map_to_list m)))
      by (apply fmap_Permutation, map_to_list_insert; done).
    rewrite fmap_cons, sumQc_cons, IH, share_at_insert. simpl.
    destruct (decide (i = NodeItem n)) as [->|Hne].
    + unfold share_at. rewrite Hi. simpl. ring.
    + ring.
Qed.

Lemma item_down_zero (h : Hierarchy) (x y : ItemPtr) : item_down h x 0 y = 0.
Proof.
  destruct x as [n|c]; [done|]. simpl. apply sumQc_zero.
  intros d _. unfold Qcdiv. ring.
Qed.

Lemma des_of_outside (h : Hierarchy) (c : nat) :
  (length (m_cls h) ≤ c)%nat → des_of h c = [].
Proof. intros Hc. unfold des_of. by rewrite lookup_ge_None_2. Qed.

Lemma spec_next_item_down (h : Hierarchy) (L : ItemPtr → Qc) (y : ItemPtr) :
  spec_next h L y
  = sumQc ((λ c, item_down h (ClusterItem c) (L (ClusterItem c)) y)
             <$> seq 0 (length (m_cls h))).
Proof.
  unfold spec_next, parents. rewrite sumQc_bind.
  apply sumQc_ext. intros c _. simpl. by rewrite <- list_fmap_compose.
Qed.

Lemma spec_next_ext (h : Hierarchy) (L L' : ItemPtr → Qc) (y : ItemPtr) :
  (∀ x, L x = L' x) → spec_next h L y = spec_next h L' y.
Proof.
  intros HL. unfold spec_next. apply sumQc_ext. intros c _. by rewrite HL.
Qed.

(** *** One round of the loop *)

Lemma unwrap_level_shares (h : Hierarchy) (lev : gmap ItemPtr Share)
    (clNodes : gmap nat Share) (y : ItemPtr) :
  share_at (unwrap_level h lev clNodes).1 y = spec_next h (share_at lev) y.
Proof.
  unfold unwrap_level. rewrite foldl_items_level. simpl.
  rewrite share_at_empty, Qcplus_0_l, spec_next_item_down.
  apply (sum_items_universe (λ x s, item_down h x s y)).
  - intros x. apply item_down_zero.
  - done.
  - intros c s Hc. simpl. by rewrite des_of_outside.
Qed.

Lemma unwrap_level_nodes (h : Hierarchy) (lev : gmap ItemPtr Share)
    (clNodes : gmap nat Share) (n : nat) :
  share_at (unwrap_level h lev clNodes).2 n
  = share_at clNodes n + share_at lev (NodeItem n).
Proof.
  unfold unwrap_level. rewrite foldl_items_nodes. simpl. by rewrite sum_items_node.
Qed.

Lemma unwrap_level_positive (h : Hierarchy) (lev : gmap ItemPtr Share)
    (clNodes : gmap nat Share) :
  all_positive lev → all_positive (unwrap_level h lev clNodes).1.
Proof.
  intros Hlev. unfold unwrap_level. apply foldl_items_positive; [|done].
  intros [x s] Hin. apply elem_of_map_to_list in Hin. by eapply Hlev.
Qed.

Lemma unwrap_level_is_Some (h : Hierarchy) (lev : gmap ItemPtr Share)
    (clNodes : gmap nat Share) (y : ItemPtr) :
  is_Some ((unwrap_level h lev clNodes).1 !! y)
  → ∃ c, is_Some (lev !! ClusterItem c) ∧ y ∈ des_of h c.
Proof.
  unfold unwrap_level. rewrite foldl_items_level_is_Some. simpl.
  rewrite lookup_empty. intros [[? [=]]|(c & s & Hin & Hy)].
  apply elem_of_map_to_list in Hin. eauto.
Qed.

Lemma unwrap_level_nodes_is_Some (h : Hierarchy) (lev : gmap ItemPtr Share)
    (clNodes : gmap nat Share) (n : nat) :
  is_Some ((unwrap_level h lev clNodes).2 !! n)
  ↔ is_Some (clNodes !! n) ∨ is_Some (lev !! NodeItem n).
Proof.
  unfold unwrap_level. rewrite foldl_items_nodes_is_Some. simpl.
  split; (intros [|[s Hs]]; [by left|right]).
  - apply elem_of_map_to_list in Hs. eauto.
  - exists s. by apply elem_of_map_to_list.
Qed.

Lemma unwrap_item_nodes_positive (h : Hierarchy)
    (st : gmap ItemPtr Share * gmap nat Share) (x : ItemPtr) (s : Qc) :
  0 < s → all_positive st.2 → all_positive (unwrap_item h st (x, s)).2.
Proof.
  intros Hs Hst. unfold unwrap_item. destruct x as [n|c]; simpl.
  - by apply map_add_positive.
  - by case_bool_decide.
Qed.

Lemma unwrap_level_nodes_positive (h : Hierarchy) (lev : gmap ItemPtr Share)
    (clNodes : gmap nat Share) :
  all_positive lev → all_positive clNodes →
  all_positive (unwrap_level h lev clNodes).2.
Proof.
  intros Hlev. unfold unwrap_level.
  assert (Hl : ∀ il, il ∈ map_to_list lev → 0 < il.2).
  { intros [x s] Hin. apply elem_of_map_to_list in Hin. by eapply Hlev. }
  generalize (∅ : gmap ItemPtr Share). revert clNodes Hl.
  induction (map_to_list lev) as [|[x s] l IH]; intros clNodes Hl levn Hcl; [done|].
  cbn [foldl].
  destruct (unwrap_item h (levn, clNodes) (x, s)) as [levn' clNodes'] eqn:Hst.
  apply IH.
  - intros il Hil. apply Hl. by right.
  - change clNodes' with (levn', clNodes').2. rewrite <- Hst.
    apply unwrap_item_nodes_positive; [|done]. apply (Hl (x, s)). left.
Qed.

(** *** The levels of the specification *)

Lemma spec_next_zero (h : Hierarchy) (L : ItemPtr → Qc) (y : ItemPtr) :
  (∀ x, L x = 0) → spec_next h L y = 0.
Proof.
  intros HL. unfold spec_next. apply sumQc_zero. intros c _.
  rewrite HL. unfold Qcdiv. ring.
Qed.

Lemma spec_level_zero_after (h : Hierarchy) (c k0 : nat) :
  (∀ y, spec_level h c k0 y = 0) → ∀ k y, spec_level h c (k0 + k) y = 0.
Proof.
  intros H0 k. induction k as [|k IH]; intros y.
  - by rewrite Nat.add_0_r.
  - rewrite Nat.add_succ_r. simpl. by apply spec_next_zero.
Qed.

Lemma sumQc_seq_S (f : nat → Qc) (n : nat) :
  sumQc (f <$> seq 0 (S n)) = f O + sumQc ((λ k, f (S k)) <$> seq 0 n).
Proof.
  cbn [seq]. rewrite fmap_cons, sumQc_cons. f_equal.
  rewrite <- fmap_S_seq, <- list_fmap_compose. done.
Qed.

(** *** The loop *)

Lemma unwrap_loop_spec (h : Hierarchy) (rank : ItemPtr → nat) (c : nat) :
  descends h rank →
  ∀ (fuel k0 : nat) (lev : gmap ItemPtr Share) (clNodes : gmap nat Share),
    (∀ y, share_at lev y = spec_level h c k0 y) →
    all_positive lev →
    (∀ y, is_Some (lev !! y) → (rank y < fuel)%nat) →
    ∃ res,
      unwrap_loop fuel h lev clNodes = Some res
      ∧ (∀ n, share_at res n
              = share_at clNodes n
                + sumQc ((λ k, spec_level h c (k0 + k) (NodeItem n)) <$> seq 0 fuel))
      ∧ (∀ n, is_Some (res !! n)
              ↔ is_Some (clNodes !! n)
                ∨ ∃ k, (k < fuel)%nat ∧ spec_level h c (k0 + k) (NodeItem n) ≠ 0)
      ∧ (all_positive clNodes → all_positive res).
Proof.
  intros Hdesc fuel. induction fuel as [|fuel IH]; intros k0 lev clNodes Hlev Hpos Hrank.
  - assert (lev = ∅) as ->.
    { apply map_empty. intros y. destruct (lev !! y) eqn:Hy; [|done].
      specialize (Hrank y (mk_is_Some _ _ Hy)). lia. }
    exists clNodes. simpl. split; [done|]. split; [|split; [|done]].
    + intros n. by rewrite Qcplus_0_r.
    + intros n. split; [by left|]. intros [|(k & Hk & _)]; [done|lia].
  - cbn [unwrap_loop]. destruct (decide (lev = ∅)) as [->|Hne].
    + assert (Hz : ∀ k y, spec_level h c (k0 + k) y = 0).
      { apply spec_level_zero_after. intros y. by rewrite <- Hlev, share_at_empty. }
      exists clNodes. split; [done|]. split; [|split; [|done]].
      * intros n. rewrite sumQc_zero; [by rewrite Qcplus_0_r|]. intros k _. apply Hz.
      * intros n. split; [by left|]. intros [|(k & _ & Hk)]; [done|].
        by rewrite Hz in Hk.
    + set (st := unwrap_level h lev clNodes).
      destruct (IH (S k0) st.1 st.2) as (res & Hrun & Hshares & Hdom & Hrespos).
      * intros y. unfold st. rewrite unwrap_level_shares. simpl. by apply spec_next_ext.
      * by apply unwrap_level_positive.
      * intros y Hy. apply unwrap_level_is_Some in Hy as (c' & Hc' & Hin).
        specialize (Hrank _ Hc'). specialize (Hdesc _ _ Hin). lia.
      * exists res. split; [done|]. split; [|split].
        -- intros n. rewrite Hshares. unfold st. rewrite unwrap_level_nodes, Hlev.
           rewrite sumQc_seq_S, Nat.add_0_r, <- Qcplus_assoc. f_equal. f_equal.
           apply sumQc_ext. intros k _. by rewrite Nat.add_succ_r.
        -- intros n. rewrite Hdom. unfold st. rewrite unwrap_level_nodes_is_Some.
           rewrite (all_positive_share_at lev) by done. rewrite Hlev. split.
           ++ intros [[|H0]|(k & Hk & Hnz)].
              ** by left.
              ** right. exists O. rewrite Nat.add_0_r. split; [lia|done].
              ** right. exists (S k). rewrite Nat.add_succ_r. split; [lia|done].
           ++ intros [|(k & Hk & Hnz)]; [by left; left|].
              destruct k as [|k].
              ** left. right. by rewrite Nat.add_0_r in Hnz.
              ** right. exists k. rewrite Nat.add_succ_r in Hnz. split; [lia|done].
        -- intros Hcl. apply Hrespos. by apply unwrap_level_nodes_positive.
Qed.


(** *** Bounds on the shares *)




Lemma spec_next_nonneg (h : Hierarchy) (L : ItemPtr → Qc) (y : ItemPtr) :
  (∀ x, 0 ≤ L x) → 0 ≤ spec_next h L y.
Proof.
  intros HL. unfold spec_next. apply sumQc_nonneg. intros c _.
  unfold Qcdiv. apply Qcmult_nonneg_nonneg; [done|].
  apply Qclt_le_weak, Qcinv_pos, spec_divisor_pos.
Qed.

Lemma spec_level_nonneg (h : Hierarchy) (c k : nat) (y : ItemPtr) :
  0 ≤ spec_level h c k y.
Proof.
  revert y. induction k as [|k IH]; intros y; simpl.
  - by case_decide.
  - by apply spec_next_nonneg.
Qed.


Lemma elem_of_parents (h : Hierarchy) (y : ItemPtr) (c : nat) :
  c ∈ parents h y ↔ (c < length (m_cls h))%nat ∧ y ∈ des_of h c.
Proof.
  unfold parents. rewrite list_elem_of_bind. split.
  - intros (c' & Hin & Hc'). apply elem_of_seq in Hc'.
    apply list_elem_of_fmap in Hin as (d & -> & Hd).
    apply list_elem_of_filter in Hd as [-> Hd]. split; [lia|done].
  - intros [Hc Hy]. exists c. split; [|apply elem_of_seq; lia].
    apply list_elem_of_fmap. exists y. split; [done|].
    by apply list_elem_of_filter.
Qed.





Lemma spec_next_support (h : Hierarchy) (L : ItemPtr → Qc) (y : ItemPtr) :
  spec_next h L y ≠ 0 → ∃ c, c ∈ parents h y ∧ L (ClusterItem c) ≠ 0.
Proof.
  intros Hnz. unfold spec_next in Hnz.
  destruct (decide (Exists (λ c, L (ClusterItem c) ≠ 0) (parents h y))) as [Hex|Hno].
  - apply Exists_exists in Hex. done.
  - exfalso. apply Hnz, sumQc_zero. intros c Hc.
    rewrite <- Forall_Exists_neg, Forall_forall in Hno.
    specialize (Hno c Hc). apply dec_stable in Hno. rewrite Hno.
    unfold Qcdiv. ring.
Qed.




End unwrap_facts.

Section unwrap_bounds.
Local Open Scope Qc_scope.


End unwrap_bounds.

Lemma overlap3_descends : descends overlap3 overlap3_rank.
Proof.
  intros c y Hy. destruct c as [|[|[|c]]]; unfold des_of in Hy; simpl in Hy;
    repeat (apply elem_of_cons in Hy as [->|Hy]; [simpl; lia|]);
    by apply elem_of_nil in Hy.
Qed.





(** ** The graph builder: invariants of the methods of [Graph] *)

Section builder_facts.
Context {W : Type} `{WeightOps W}.
Implicit Types (w : @World W) (n : @Node W) (p nd dst src : NodePtr) (wgt : W).

Lemma M_bind_Done {A B : Type} (m : @M W A) (f : A → @M W B) w b w' :
  (m ≫= f) w = Done (b, w') → ∃ a w1, m w = Done (a, w1) ∧ f a w1 = Done (b, w').
Proof.
  unfold mbind, M_mbind, M_bind. destruct (m w) as [[a w1]| | |]; try done. eauto.
Qed.

Lemma M_ret_Done {A : Type} (a b : A) w w' :
  (mret a : @M W A) w = Done (b, w') → a = b ∧ w = w'.
Proof. unfold mret, M_mret, M_ret. by intros [= -> ->]. Qed.

Lemma assert_Done NDEBUG (c : @M W bool) msg w w' :
  assert NDEBUG c msg w = Done ((), w') →
  NDEBUG = true ∧ w' = w ∨ NDEBUG = false ∧ c w = Done (true, w').
Proof.
  unfold assert. destruct NDEBUG.
  - intros [Heq ?]%M_ret_Done. left. done.
  - intros (b & w1 & Hc & Hb)%M_bind_Done. right. split; [done|].
    destruct b; [|done]. apply M_ret_Done in Hb as [_ ->]. done.
Qed.

(** *** [emplace_node] *)

Lemma emplace_node_inv ns ns' (i : Id) (shuffle : bool) p w w' :
  emplace_node ns i shuffle w = Done ((ns', p), w') →
  p = fresh (dom (mem w))
  ∧ mem w' = <[p := Node_ctor i]> (mem w)
  ∧ (ns' = ns ++ [p] ∨ shuffle = true ∧ ns' = p :: ns)
  ∧ (shuffle = false → rng w' = rng w).
Proof.
  unfold emplace_node, alloc_node, rand.
  unfold mbind, mret, M_mbind, M_mret, M_bind, M_ret.
  destruct shuffle; simpl.
  - destruct (negb _); intros [= <- <- <-]; simpl; split_and!; auto; done.
  - intros [= <- <- <-]. simpl. split_and!; auto.
Qed.

Lemma fresh_not_allocated w : mem w !! fresh (dom (mem w)) = None.
Proof. apply not_elem_of_dom, is_fresh. Qed.

(** *** [addLink] *)

Lemma addLink_inv (SIMPLE shuffle : bool) src dst wgt w w' :
  addLink SIMPLE src dst wgt shuffle w = Done ((), w') →
  ∃ n k,
    mem w !! src = Some n
    ∧ (k ≤ length (links n))%nat
    ∧ (shuffle = false → k = length (links n) ∧ rng w' = rng w)
    ∧ mem w' = <[src := set_links (emplace_at k (arc (negb SIMPLE) dst wgt) (links n)) n]> (mem w).
Proof.
  intros Hrun. unfold addLink, deref, store, rand, undefined in Hrun.
  unfold mbind, mret, M_mbind, M_mret, M_bind, M_ret in Hrun.
  destruct (mem w !! src) as [n|] eqn:Hsrc; [|done].
  exists n. unfold arc. rewrite negb_involutive.
  destruct shuffle; cbn [negb] in Hrun.
  - destruct (length (links n)) as [|m] eqn:Hlen; cbn [Nat.eqb] in Hrun; [done|].
    injection Hrun as <-. eexists. cbn [mem]. split; [done|]. split; [|done].
    pose proof (Nat.mod_upper_bound (rng w 0%nat) (S m)). lia.
  - injection Hrun as <-. exists (length (links n)). cbn [mem rng].
    rewrite emplace_at_length. split; [done|]. split; [lia|]. by destruct SIMPLE.
Qed.

Lemma elem_of_emplace_at {A : Type} (k : nat) (x y : A) (l : list A) :
  y ∈ emplace_at k x l ↔ y = x ∨ y ∈ l.
Proof.
  assert (Hl : y ∈ l ↔ y ∈ take k l ∨ y ∈ drop k l)
    by (by rewrite <- elem_of_app, take_drop).
  unfold emplace_at. rewrite elem_of_app, elem_of_cons. tauto.
Qed.

Lemma sublist_emplace_at {A : Type} (k : nat) (x : A) (l : list A) :
  l `sublist_of` emplace_at k x l.
Proof.
  assert (Hl : take k l ++ drop k l `sublist_of` emplace_at k x l).
  { unfold emplace_at. apply sublist_app; [done|]. by apply sublist_cons. }
  by rewrite take_drop in Hl.
Qed.

(** *** Nodes are kept *)

Lemma nodes_kept_refl w : nodes_kept w w.
Proof. intros p n Hp. by exists n. Qed.

Lemma nodes_kept_trans w1 w2 w3 :
  nodes_kept w1 w2 → nodes_kept w2 w3 → nodes_kept w1 w3.
Proof.
  intros H12 H23 p n Hp.
  destruct (H12 p n Hp) as (n2 & Hp2 & Hid2 & Hl2).
  destruct (H23 p n2 Hp2) as (n3 & Hp3 & Hid3 & Hl3).
  exists n3. split; [done|]. split; [congruence|]. by etrans.
Qed.

Lemma grown_refl ns w : grown ns w w.
Proof.
  intros p. destruct (mem w !! p) as [n|] eqn:Hp; [|done].
  exists n. split_and!; auto.
Qed.

Lemma grown_trans ns w1 w2 w3 : grown ns w1 w2 → grown ns w2 w3 → grown ns w1 w3.
Proof.
  intros H12 H23 p. specialize (H12 p). specialize (H23 p).
  destruct (mem w1 !! p) as [n1|].
  - destruct H12 as (n2 & Hp2 & Hid2 & Hs2 & Hl2). rewrite Hp2 in H23.
    destruct H23 as (n3 & Hp3 & Hid3 & Hs3 & Hl3).
    exists n3. split_and!; [done|congruence|by etrans|].
    intros l Hl. destruct (Hl3 l Hl) as [Hin|]; [|by right]. by apply Hl2.
  - by rewrite H12 in H23.
Qed.

Lemma grown_nodes_kept ns w w' : grown ns w w' → nodes_kept w w'.
Proof.
  intros Hg p n Hp. specialize (Hg p). rewrite Hp in Hg.
  destruct Hg as (n' & ? & ? & ? & _). by exists n'.
Qed.

Lemma grown_mono ns ns' w w' : ns ⊆ ns' → grown ns w w' → grown ns' w w'.
Proof.
  intros Hsub Hg p. specialize (Hg p). destruct (mem w !! p) as [n|]; [|done].
  destruct Hg as (n' & ? & ? & ? & Hl). exists n'. split_and!; try done.
  intros l Hin. destruct (Hl l Hin); [by left|right]. by apply Hsub.
Qed.

Lemma grown_is_Some ns w w' p : grown ns w w' → is_Some (mem w' !! p) ↔ is_Some (mem w !! p).
Proof.
  intros Hg. specialize (Hg p). destruct (mem w !! p) as [n|].
  - destruct Hg as (n' & -> & _). split; eauto.
  - rewrite Hg. done.
Qed.

Lemma addLink_grown (SIMPLE shuffle : bool) ns src dst wgt w w' :
  dst ∈ ns →
  addLink SIMPLE src dst wgt shuffle w = Done ((), w') → grown ns w w'.
Proof.
  intros Hdst (n & k & Hsrc & _ & _ & Hmem)%addLink_inv p. rewrite Hmem.
  destruct (decide (p = src)) as [->|Hne].
  - rewrite Hsrc, lookup_insert_eq. eexists. split; [done|]. simpl.
    split; [done|]. split; [apply sublist_emplace_at|].
    intros l [->|Hl]%elem_of_emplace_at; [right|by left]. by rewrite arc_dest.
  - rewrite lookup_insert_ne by done. destruct (mem w !! p) as [m|]; [|done].
    exists m. split_and!; auto.
Qed.

Lemma acsAddNodeLink_grown (NDEBUG DIRECTED WEIGHTED shuffle : bool) ns nd dst wgt w w' :
  nd ∈ ns → dst ∈ ns →
  acsAddNodeLink NDEBUG DIRECTED WEIGHTED nd dst wgt shuffle w = Done ((), w') →
  grown ns w w'.
Proof.
  intros Hnd Hdst. unfold acsAddNodeLink. destruct (decide (dst = nd)) as [->|Hne].
  - intros ([] & w1 & Hassert & Hset)%M_bind_Done.
    assert (Hw1 : mem w1 = mem w).
    { apply assert_Done in Hassert as [[_ ->]|[_ Hsw]]; [done|].
      unfold selfWeight in Hsw.
      apply M_bind_Done in Hsw as (sw & w2 & Hsw & Hret).
      apply M_bind_Done in Hsw as (n & w3 & Hder & Hret').
      unfold deref in Hder. destruct (mem w !! nd); [|done].
      injection Hder as <- <-. apply M_ret_Done in Hret' as [_ <-].
      by apply M_ret_Done in Hret as [_ <-]. }
    unfold selfWeight_set in Hset.
    apply M_bind_Done in Hset as (n & w2 & Hder & Hstore).
    unfold deref in Hder. destruct (mem w1 !! nd) as [n0|] eqn:Hn0; [|done].
    injection Hder as -> <-. unfold store in Hstore. injection Hstore as <-.
    intros p. cbn [mem]. rewrite <- Hw1.
    destruct (decide (p = nd)) as [->|Hp].
    + rewrite Hn0, lookup_insert_eq. eexists. split; [done|]. simpl. split_and!; auto.
    + rewrite lookup_insert_ne by done. destruct (mem w1 !! p) as [m|]; [|done].
      exists m. split_and!; auto.
  - destruct DIRECTED; cbn [negb].
    + by apply addLink_grown.
    + intros ([] & w1 & H1 & H2)%M_bind_Done.
      apply (grown_trans _ _ w1);
        [eapply addLink_grown; [|exact H1]|eapply addLink_grown; [|exact H2]]; done.
Qed.

(** *** Well-formedness is kept *)

Lemma builder_wf_grown ns (idNodes : gmap Id NodePtr) w w' :
  builder_wf ns idNodes w → grown ns w w' → builder_wf ns idNodes w'.
Proof.
  intros [Hnd Hns Hids Hlinks] Hg. split.
  - done.
  - intros p Hp. apply (grown_is_Some _ _ _ _ Hg). by apply Hns.
  - intros i p Hi. destruct (Hids i p Hi) as [Hp Hid]. split; [done|].
    specialize (Hg p). destruct (mem w !! p) as [n|]; [|done].
    destruct Hg as (n' & -> & Hid' & _). simpl in *. congruence.
  - intros p n' l Hp Hn' Hl. specialize (Hg p).
    destruct (mem w !! p) as [n|] eqn:Hn; [|congruence].
    destruct Hg as (n'' & Hn'' & _ & _ & Hnew). simplify_eq.
    destruct (Hnew l Hl) as [Hold|]; [|done]. by eapply Hlinks.
Qed.

Lemma emplace_node_kept ns ns' (i : Id) (shuffle : bool) p w w' :
  emplace_node ns i shuffle w = Done ((ns', p), w') →
  nodes_kept w w' ∧ mem w' !! p = Some (Node_ctor i) ∧ mem w !! p = None
  ∧ ns' ≡ₚ p :: ns.
Proof.
  intros (-> & Hmem & Hns & _)%emplace_node_inv.
  pose proof (fresh_not_allocated w) as Hfresh. split_and!.
  - intros q n Hq. exists n. rewrite Hmem, lookup_insert_ne; [done|]. congruence.
  - by rewrite Hmem, lookup_insert_eq.
  - done.
  - destruct Hns as [->|[_ ->]]; [|done]. by rewrite Permutation_app_comm.
Qed.

Lemma builder_wf_emplace ns ns' (idNodes : gmap Id NodePtr) (i : Id) (shuffle : bool)
    p w w' :
  builder_wf ns idNodes w →
  emplace_node ns i shuffle w = Done ((ns', p), w') →
  builder_wf ns' (map_emplace i p idNodes).1 w'.
Proof.
  intros [Hnd Hns Hids Hlinks] Hem.
  pose proof (emplace_node_kept _ _ _ _ _ _ _ Hem) as (Hkept & Hnew & Hfresh & Hperm).
  apply emplace_node_inv in Hem as (_ & Hmem & _ & _).
  assert (Hp : p ∉ ns).
  { intros Hin. destruct (Hns p Hin) as [? ?]. congruence. }
  assert (Hold : ∀ q, q ∈ ns → mem w' !! q = mem w !! q).
  { intros q Hq. rewrite Hmem, lookup_insert_ne; [done|]. by intros ->. }
  assert (Hin : ∀ q, q ∈ ns' ↔ q = p ∨ q ∈ ns).
  { intros q. rewrite Hperm. apply elem_of_cons. }
  split.
  - rewrite Hperm. by apply NoDup_cons.
  - intros q [->|Hq]%Hin; [by rewrite Hnew|].
    rewrite Hold by done. by apply Hns.
  - intros j q. unfold map_emplace. destruct (idNodes !! i) eqn:Hi; simpl.
    + intros Hj. destruct (Hids j q Hj) as [Hq Hid].
      split; [apply Hin; by right|]. by rewrite Hold.
    + destruct (decide (i = j)) as [->|Hij].
      * rewrite lookup_insert_eq. intros [= <-].
        split; [apply Hin; by left|]. by rewrite Hnew.
      * rewrite lookup_insert_ne by done. intros Hj.
        destruct (Hids j q Hj) as [Hq Hid].
        split; [apply Hin; by right|]. by rewrite Hold.
  - intros q n l [->|Hq]%Hin.
    + rewrite Hnew. intros [= <-]. simpl. by intros ?%elem_of_nil.
    + rewrite Hold by done. intros Hn Hl. apply Hin. right. by eapply Hlinks.
Qed.

Lemma acsAddNodes_wf (NDEBUG shuffle : bool) (ids : list Id) ns ns'
    (idNodes idNodes' : gmap Id NodePtr) w w' :
  builder_wf ns idNodes w →
  acsAddNodes NDEBUG ns idNodes ids shuffle w = Done ((ns', idNodes'), w') →
  builder_wf ns' idNodes' w' ∧ nodes_kept w w'.
Proof.
  revert ns idNodes w. induction ids as [|i ids IH]; intros ns idNodes w Hwf.
  - simpl. intros [[= <- <-] <-]%M_ret_Done. split; [done|apply nodes_kept_refl].
  - cbn [acsAddNodes].
    intros ([ns1 p] & w1 & Hem & Hrest)%M_bind_Done.
    apply M_bind_Done in Hrest as ([] & w2 & Hassert & Hrest).
    assert (w2 = w1) as ->.
    { apply assert_Done in Hassert as [[_ ->]|[_ Hc]]; [done|].
      by apply M_ret_Done in Hc as [_ ->]. }
    destruct (IH _ _ _ (builder_wf_emplace _ _ _ _ _ _ _ _ Hwf Hem) Hrest) as [Hwf' Hkept].
    split; [done|]. eapply nodes_kept_trans; [|done].
    by apply emplace_node_kept in Hem as [? _].
Qed.

Lemma assert_msg NDEBUG (c : @M W bool) msg msg' w x :
  assert NDEBUG c msg w = Done x → assert NDEBUG c msg' w = Done x.
Proof.
  unfold assert. destruct NDEBUG; [done|].
  unfold mbind, M_mbind, M_bind. destruct (c w) as [[[] ?]| | |]; done.
Qed.

Lemma catch_unexistent_Done {A : Type} (dstId sid : Id) (body : @M W A) w x :
  catch_unexistent dstId sid body w = Done x → body w = Done x.
Proof. unfold catch_unexistent. by destruct (body w) as [?|[]| |]. Qed.

Lemma map_at_Done (idNodes : gmap Id NodePtr) (i : Id) w p w' :
  map_at idNodes i w = Done (p, w') → idNodes !! i = Some p ∧ w' = w.
Proof.
  unfold map_at. destruct (idNodes !! i); [|done]. by intros [[= ->] ->]%M_ret_Done.
Qed.

Lemma acsAddNodeLinks_loop_grown (NDEBUG DIRECTED WEIGHTED shuffle : bool) ns
    (idNodes : gmap Id NodePtr) (sid : Id) nd (lns : list (@InpLink W)) w w' :
  (∀ i p, idNodes !! i = Some p → p ∈ ns) → nd ∈ ns →
  acsAddNodeLinks_loop NDEBUG DIRECTED WEIGHTED idNodes sid nd lns shuffle w = Done ((), w') →
  grown ns w w'.
Proof.
  intros Hids Hnd. revert w. induction lns as [|ln lns IH]; intros w.
  - simpl. intros [_ <-]%M_ret_Done. apply grown_refl.
  - cbn [acsAddNodeLinks_loop].
    intros (dst & w1 & Hat & Hrest)%M_bind_Done.
    apply catch_unexistent_Done, map_at_Done in Hat as [Hdst ->].
    apply M_bind_Done in Hrest as ([] & w2 & Hlink & Hrest).
    eapply grown_trans; [|by apply IH].
    eapply acsAddNodeLink_grown; [done| |done]. by eapply Hids.
Qed.

Lemma acsAddNodeLinks_grown (NDEBUG DIRECTED WEIGHTED shuffle : bool) ns
    (idNodes : gmap Id NodePtr) (sid : Id) (lns : list (@InpLink W)) w w' :
  (∀ i p, idNodes !! i = Some p → p ∈ ns) →
  acsAddNodeLinks NDEBUG DIRECTED WEIGHTED idNodes sid lns shuffle w = Done ((), w') →
  grown ns w w'.
Proof.
  intros Hids. unfold acsAddNodeLinks.
  intros (nd & w1 & Hat & Hrest)%M_bind_Done.
  apply catch_unexistent_Done, map_at_Done in Hat as [Hnd ->].
  eapply acsAddNodeLinks_loop_grown; [done| |done]. by eapply Hids.
Qed.

Lemma find_or_add_inv ns ns' (idNodes idNodes' : gmap Id NodePtr) (i : Id)
    (shuffle : bool) (NDEBUG : bool) msg p w w' :
  find_or_add NDEBUG ns idNodes i shuffle msg w = Done ((ns', idNodes', p), w') →
  idNodes !! i = Some p ∧ ns' = ns ∧ idNodes' = idNodes ∧ w' = w
  ∨ idNodes !! i = None ∧ emplace_node ns i shuffle w = Done ((ns', p), w')
    ∧ idNodes' = <[i := p]> idNodes.
Proof.
  unfold find_or_add. destruct (idNodes !! i) as [q|] eqn:Hi.
  - intros [[= <- <- <-] <-]%M_ret_Done. by left.
  - intros ([ns1 p1] & w1 & Hem & Hrest)%M_bind_Done.
    apply M_bind_Done in Hrest as ([] & w2 & Hassert & Hret).
    unfold map_emplace in Hassert, Hret. rewrite Hi in Hassert, Hret.
    cbn [fst snd] in Hassert, Hret. rewrite lookup_insert_eq in Hret.
    apply M_ret_Done in Hret as [[= <- <- <-] <-].
    assert (w2 = w1) as ->.
    { apply assert_Done in Hassert as [[_ ->]|[_ Hc]]; [done|].
      by apply M_ret_Done in Hc as [_ ->]. }
    right. done.
Qed.

Lemma find_or_add_wf ns ns' (idNodes idNodes' : gmap Id NodePtr) (i : Id)
    (shuffle : bool) (NDEBUG : bool) msg p w w' :
  builder_wf ns idNodes w →
  find_or_add NDEBUG ns idNodes i shuffle msg w = Done ((ns', idNodes', p), w') →
  builder_wf ns' idNodes' w' ∧ nodes_kept w w' ∧ ns ⊆ ns' ∧ idNodes ⊆ idNodes'
  ∧ idNodes' !! i = Some p.
Proof.
  intros Hwf [(Hi & -> & -> & ->)|(Hi & Hem & ->)]%find_or_add_inv.
  - split_and!; try done. apply nodes_kept_refl.
  - pose proof (builder_wf_emplace _ _ _ _ _ _ _ _ Hwf Hem) as Hwf'.
    unfold map_emplace in Hwf'. rewrite Hi in Hwf'.
    apply emplace_node_kept in Hem as (Hkept & _ & _ & Hperm).
    split_and!; try done.
    + intros q Hq. rewrite Hperm. by right.
    + by apply insert_subseteq.
    + by rewrite lookup_insert_eq.
Qed.

Lemma builder_wf_in ns (idNodes : gmap Id NodePtr) w i p :
  builder_wf ns idNodes w → idNodes !! i = Some p → p ∈ ns.
Proof. intros Hwf Hi. by destruct (wf_ids _ _ _ Hwf i p Hi). Qed.

Lemma acsAddNodeAndLinks_loop_wf (NDEBUG DIRECTED WEIGHTED shuffle : bool) ns ns'
    (idNodes idNodes' : gmap Id NodePtr) ind (lns : list (@InpLink W)) w w' :
  builder_wf ns idNodes w → ind ∈ ns →
  acsAddNodeAndLinks_loop NDEBUG DIRECTED WEIGHTED ns idNodes ind lns shuffle w
    = Done ((ns', idNodes'), w') →
  builder_wf ns' idNodes' w' ∧ nodes_kept w w' ∧ ns ⊆ ns' ∧ idNodes ⊆ idNodes'.
Proof.
  revert ns idNodes w. induction lns as [|ln lns IH]; intros ns idNodes w Hwf Hind.
  - simpl. intros [[= <- <-] <-]%M_ret_Done. split_and!; try done. apply nodes_kept_refl.
  - cbn [acsAddNodeAndLinks_loop].
    intros ([[ns1 idn1] idst] & w1 & Hfind & Hrest)%M_bind_Done.
    apply M_bind_Done in Hrest as ([] & w2 & Hlink & Hrest).
    destruct (find_or_add_wf _ _ _ _ _ _ _ _ _ _ _ Hwf Hfind)
      as (Hwf1 & Hkept1 & Hsub1 & Hidn1 & Hidst).
    assert (Hg : grown ns1 w1 w2).
    { eapply acsAddNodeLink_grown; [by apply Hsub1| |done]. by eapply builder_wf_in. }
    destruct (IH ns1 idn1 w2) as (Hwf' & Hkept' & Hsub' & Hidn'); [| |done|].
    + by eapply builder_wf_grown.
    + by apply Hsub1.
    + split_and!; [done| |by etrans|by etrans].
      eapply nodes_kept_trans; [done|]. eapply nodes_kept_trans; [|done].
      by eapply grown_nodes_kept.
Qed.

Lemma acsAddNodeAndLinks_wf (NDEBUG DIRECTED WEIGHTED shuffle : bool) ns ns'
    (idNodes idNodes' : gmap Id NodePtr) (sid : Id) (lns : list (@InpLink W)) w w' :
  builder_wf ns idNodes w →
  acsAddNodeAndLinks NDEBUG DIRECTED WEIGHTED ns idNodes sid lns shuffle w
    = Done ((ns', idNodes'), w') →
  builder_wf ns' idNodes' w' ∧ nodes_kept w w' ∧ ns ⊆ ns' ∧ idNodes ⊆ idNodes'.
Proof.
  intros Hwf. unfold acsAddNodeAndLinks.
  intros ([[ns1 idn1] ind] & w1 & Hfind & Hrest)%M_bind_Done.
  destruct (find_or_add_wf _ _ _ _ _ _ _ _ _ _ _ Hwf Hfind)
    as (Hwf1 & Hkept1 & Hsub1 & Hidn1 & Hind).
  destruct (acsAddNodeAndLinks_loop_wf _ _ _ _ _ _ _ _ _ _ _ _ Hwf1
              (builder_wf_in _ _ _ _ _ Hwf1 Hind) Hrest) as (Hwf' & Hkept' & Hsub' & Hidn').
  split_and!; [done|by eapply nodes_kept_trans|by etrans|by etrans].
Qed.

Lemma addNodes_range_loop_Done (NDEBUG shuffle : bool) (ids : list Id) ns
    (idNodes : gmap Id NodePtr) w x :
  addNodes_range_loop NDEBUG ns idNodes ids shuffle w = Done x →
  acsAddNodes NDEBUG ns idNodes ids shuffle w = Done x.
Proof.
  revert ns idNodes w. induction ids as [|i ids IH]; intros ns idNodes w; [done|].
  cbn [addNodes_range_loop acsAddNodes]. destruct x as [r w'].
  intros ([ns1 p] & w1 & Hem & Hrest)%M_bind_Done.
  apply M_bind_Done in Hrest as ([] & w2 & Hassert & Hrest).
  unfold mbind, M_mbind, M_bind. rewrite Hem.
  rewrite (assert_msg _ _ _ "acsAddNodes(), input node is duplicated" _ _ Hassert).
  by apply IH.
Qed.

Lemma validateExtension_Done (g : Graph) w x :
  validateExtension g w = Done x → m_finalized g = false ∧ x = ((), w).
Proof.
  unfold validateExtension. destruct (m_finalized g); [done|].
  by intros [= <-].
Qed.

(** The mutators of [Graph], when they return. *)
Lemma addNodes_inv (NDEBUG : bool) (ids : list Id) (g g' : Graph) w w' :
  addNodes NDEBUG ids g w = Done (g', w') →
  m_finalized g = false
  ∧ ∃ ns idn, acsAddNodes NDEBUG (nodes g) (m_idNodes g) ids (m_shuffle g) w
               = Done ((ns, idn), w')
              ∧ g' = with_nodes g ns idn.
Proof.
  unfold addNodes. intros ([] & w1 & [Hfin [= <-]]%validateExtension_Done & Hrest)%M_bind_Done.
  split; [done|].
  apply M_bind_Done in Hrest as ([ns idn] & w2 & Hadd & [<- <-]%M_ret_Done).
  by exists ns, idn.
Qed.

Lemma addNodes_range_inv (NDEBUG : bool) (idBeg idEnd : Id) (g g' : Graph) w w' :
  addNodes_range NDEBUG idBeg idEnd g w = Done (g', w') →
  m_finalized g = false ∧ idBeg ≤ idEnd
  ∧ ∃ ns idn, acsAddNodes NDEBUG (nodes g) (m_idNodes g) (seqZ idBeg (idEnd - idBeg))
                (m_shuffle g) w = Done ((ns, idn), w')
              ∧ g' = with_nodes g ns idn.
Proof.
  unfold addNodes_range.
  intros ([] & w1 & [Hfin [= <-]]%validateExtension_Done & Hrest)%M_bind_Done.
  split; [done|]. destruct (idEnd <? idBeg) eqn:Hlt; [done|].
  apply Z.ltb_ge in Hlt. split; [done|].
  apply M_bind_Done in Hrest as ([ns idn] & w2 & Hadd & [<- <-]%M_ret_Done).
  exists ns, idn. split; [|done]. by apply addNodes_range_loop_Done.
Qed.

Lemma addNodeLinks_inv (NDEBUG WEIGHTED DIRECTED : bool) (node : Id)
    (lns : list (@InpLink W)) (g g' : Graph) w w' :
  addNodeLinks NDEBUG WEIGHTED DIRECTED node lns g w = Done (g', w') →
  m_finalized g = false
  ∧ acsAddNodeLinks NDEBUG DIRECTED WEIGHTED (m_idNodes g) node lns (m_shuffle g) w
    = Done ((), w')
  ∧ g' = with_directed g (m_directed g || DIRECTED).
Proof.
  unfold addNodeLinks.
  intros ([] & w1 & [Hfin [= <-]]%validateExtension_Done & Hrest)%M_bind_Done.
  split; [done|].
  apply M_bind_Done in Hrest as ([] & w2 & Hadd & [<- <-]%M_ret_Done). done.
Qed.

Lemma addNodeAndLinks_inv (NDEBUG WEIGHTED DIRECTED : bool) (node : Id)
    (lns : list (@InpLink W)) (g g' : Graph) w w' :
  addNodeAndLinks NDEBUG WEIGHTED DIRECTED node lns g w = Done (g', w') →
  m_finalized g = false
  ∧ ∃ ns idn,
      acsAddNodeAndLinks NDEBUG DIRECTED WEIGHTED (nodes g) (m_idNodes g) node lns
        (m_shuffle g) w = Done ((ns, idn), w')
      ∧ g' = with_nodes (with_directed g (m_directed g || DIRECTED)) ns idn.
Proof.
  unfold addNodeAndLinks.
  intros ([] & w1 & [Hfin [= <-]]%validateExtension_Done & Hrest)%M_bind_Done.
  split; [done|].
  apply M_bind_Done in Hrest as ([ns idn] & w2 & Hadd & [<- <-]%M_ret_Done).
  by exists ns, idn.
Qed.

(** X1. Every mutator of [Graph] keeps the graph well formed: whenever it
    returns, the node list has no repetition, the id map and the links
    point to nodes of the list, and the nodes of the map carry their ids.
    [reinit] and [finalize] do so too. *)
Theorem Graph_wf_invariant (NDEBUG WEIGHTED DIRECTED : bool) (g : Graph) (w : @World W) :
  Graph_wf g w →
  (∀ ids g' w', addNodes NDEBUG ids g w = Done (g', w') → Graph_wf g' w')
  ∧ (∀ idBeg idEnd g' w',
       addNodes_range NDEBUG idBeg idEnd g w = Done (g', w') → Graph_wf g' w')
  ∧ (∀ node lns g' w',
       addNodeLinks NDEBUG WEIGHTED DIRECTED node lns g w = Done (g', w') → Graph_wf g' w')
  ∧ (∀ node lns g' w',
       addNodeAndLinks NDEBUG WEIGHTED DIRECTED node lns g w = Done (g', w') →
       Graph_wf g' w')
  ∧ (∀ nodesNum shuffle g' w',
       reinit nodesNum shuffle g w = Done (g', w') → Graph_wf g' w')
  ∧ Graph_wf (finalize g).1 w.
Proof.
  intros Hwf. split_and!.
  - intros ids g' w' (_ & ns & idn & Hadd & ->)%addNodes_inv.
    by destruct (acsAddNodes_wf _ _ _ _ _ _ _ _ _ Hwf Hadd).
  - intros b e g' w' (_ & _ & ns & idn & Hadd & ->)%addNodes_range_inv.
    by destruct (acsAddNodes_wf _ _ _ _ _ _ _ _ _ Hwf Hadd).
  - intros node lns g' w' (_ & Hadd & ->)%addNodeLinks_inv.
    eapply (builder_wf_grown (nodes g)); [done|].
    eapply acsAddNodeLinks_grown; [|done]. intros i p. by eapply builder_wf_in.
  - intros node lns g' w' (_ & ns & idn & Hadd & ->)%addNodeAndLinks_inv.
    by destruct (acsAddNodeAndLinks_wf _ _ _ _ _ _ _ _ _ _ _ _ Hwf Hadd).
  - intros n s g' w'. unfold reinit, srand_time.
    intros ([] & w1 & _ & Hrest)%M_bind_Done.
    apply M_bind_Done in Hrest as ([] & w2 & _ & [<- _]%M_ret_Done).
    split; simpl; try done.
    + apply NoDup_nil_2.
    + by intros p ?%elem_of_nil.
    + by intros p n0 l ?%elem_of_nil.
  - destruct Hwf as [Hnd Hns Hids Hlinks]. split; simpl; done.
Qed.

(** X2. No mutator of [Graph] removes a link, changes the order of the links
    of a node or changes the id of a node. *)
Theorem Graph_mutators_keep_nodes (NDEBUG WEIGHTED DIRECTED : bool) (g : Graph)
    (w : @World W) :
  Graph_wf g w →
  (∀ ids g' w', addNodes NDEBUG ids g w = Done (g', w') → nodes_kept w w')
  ∧ (∀ idBeg idEnd g' w',
       addNodes_range NDEBUG idBeg idEnd g w = Done (g', w') → nodes_kept w w')
  ∧ (∀ node lns g' w',
       addNodeLinks NDEBUG WEIGHTED DIRECTED node lns g w = Done (g', w') → nodes_kept w w')
  ∧ (∀ node lns g' w',
       addNodeAndLinks NDEBUG WEIGHTED DIRECTED node lns g w = Done (g', w') →
       nodes_kept w w').
Proof.
  intros Hwf. split_and!.
  - intros ids g' w' (_ & ns & idn & Hadd & ->)%addNodes_inv.
    by destruct (acsAddNodes_wf _ _ _ _ _ _ _ _ _ Hwf Hadd).
  - intros b e g' w' (_ & _ & ns & idn & Hadd & ->)%addNodes_range_inv.
    by destruct (acsAddNodes_wf _ _ _ _ _ _ _ _ _ Hwf Hadd).
  - intros node lns g' w' (_ & Hadd & ->)%addNodeLinks_inv.
    eapply (grown_nodes_kept (nodes g)).
    eapply acsAddNodeLinks_grown; [|done]. intros i p. by eapply builder_wf_in.
  - intros node lns g' w' (_ & ns & idn & Hadd & ->)%addNodeAndLinks_inv.
    by destruct (acsAddNodeAndLinks_wf _ _ _ _ _ _ _ _ _ _ _ _ Hwf Hadd) as (_ & ? & _).
Qed.

(** *** New nodes can be looked up *)

Lemma assert_true NDEBUG msg w :
  assert NDEBUG (mret true) msg w = Done ((), w).
Proof. unfold assert. by destruct NDEBUG. Qed.

Lemma acsAddNodes_fresh (NDEBUG shuffle : bool) (ids : list Id) ns
    (idNodes : gmap Id NodePtr) w :
  builder_wf ns idNodes w → NoDup ids → (∀ i, i ∈ ids → idNodes !! i = None) →
  ∃ ns' idNodes' w',
    acsAddNodes NDEBUG ns idNodes ids shuffle w = Done ((ns', idNodes'), w')
    ∧ (∀ i, i ∈ ids →
         ∃ p, idNodes' !! i = Some p ∧ mem w' !! p = Some (Node_ctor i) ∧ p ∉ ns)
    ∧ (∀ i, i ∉ ids → idNodes' !! i = idNodes !! i)
    ∧ (∀ p n, mem w !! p = Some n → mem w' !! p = Some n)
    ∧ (λ p, id <$> mem w' !! p) <$> ns'
      ≡ₚ ((λ p, id <$> mem w !! p) <$> ns) ++ (Some <$> ids)
    ∧ (shuffle = false →
       (λ p, id <$> mem w' !! p) <$> ns'
       = ((λ p, id <$> mem w !! p) <$> ns) ++ (Some <$> ids)
       ∧ rng w' = rng w).
Proof.
  revert ns idNodes w. induction ids as [|i ids IH]; intros ns idNodes w Hwf Hnd Hnew.
  - exists ns, idNodes, w. split; [done|]. split_and!.
    + by intros i ?%elem_of_nil.
    + done.
    + done.
    + by rewrite app_nil_r.
    + by rewrite app_nil_r.
  - apply NoDup_cons in Hnd as [Hi Hnd].
    destruct (emplace_node ns i shuffle w) as [[[ns1 p] w1]| | |] eqn:Hem;
      try (unfold emplace_node, alloc_node, rand, mbind, mret, M_mbind, M_mret, M_bind,
             M_ret in Hem; by destruct shuffle).
    pose proof (builder_wf_emplace _ _ _ _ _ _ _ _ Hwf Hem) as Hwf1.
    pose proof (emplace_node_kept _ _ _ _ _ _ _ Hem) as (_ & Hp1 & Hp0 & _).
    pose proof (emplace_node_inv _ _ _ _ _ _ _ Hem) as (_ & Hmem1 & Hns1 & Hrng1).
    assert (Hmap : map_emplace i p idNodes = (<[i := p]> idNodes, true)).
    { unfold map_emplace. rewrite Hnew; [done|by left]. }
    rewrite Hmap in Hwf1. cbn [fst] in Hwf1.
    assert (Hpns : p ∉ ns).
    { intros Hin. destruct (wf_nodes _ _ _ Hwf p Hin). congruence. }
    assert (Hold : ∀ q n, mem w !! q = Some n → mem w1 !! q = Some n).
    { intros q n Hq. rewrite Hmem1, lookup_insert_ne; [done|]. congruence. }
    assert (Hids1 : (λ q, id <$> mem w1 !! q) <$> ns = (λ q, id <$> mem w !! q) <$> ns).
    { apply list_fmap_ext. intros k q Hq.
      destruct (wf_nodes _ _ _ Hwf q) as [n Hn]; [by eapply list_elem_of_lookup_2|].
      by rewrite Hn, (Hold q n Hn). }
    destruct (IH ns1 (<[i := p]> idNodes) w1 Hwf1 Hnd)
      as (ns' & idn' & w' & Hrun & Hlook & Hother & Hkeep & Hperm & Hback).
    { intros j Hj. rewrite lookup_insert_ne; [|by intros ->]. apply Hnew. by right. }
    exists ns', idn', w'. split.
    { cbn [acsAddNodes]. unfold mbind, M_mbind, M_bind. rewrite Hem, Hmap.
      cbn [fst snd]. by rewrite assert_true. }
    split_and!.
    + intros j [->|Hj]%elem_of_cons.
      * exists p. rewrite Hother by done. rewrite lookup_insert_eq.
        split; [done|]. split; [by apply Hkeep|done].
      * destruct (Hlook j Hj) as (q & Hq & Hqn & Hq1). exists q.
        split; [done|]. split; [done|]. intros Hin. apply Hq1.
        destruct Hns1 as [->|[_ ->]]; [apply elem_of_app; by left|by right].
    + intros j [Hji Hj]%not_elem_of_cons. rewrite Hother by done.
      by rewrite lookup_insert_ne.
    + intros q n Hq. by apply Hkeep, Hold.
    + rewrite Hperm. destruct Hns1 as [->|[_ ->]].
      * rewrite fmap_app, Hids1. simpl. rewrite Hp1. simpl.
        by rewrite <- app_assoc.
      * rewrite fmap_cons, Hids1, Hp1. simpl.
        by rewrite <- Permutation_middle.
    + intros ->. destruct (Hback eq_refl) as [Heq Hrng]. rewrite Heq.
      destruct Hns1 as [->|[? _]]; [|done].
      rewrite fmap_app, Hids1. simpl. rewrite Hp1. simpl.
      rewrite <- app_assoc. split; [done|]. rewrite Hrng. by apply Hrng1.
Qed.

Lemma addNodes_range_loop_acs (NDEBUG shuffle : bool) (ids : list Id) ns
    (idNodes : gmap Id NodePtr) w x :
  acsAddNodes NDEBUG ns idNodes ids shuffle w = Done x →
  addNodes_range_loop NDEBUG ns idNodes ids shuffle w = Done x.
Proof.
  revert ns idNodes w. induction ids as [|i ids IH]; intros ns idNodes w; [done|].
  cbn [addNodes_range_loop acsAddNodes]. destruct x as [r w'].
  intros ([ns1 p] & w1 & Hem & Hrest)%M_bind_Done.
  apply M_bind_Done in Hrest as ([] & w2 & Hassert & Hrest).
  unfold mbind, M_mbind, M_bind. rewrite Hem.
  rewrite (assert_msg _ _ _ "addNodes(), input node is duplicated" _ _ Hassert).
  by apply IH.
Qed.

(** The nodes that [addNodes] makes for new ids. *)
Lemma addNodes_new_nodes (NDEBUG : bool) (ids : list Id) (g : Graph) (w : @World W) :
  Graph_wf g w → m_finalized g = false →
  NoDup ids → (∀ i, i ∈ ids → m_idNodes g !! i = None) →
  ∃ g' w',
    addNodes NDEBUG ids g w = Done (g', w')
    ∧ (∀ i, i ∈ ids →
         ∃ p, m_idNodes g' !! i = Some p ∧ mem w' !! p = Some (Node_ctor i)
              ∧ p ∈ nodes g' ∧ p ∉ nodes g)
    ∧ (∀ i, i ∉ ids → m_idNodes g' !! i = m_idNodes g !! i)
    ∧ (∀ p n, mem w !! p = Some n → mem w' !! p = Some n)
    ∧ node_ids g' w' ≡ₚ node_ids g w ++ (Some <$> ids)
    ∧ (m_shuffle g = false →
       node_ids g' w' = node_ids g w ++ (Some <$> ids) ∧ rng w' = rng w).
Proof.
  intros Hwf Hfin Hnd Hnew.
  destruct (acsAddNodes_fresh NDEBUG (m_shuffle g) ids _ _ _ Hwf Hnd Hnew)
    as (ns' & idn' & w' & Hrun & Hlook & Hother & Hkeep & Hperm & Hback).
  destruct (acsAddNodes_wf _ _ _ _ _ _ _ _ _ Hwf Hrun) as [Hwf' _].
  exists (with_nodes g ns' idn'), w'. split.
  { unfold addNodes, validateExtension. rewrite Hfin.
    unfold mbind, M_mbind, M_bind, mret at 1, M_mret, M_ret. by rewrite Hrun. }
  split_and!; try done.
  intros i Hi. destruct (Hlook i Hi) as (p & Hp & Hn & Hpns). exists p.
  split_and!; try done. simpl. by eapply builder_wf_in.
Qed.

(** X3. [addNodes] with ids that are new and pairwise different: the call
    returns, every id is mapped to a node of its own that carries the id and
    has no links and no self weight, the other ids are mapped as before, no
    existing node changes, and the node list has the new nodes besides the
    old ones, at its back and in the order of the ids when shuffling is
    off. *)
Theorem addNodes_lookup (NDEBUG : bool) (ids : list Id) (g : Graph) (w : @World W) :
  Graph_wf g w → m_finalized g = false →
  NoDup ids → (∀ i, i ∈ ids → m_idNodes g !! i = None) →
  ∃ g' w',
    addNodes NDEBUG ids g w = Done (g', w')
    ∧ (∀ i, i ∈ ids →
         ∃ p, m_idNodes g' !! i = Some p ∧ mem w' !! p = Some (Node_ctor i)
              ∧ p ∈ nodes g' ∧ p ∉ nodes g)
    ∧ (∀ i, i ∉ ids → m_idNodes g' !! i = m_idNodes g !! i)
    ∧ (∀ p n, mem w !! p = Some n → mem w' !! p = Some n)
    ∧ node_ids g' w' ≡ₚ node_ids g w ++ (Some <$> ids)
    ∧ (m_shuffle g = false →
       node_ids g' w' = node_ids g w ++ (Some <$> ids) ∧ rng w' = rng w).
Proof. apply addNodes_new_nodes. Qed.

(** X4. [addNodes(idBeg, idEnd)]: an end below the beginning is refused with
    [domain_error]; otherwise, when the ids of the range are new, the call
    adds one node for each id of [idBeg, idEnd), as [addNodes] does for the
    list of these ids. *)
Theorem addNodes_range_lookup (NDEBUG : bool) (idBeg idEnd : Id) (g : Graph)
    (w : @World W) :
  Graph_wf g w → m_finalized g = false →
  (∀ i, idBeg ≤ i < idEnd → m_idNodes g !! i = None) →
  if idEnd <? idBeg
  then addNodes_range NDEBUG idBeg idEnd g w
       = Thrown (domain_error ("addNodes(), idEnd must be >= idBeg"
                               +:+ String "010"%char EmptyString))
  else
    ∃ g' w',
      addNodes_range NDEBUG idBeg idEnd g w = Done (g', w')
      ∧ addNodes NDEBUG (seqZ idBeg (idEnd - idBeg)) g w = Done (g', w')
      ∧ (∀ i, idBeg ≤ i < idEnd →
           ∃ p, m_idNodes g' !! i = Some p ∧ mem w' !! p = Some (Node_ctor i)
                ∧ p ∈ nodes g' ∧ p ∉ nodes g)
      ∧ (∀ i, ¬ (idBeg ≤ i < idEnd) → m_idNodes g' !! i = m_idNodes g !! i)
      ∧ length (nodes g') = (length (nodes g) + Z.to_nat (idEnd - idBeg))%nat.
Proof.
  intros Hwf Hfin Hnew. destruct (idEnd <? idBeg) eqn:Hlt.
  - unfold addNodes_range, validateExtension. rewrite Hfin.
    unfold mbind, M_mbind, M_bind, mret at 1, M_mret, M_ret. by rewrite Hlt.
  - apply Z.ltb_ge in Hlt.
    assert (Hin : ∀ i, i ∈ seqZ idBeg (idEnd - idBeg) ↔ idBeg ≤ i < idEnd).
    { intros i. rewrite elem_of_seqZ. lia. }
    destruct (addNodes_new_nodes NDEBUG (seqZ idBeg (idEnd - idBeg)) g w Hwf Hfin)
      as (g' & w' & Hrun & Hlook & Hother & _ & Hperm & _).
    { apply NoDup_seqZ. }
    { intros i Hi. by apply Hnew, Hin. }
    exists g', w'. split_and!.
    + pose proof Hrun as (_ & ns & idn & Hacs & ->)%addNodes_inv.
      unfold addNodes_range, validateExtension. rewrite Hfin.
      unfold mbind, M_mbind, M_bind, mret at 1, M_mret, M_ret.
      apply Z.ltb_ge in Hlt. rewrite Hlt.
      by rewrite (addNodes_range_loop_acs _ _ _ _ _ _ _ Hacs).
    + done.
    + intros i Hi. by apply Hlook, Hin.
    + intros i Hi. apply Hother. by rewrite Hin.
    + apply Permutation_length in Hperm. unfold node_ids in Hperm.
      rewrite length_app, !length_fmap, length_seqZ in Hperm. done.
Qed.

(** *** A finalized graph *)

(** X5. After [finalize] every mutator throws [domain_error] with the text of
    [validateExtension], which names [addNodes] whatever the mutator is;
    [finalize] hands out the node list as it is; and [reinit] does not make
    the graph extensible again. *)
Theorem finalize_blocks_extension (NDEBUG WEIGHTED DIRECTED : bool) (g : Graph)
    (w : @World W) (ids : list Id) (idBeg idEnd node : Id) (lns : list (@InpLink W))
    (nodesNum : Id) (shuffle : bool) :
  (finalize g).2 = nodes g
  ∧ addNodes NDEBUG ids (finalize g).1 w = Thrown finalized_error
  ∧ addNodes_range NDEBUG idBeg idEnd (finalize g).1 w = Thrown finalized_error
  ∧ addNodeLinks NDEBUG WEIGHTED DIRECTED node lns (finalize g).1 w = Thrown finalized_error
  ∧ addNodeAndLinks NDEBUG WEIGHTED DIRECTED node lns (finalize g).1 w
    = Thrown finalized_error
  ∧ ∃ g' w',
      reinit nodesNum shuffle (finalize g).1 w = Done (g', w')
      ∧ addNodes NDEBUG ids g' w' = Thrown finalized_error.
Proof.
  split_and!; try done.
  eexists _, _. split; [reflexivity|]. done.
Qed.

(** *** [addNodeAndLinks] *)

Lemma find_or_add_known (NDEBUG shuffle : bool) ns (idNodes : gmap Id NodePtr) (i : Id)
    msg p w :
  idNodes !! i = Some p →
  find_or_add NDEBUG ns idNodes i shuffle msg w = Done ((ns, idNodes, p), w).
Proof. intros Hi. unfold find_or_add. by rewrite Hi. Qed.

Lemma acsAddNodeAndLinks_loop_known (NDEBUG DIRECTED WEIGHTED shuffle : bool) ns
    (idNodes : gmap Id NodePtr) (sid : Id) ind (lns : list (@InpLink W)) w :
  (∀ i, i ∈ inp_id <$> lns → is_Some (idNodes !! i)) →
  acsAddNodeAndLinks_loop NDEBUG DIRECTED WEIGHTED ns idNodes ind lns shuffle w
  = (acsAddNodeLinks_loop NDEBUG DIRECTED WEIGHTED idNodes sid ind lns shuffle;;
     mret (ns, idNodes)) w.
Proof.
  revert w. induction lns as [|ln lns IH]; intros w Hin; [done|].
  destruct (Hin (inp_id ln)) as [dst Hdst]; [rewrite fmap_cons; by left|].
  cbn [acsAddNodeAndLinks_loop acsAddNodeLinks_loop].
  unfold mbind, M_mbind, M_bind.
  rewrite (find_or_add_known _ _ _ _ _ _ _ _ Hdst).
  unfold catch_unexistent, map_at. rewrite Hdst.
  change ((mret dst : @M W NodePtr) w) with (Done (dst, w) : Outcome (NodePtr * @World W)).
  cbv beta iota.
  destruct (acsAddNodeLink NDEBUG DIRECTED WEIGHTED ind dst (inp_weight ln) shuffle w)
    as [[[] w1]| | |]; try done.
  rewrite IH; [done|]. intros i Hi. apply Hin. rewrite fmap_cons. by right.
Qed.

(** X6. When the source and all destinations exist already, [addNodeAndLinks]
    does what [addNodeLinks] does, whatever the flags and the oracle are. *)
Theorem addNodeAndLinks_known_ids (NDEBUG WEIGHTED DIRECTED : bool) (node : Id)
    (lns : list (@InpLink W)) (g : Graph) (w : @World W) :
  (∀ i, i ∈ node :: (inp_id <$> lns) → is_Some (m_idNodes g !! i)) →
  addNodeAndLinks NDEBUG WEIGHTED DIRECTED node lns g w
  = addNodeLinks NDEBUG WEIGHTED DIRECTED node lns g w.
Proof.
  intros Hin. destruct (Hin node) as [nd Hnd]; [by left|].
  unfold addNodeAndLinks, addNodeLinks, validateExtension.
  destruct (m_finalized g); [done|].
  unfold mbind at 1 3. unfold M_mbind, M_bind, mret at 1 3, M_mret, M_ret.
  unfold acsAddNodeAndLinks, acsAddNodeLinks. cbn [m_idNodes nodes with_directed m_shuffle].
  unfold mbind at 1 2 3 4. unfold M_mbind, M_bind.
  rewrite (find_or_add_known _ _ _ _ _ _ _ _ Hnd).
  unfold catch_unexistent, map_at. rewrite Hnd.
  change ((mret nd : @M W NodePtr) w) with (Done (nd, w) : Outcome (NodePtr * @World W)).
  cbv beta iota.
  rewrite (acsAddNodeAndLinks_loop_known _ _ _ _ _ _ node).
  - unfold mbind, M_mbind, M_bind.
    by destruct (acsAddNodeLinks_loop _ _ _ _ _ _ _ _ _) as [[[] w1]| | |].
  - intros i Hi. apply Hin. by right.
Qed.

Lemma builder_wf_inj ns (idNodes : gmap Id NodePtr) w (i j : Id) p :
  builder_wf ns idNodes w → idNodes !! i = Some p → idNodes !! j = Some p → i = j.
Proof.
  intros Hwf Hi Hj.
  destruct (wf_ids _ _ _ Hwf i p Hi) as [_ Hi'].
  destruct (wf_ids _ _ _ Hwf j p Hj) as [_ Hj']. congruence.
Qed.

Lemma acsAddNodeLink_rng (NDEBUG DIRECTED WEIGHTED : bool) nd dst wgt w w' :
  acsAddNodeLink NDEBUG DIRECTED WEIGHTED nd dst wgt false w = Done ((), w') →
  rng w' = rng w.
Proof.
  unfold acsAddNodeLink. destruct (decide (dst = nd)) as [->|Hne].
  - intros ([] & w1 & Hassert & Hset)%M_bind_Done.
    assert (Hw1 : w1 = w).
    { apply assert_Done in Hassert as [[_ ->]|[_ Hsw]]; [done|].
      unfold selfWeight in Hsw.
      apply M_bind_Done in Hsw as (sw & w2 & Hsw & Hret).
      apply M_bind_Done in Hsw as (n & w3 & Hder & Hret').
      unfold deref in Hder. destruct (mem w !! nd); [|done].
      injection Hder as <- <-. apply M_ret_Done in Hret' as [_ <-].
      by apply M_ret_Done in Hret as [_ <-]. }
    subst w1. unfold selfWeight_set in Hset.
    apply M_bind_Done in Hset as (n & w2 & Hder & Hstore).
    unfold deref in Hder. destruct (mem w !! nd) as [n0|] eqn:Hn0; [|done].
    injection Hder as -> <-. unfold store in Hstore. by injection Hstore as <-.
  - destruct DIRECTED; cbn [negb].
    + intros (n & k & _ & _ & Hrng & _)%addLink_inv. by destruct Hrng.
    + intros ([] & w1 & H1 & H2)%M_bind_Done.
      apply addLink_inv in H1 as (n1 & k1 & _ & _ & Hrng1 & _).
      apply addLink_inv in H2 as (n2 & k2 & _ & _ & Hrng2 & _).
      destruct Hrng1, Hrng2; congruence.
Qed.

Lemma find_or_add_returns (NDEBUG : bool) ns (idNodes : gmap Id NodePtr) (i : Id) msg w :
  builder_wf ns idNodes w →
  ∃ ns' idNodes' p w',
    find_or_add NDEBUG ns idNodes i false msg w = Done ((ns', idNodes', p), w')
    ∧ builder_wf ns' idNodes' w'
    ∧ idNodes ⊆ idNodes' ∧ idNodes' !! i = Some p
    ∧ dom idNodes' = dom idNodes ∪ {[ i ]}
    ∧ ns `prefix_of` ns'
    ∧ rng w' = rng w.
Proof.
  intros Hwf. unfold find_or_add. destruct (idNodes !! i) as [p|] eqn:Hi.
  - exists ns, idNodes, p, w. split_and!; try done.
    apply set_eq. intros j. rewrite elem_of_union, elem_of_singleton, !elem_of_dom.
    split; [by left|]. intros [?| ->]; [done|by eexists].
  - pose proof (emplace_node_back ns i w) as Hem.
    pose proof (builder_wf_emplace _ _ _ _ _ _ _ _ Hwf Hem) as Hwf'.
    unfold map_emplace in Hwf'. rewrite Hi in Hwf'. cbn [fst] in Hwf'.
    unfold map_emplace. rewrite Hi. cbn [fst snd].
    eexists _, _, _, _. split.
    { unfold mbind, M_mbind, M_bind. rewrite Hem. rewrite assert_true.
      rewrite lookup_insert_eq. reflexivity. }
    split_and!; try done.
    + by apply insert_subseteq.
    + by rewrite lookup_insert_eq.
    + rewrite dom_insert_L. apply (comm_L (∪)).
    + by apply prefix_app_r.
Qed.

Lemma acsAddNodeAndLinks_loop_returns (NDEBUG DIRECTED WEIGHTED : bool) ns
    (idNodes : gmap Id NodePtr) (sid : Id) ind (lns : list (@InpLink W)) w :
  builder_wf ns idNodes w → idNodes !! sid = Some ind →
  NDEBUG = true ∨ sid ∉ inp_id <$> lns →
  ∃ ns' idNodes' w',
    acsAddNodeAndLinks_loop NDEBUG DIRECTED WEIGHTED ns idNodes ind lns false w
      = Done ((ns', idNodes'), w')
    ∧ idNodes ⊆ idNodes'
    ∧ dom idNodes' = dom idNodes ∪ list_to_set (inp_id <$> lns)
    ∧ ns `prefix_of` ns'
    ∧ rng w' = rng w.
Proof.
  revert ns idNodes w. induction lns as [|ln lns IH]; intros ns idNodes w Hwf Hind Hself.
  - exists ns, idNodes, w. split_and!; try done.
    simpl. by rewrite (right_id_L ∅ (∪)).
  - destruct (find_or_add_returns NDEBUG ns idNodes (inp_id ln)
                "acsAddNodeAndLinks(), duplicated input nodes in links" w Hwf)
      as (ns1 & idn1 & idst & w1 & Hfind & Hwf1 & Hsub1 & Hidst & Hdom1 & Hpre1 & Hrng1).
    assert (Hind1 : idn1 !! sid = Some ind) by (by eapply lookup_weaken).
    destruct (acsAddNodeLink_returns NDEBUG DIRECTED WEIGHTED ind idst (inp_weight ln) w1)
      as (w2 & Hlink & Hdom2).
    { apply (wf_nodes _ _ _ Hwf1). by eapply builder_wf_in. }
    { apply (wf_nodes _ _ _ Hwf1). by eapply builder_wf_in. }
    { destruct Hself as [|Hself]; [by left|right]. intros ->.
      apply Hself. rewrite fmap_cons. apply elem_of_cons. left.
      exact (builder_wf_inj _ _ _ _ _ _ Hwf1 Hind1 Hidst). }
    assert (Hg : grown ns1 w1 w2).
    { eapply acsAddNodeLink_grown; [| |done]; by eapply builder_wf_in. }
    destruct (IH ns1 idn1 w2) as (ns' & idn' & w' & Hrun & Hsub & Hdom & Hpre & Hrng).
    { by eapply builder_wf_grown. }
    { done. }
    { destruct Hself as [|Hself]; [by left|right].
      rewrite fmap_cons in Hself. by apply not_elem_of_cons in Hself as [_ ?]. }
    exists ns', idn', w'. split_and!.
    + cbn [acsAddNodeAndLinks_loop]. unfold mbind, M_mbind, M_bind.
      by rewrite Hfind, Hlink.
    + by etrans.
    + rewrite Hdom, Hdom1, fmap_cons, list_to_set_cons. by rewrite (assoc_L (∪)).
    + by etrans.
    + rewrite Hrng, (acsAddNodeLink_rng _ _ _ _ _ _ _ _ Hlink). done.
Qed.

(** X7. [addNodeAndLinks] without shuffling, on a well-formed graph that is
    not finalized: the call returns for every source id and every list of
    links without a link to the source itself (the assertion on the self
    weight can stop such a call; in a build without assertions these lists
    are covered too), the id map gains exactly the ids that were missing
    and keeps its other entries, new nodes go to the back of the node list,
    the graph counts as directed from the first directed call on, and no
    random number is drawn. *)
Theorem addNodeAndLinks_creates (NDEBUG WEIGHTED DIRECTED : bool) (node : Id)
    (lns : list (@InpLink W)) (g : Graph) (w : @World W) :
  Graph_wf g w → m_finalized g = false → m_shuffle g = false →
  NDEBUG = true ∨ node ∉ inp_id <$> lns →
  ∃ g' w',
    addNodeAndLinks NDEBUG WEIGHTED DIRECTED node lns g w = Done (g', w')
    ∧ dom (m_idNodes g') = dom (m_idNodes g) ∪ list_to_set (node :: (inp_id <$> lns))
    ∧ m_idNodes g ⊆ m_idNodes g'
    ∧ nodes g `prefix_of` nodes g'
    ∧ directed g' = directed g || DIRECTED
    ∧ rng w' = rng w.
Proof.
  intros Hwf Hfin Hsh Hself.
  destruct (find_or_add_returns NDEBUG (nodes g) (m_idNodes g) node
              "acsAddNodeAndLinks(), duplicated input nodes" w Hwf)
    as (ns1 & idn1 & ind & w1 & Hfind & Hwf1 & Hsub1 & Hind & Hdom1 & Hpre1 & Hrng1).
  destruct (acsAddNodeAndLinks_loop_returns NDEBUG DIRECTED WEIGHTED ns1 idn1 node ind
              lns w1 Hwf1 Hind Hself)
    as (ns' & idn' & w' & Hrun & Hsub & Hdom & Hpre & Hrng).
  exists (with_nodes (with_directed g (m_directed g || DIRECTED)) ns' idn'), w'.
  split_and!.
  - unfold addNodeAndLinks, validateExtension. rewrite Hfin.
    unfold mbind at 1 2. unfold M_mbind, M_bind, mret at 1, M_mret, M_ret.
    unfold acsAddNodeAndLinks. cbn [nodes m_idNodes m_shuffle with_directed].
    rewrite Hsh. unfold mbind, M_mbind, M_bind. by rewrite Hfind, Hrun.
  - cbn [m_idNodes with_nodes with_directed]. rewrite Hdom, Hdom1. apply set_eq. intros i.
    rewrite list_to_set_cons, !elem_of_union, elem_of_singleton. tauto.
  - simpl. by etrans.
  - simpl. by etrans.
  - done.
  - congruence.
Qed.

(** *** Back links *)

Lemma retarget_arc (WEIGHTED : bool) (d p : NodePtr) wgt :
  retarget (arc WEIGHTED d wgt) p = arc WEIGHTED p wgt.
Proof. by destruct WEIGHTED. Qed.

(** Symmetry is kept by a step that keeps the links and gives every link
    it adds to a node of [ns] its back link. *)
Lemma links_symmetric_step ns w w' :
  links_symmetric ns w →
  nodes_kept w w' →
  (∀ a na' l, a ∈ ns → mem w' !! a = Some na' → l ∈ links na' →
     (∃ na, mem w !! a = Some na ∧ l ∈ links na)
     ∨ (∃ nb', mem w' !! dest l = Some nb' ∧ retarget l a ∈ links nb')) →
  links_symmetric ns w'.
Proof.
  intros Hsym Hkept Hstep a na' l Ha Hna' Hl.
  destruct (Hstep a na' l Ha Hna' Hl) as [(na & Hna & Hold)|Hnew]; [|done].
  destruct (Hsym a na l Ha Hna Hold) as (nb & Hnb & Hback).
  destruct (Hkept _ _ Hnb) as (nb' & Hnb' & _ & Hsub).
  exists nb'. split; [done|]. by eapply elem_of_sublist.
Qed.

Lemma acsAddNodeLink_symmetric (NDEBUG WEIGHTED shuffle : bool) ns nd dst wgt w w' :
  nd ∈ ns → dst ∈ ns →
  links_symmetric ns w →
  acsAddNodeLink NDEBUG false WEIGHTED nd dst wgt shuffle w = Done ((), w') →
  links_symmetric ns w'.
Proof.
  intros Hnd Hdst Hsym Hrun.
  pose proof (acsAddNodeLink_grown _ _ _ _ _ _ _ _ _ _ Hnd Hdst Hrun) as Hg.
  apply (links_symmetric_step ns w w' Hsym (grown_nodes_kept _ _ _ Hg)).
  unfold acsAddNodeLink in Hrun. destruct (decide (dst = nd)) as [->|Hne].
  - (* the self weight: no link changes *)
    apply M_bind_Done in Hrun as ([] & w1 & Hassert & Hset).
    assert (Hw1 : mem w1 = mem w).
    { apply assert_Done in Hassert as [[_ ->]|[_ Hsw]]; [done|].
      unfold selfWeight in Hsw.
      apply M_bind_Done in Hsw as (sw & w2 & Hsw & Hret).
      apply M_bind_Done in Hsw as (n & w3 & Hder & Hret').
      unfold deref in Hder. destruct (mem w !! nd); [|done].
      injection Hder as <- <-. apply M_ret_Done in Hret' as [_ <-].
      by apply M_ret_Done in Hret as [_ <-]. }
    unfold selfWeight_set in Hset.
    apply M_bind_Done in Hset as (n & w2 & Hder & Hstore).
    unfold deref in Hder. destruct (mem w1 !! nd) as [n0|] eqn:Hn0; [|done].
    injection Hder as <- <-. unfold store in Hstore. injection Hstore as <-.
    intros a na' l _. cbn [mem]. rewrite Hw1 in Hn0 |- *.
    destruct (decide (a = nd)) as [->|Ha].
    + rewrite lookup_insert_eq. intros [= <-] Hl. left. by exists n0.
    + rewrite lookup_insert_ne by done. intros Hna Hl. left. by exists na'.
  - cbn [negb] in Hrun.
    apply M_bind_Done in Hrun as ([] & w1 & H1 & H2).
    apply addLink_inv in H1 as (dstv & k1 & Hdstv & _ & _ & Hmem1).
    apply addLink_inv in H2 as (ndv & k2 & Hndv & _ & _ & Hmem2).
    rewrite Hmem1, lookup_insert_ne in Hndv by done.
    rewrite negb_involutive in Hmem1, Hmem2.
    intros a na' l _. rewrite Hmem2, Hmem1.
    destruct (decide (a = nd)) as [->|Ha].
    + rewrite lookup_insert_eq. intros [= <-].
      cbn [links set_links]. intros [->|Hl]%elem_of_emplace_at.
      * right. rewrite arc_dest, retarget_arc.
        rewrite lookup_insert_ne, lookup_insert_eq by done.
        eexists. split; [done|]. cbn [links set_links].
        apply elem_of_emplace_at. by left.
      * left. by exists ndv.
    + rewrite lookup_insert_ne by done.
      destruct (decide (a = dst)) as [->|Ha'].
      * rewrite lookup_insert_eq. intros [= <-].
        cbn [links set_links]. intros [->|Hl]%elem_of_emplace_at.
        -- right. rewrite arc_dest, retarget_arc. rewrite lookup_insert_eq.
           eexists. split; [done|]. cbn [links set_links].
           apply elem_of_emplace_at. by left.
        -- left. by exists dstv.
      * rewrite lookup_insert_ne by done. intros Hna Hl. left. by exists na'.
Qed.

Lemma links_symmetric_emplace ns ns' (idNodes : gmap Id NodePtr) (i : Id)
    (shuffle : bool) p w w' :
  builder_wf ns idNodes w → links_symmetric ns w →
  emplace_node ns i shuffle w = Done ((ns', p), w') →
  links_symmetric ns' w'.
Proof.
  intros Hwf Hsym Hem.
  pose proof (emplace_node_kept _ _ _ _ _ _ _ Hem) as (Hkept & Hnew & Hfresh & Hperm).
  apply emplace_node_inv in Hem as (_ & Hmem & _ & _).
  intros a na l Ha Hna Hl.
  assert (Ha' : a = p ∨ a ∈ ns) by (rewrite Hperm in Ha; by apply elem_of_cons).
  destruct Ha' as [->|Ha'].
  - rewrite Hnew in Hna. injection Hna as <-. by apply elem_of_nil in Hl.
  - assert (a ≠ p).
    { intros ->. destruct (wf_nodes _ _ _ Hwf p Ha'). congruence. }
    rewrite Hmem, lookup_insert_ne in Hna by done.
    destruct (Hsym a na l Ha' Hna Hl) as (nb & Hnb & Hback).
    destruct (Hkept _ _ Hnb) as (nb' & Hnb' & _ & Hsub).
    exists nb'. split; [done|]. by eapply elem_of_sublist.
Qed.

Lemma acsAddNodes_symmetric (NDEBUG shuffle : bool) (ids : list Id) ns ns'
    (idNodes idNodes' : gmap Id NodePtr) w w' :
  builder_wf ns idNodes w → links_symmetric ns w →
  acsAddNodes NDEBUG ns idNodes ids shuffle w = Done ((ns', idNodes'), w') →
  links_symmetric ns' w'.
Proof.
  revert ns idNodes w. induction ids as [|i ids IH]; intros ns idNodes w Hwf Hsym.
  - simpl. by intros [[= <- <-] <-]%M_ret_Done.
  - cbn [acsAddNodes].
    intros ([ns1 p] & w1 & Hem & Hrest)%M_bind_Done.
    apply M_bind_Done in Hrest as ([] & w2 & Hassert & Hrest).
    assert (w2 = w1) as ->.
    { apply assert_Done in Hassert as [[_ ->]|[_ Hc]]; [done|].
      by apply M_ret_Done in Hc as [_ ->]. }
    eapply IH; [|by eapply links_symmetric_emplace|done].
    by eapply builder_wf_emplace.
Qed.

Lemma acsAddNodeLinks_loop_symmetric (NDEBUG WEIGHTED shuffle : bool) ns
    (idNodes : gmap Id NodePtr) (sid : Id) nd (lns : list (@InpLink W)) w w' :
  (∀ i p, idNodes !! i = Some p → p ∈ ns) → nd ∈ ns →
  links_symmetric ns w →
  acsAddNodeLinks_loop NDEBUG false WEIGHTED idNodes sid nd lns shuffle w = Done ((), w') →
  links_symmetric ns w'.
Proof.
  intros Hids Hnd. revert w. induction lns as [|ln lns IH]; intros w Hsym.
  - simpl. by intros [_ <-]%M_ret_Done.
  - cbn [acsAddNodeLinks_loop].
    intros (dst & w1 & Hat & Hrest)%M_bind_Done.
    apply catch_unexistent_Done, map_at_Done in Hat as [Hdst ->].
    apply M_bind_Done in Hrest as ([] & w2 & Hlink & Hrest).
    eapply IH; [|done]. eapply acsAddNodeLink_symmetric; [done| |done|done].
    by eapply Hids.
Qed.

Lemma acsAddNodeAndLinks_loop_symmetric (NDEBUG WEIGHTED shuffle : bool) ns ns'
    (idNodes idNodes' : gmap Id NodePtr) ind (lns : list (@InpLink W)) w w' :
  builder_wf ns idNodes w → ind ∈ ns → links_symmetric ns w →
  acsAddNodeAndLinks_loop NDEBUG false WEIGHTED ns idNodes ind lns shuffle w
    = Done ((ns', idNodes'), w') →
  links_symmetric ns' w'.
Proof.
  revert ns idNodes w. induction lns as [|ln lns IH]; intros ns idNodes w Hwf Hind Hsym.
  - simpl. by intros [[= <- <-] <-]%M_ret_Done.
  - cbn [acsAddNodeAndLinks_loop].
    intros ([[ns1 idn1] idst] & w1 & Hfind & Hrest)%M_bind_Done.
    apply M_bind_Done in Hrest as ([] & w2 & Hlink & Hrest).
    destruct (find_or_add_wf _ _ _ _ _ _ _ _ _ _ _ Hwf Hfind)
      as (Hwf1 & _ & Hsub1 & _ & Hidst).
    assert (Hsym1 : links_symmetric ns1 w1).
    { apply find_or_add_inv in Hfind as [(_ & -> & -> & ->)|(_ & Hem & _)]; [done|].
      eapply links_symmetric_emplace; [exact Hwf|exact Hsym|exact Hem]. }
    assert (Hidst' : idst ∈ ns1) by (by eapply builder_wf_in).
    assert (Hg : grown ns1 w1 w2).
    { eapply acsAddNodeLink_grown; [by apply Hsub1|done|done]. }
    eapply (IH ns1 idn1 w2); [by eapply builder_wf_grown|by apply Hsub1| |done].
    eapply acsAddNodeLink_symmetric; [by apply Hsub1|done|done|done].
Qed.

(** X8. A graph whose [directed()] is false has symmetric links: when this holds
    before a mutator is called it holds when the mutator returns, whatever
    the kind of the call is. *)
Theorem undirected_graph_symmetric (NDEBUG WEIGHTED DIRECTED : bool) (g : Graph)
    (w : @World W) :
  Graph_wf g w →
  (directed g = false → links_symmetric (nodes g) w) →
  (∀ ids g' w', addNodes NDEBUG ids g w = Done (g', w') →
     directed g' = false → links_symmetric (nodes g') w')
  ∧ (∀ idBeg idEnd g' w', addNodes_range NDEBUG idBeg idEnd g w = Done (g', w') →
     directed g' = false → links_symmetric (nodes g') w')
  ∧ (∀ node lns g' w',
       addNodeLinks NDEBUG WEIGHTED DIRECTED node lns g w = Done (g', w') →
       directed g' = false → links_symmetric (nodes g') w')
  ∧ (∀ node lns g' w',
       addNodeAndLinks NDEBUG WEIGHTED DIRECTED node lns g w = Done (g', w') →
       directed g' = false → links_symmetric (nodes g') w')
  ∧ (∀ nodesNum shuffle g' w', reinit nodesNum shuffle g w = Done (g', w') →
     directed g' = false ∧ links_symmetric (nodes g') w').
Proof.
  intros Hwf Hsym. split_and!.
  - intros ids g' w' (_ & ns & idn & Hadd & ->)%addNodes_inv Hdir.
    eapply acsAddNodes_symmetric; [done|by apply Hsym|done].
  - intros b e g' w' (_ & _ & ns & idn & Hadd & ->)%addNodes_range_inv Hdir.
    eapply acsAddNodes_symmetric; [done|by apply Hsym|done].
  - intros node lns g' w' (_ & Hadd & ->)%addNodeLinks_inv Hdir.
    unfold directed in *. cbn [m_directed with_directed] in Hdir.
    apply orb_false_iff in Hdir as [Hdir ->]. cbn [nodes with_directed].
    unfold acsAddNodeLinks in Hadd.
    apply M_bind_Done in Hadd as (nd & w1 & Hat & Hrest).
    apply catch_unexistent_Done, map_at_Done in Hat as [Hnd ->].
    eapply acsAddNodeLinks_loop_symmetric; [| |by apply Hsym|done].
    + intros i p. by eapply builder_wf_in.
    + by eapply builder_wf_in.
  - intros node lns g' w' (_ & ns & idn & Hadd & ->)%addNodeAndLinks_inv Hdir.
    unfold directed in *. cbn [m_directed with_directed with_nodes] in Hdir.
    apply orb_false_iff in Hdir as [Hdir ->]. cbn [nodes with_nodes].
    unfold acsAddNodeAndLinks in Hadd.
    apply M_bind_Done in Hadd as ([[ns1 idn1] ind] & w1 & Hfind & Hrest).
    destruct (find_or_add_wf _ _ _ _ _ _ _ _ _ _ _ Hwf Hfind)
      as (Hwf1 & _ & Hsub1 & _ & Hind).
    assert (Hsym1 : links_symmetric ns1 w1).
    { apply find_or_add_inv in Hfind as [(_ & -> & -> & ->)|(_ & Hem & _)];
        [by apply Hsym|].
      eapply links_symmetric_emplace; [exact Hwf|by apply Hsym|exact Hem]. }
    eapply acsAddNodeAndLinks_loop_symmetric; [done| |done|done].
    by eapply builder_wf_in.
  - intros n s g' w'. unfold reinit, srand_time.
    intros ([] & w1 & _ & Hrest)%M_bind_Done.
    apply M_bind_Done in Hrest as ([] & w2 & _ & [<- _]%M_ret_Done).
    split; [done|]. by intros a na l ?%elem_of_nil.
Qed.

End builder_facts.

Lemma elem_of_two (p : nat) : p ∈ [0%nat; 1%nat] → p = 0%nat ∨ p = 1%nat.
Proof.
  intros [->|Hp]%elem_of_cons; [by left|].
  apply elem_of_cons in Hp as [->|Hp]; [by right|]. by apply elem_of_nil in Hp.
Qed.

Lemma two_nodes_graph_wf : Graph_wf two_nodes_graph two_nodes_binary32.
Proof.
  constructor.
  - apply (bool_decide_unpack _). by vm_compute.
  - intros p [->| ->]%elem_of_two; by eexists.
  - intros i p Hi. cbn in Hi.
    destruct (decide (i = 10)) as [->|].
    { inversion Hi; subst. split; [apply elem_of_cons; by left|done]. }
    destruct (decide (i = 11)) as [->|].
    { inversion Hi; subst. split; [apply elem_of_cons; right; apply elem_of_cons; by left|done]. }
    simplify_map_eq.
  - intros p n l [->| ->]%elem_of_two Hn Hl; inversion Hn; subst; cbn in Hl;
      apply list_elem_of_singleton in Hl as ->; cbn.
    + apply elem_of_cons; right; apply elem_of_cons; by left.
    + apply elem_of_cons; by left.
Qed.

Lemma two_nodes_graph_symmetric : links_symmetric (nodes two_nodes_graph) two_nodes_binary32.
Proof.
  intros a na l [->| ->]%elem_of_two Hn Hl; inversion Hn; subst; cbn in Hl;
    apply list_elem_of_singleton in Hl as ->; cbn.
  - eexists. split; [reflexivity|]. cbn. apply elem_of_cons. by left.
  - eexists. split; [reflexivity|]. cbn. apply elem_of_cons. by left.
Qed.

Lemma Graph_wf_invariant_witness :
  ∃ g' w',
    addNodeAndLinks false false false 10 [InpSimple 12] two_nodes_graph two_nodes_binary32
    = Done (g', w')
    ∧ Graph_wf g' w'.
Proof.
  eexists _, _. split; [vm_compute; reflexivity|].
  apply (proj1 (proj2 (proj2 (proj2
           (Graph_wf_invariant false false false two_nodes_graph two_nodes_binary32
              two_nodes_graph_wf)))) 10 [InpSimple 12]).
  vm_compute. reflexivity.
Defined.

Lemma Graph_mutators_keep_nodes_witness :
  ∃ g' w',
    addNodeLinks false false false 10 [InpSimple 11] two_nodes_graph two_nodes_binary32
    = Done (g', w')
    ∧ nodes_kept two_nodes_binary32 w'.
Proof.
  eexists _, _. split; [vm_compute; reflexivity|].
  eapply (proj1 (proj2 (proj2
            (Graph_mutators_keep_nodes false false false two_nodes_graph two_nodes_binary32
               two_nodes_graph_wf))) 10 [InpSimple 11]).
  vm_compute. reflexivity.
Defined.

Lemma addNodes_lookup_witness :
  ∃ g' w',
    addNodes false [12; 13] two_nodes_graph two_nodes_binary32 = Done (g', w')
    ∧ (∃ p, m_idNodes g' !! 13 = Some p ∧ mem w' !! p = Some (Node_ctor 13)
            ∧ p ∈ nodes g' ∧ p ∉ nodes two_nodes_graph)
    ∧ node_ids g' w' = [Some 10; Some 11; Some 12; Some 13]
    ∧ rng w' = rng two_nodes_binary32.
Proof.
  destruct (addNodes_lookup false [12; 13] two_nodes_graph two_nodes_binary32)
    as (g' & w' & Hrun & Hnew & _ & _ & _ & Hord).
  - exact two_nodes_graph_wf.
  - reflexivity.
  - apply (bool_decide_unpack _). vm_compute. exact I.
  - intros i Hi. apply elem_of_cons in Hi as [->|Hi]; [reflexivity|].
    apply elem_of_cons in Hi as [->|Hi]; [reflexivity|]. by apply elem_of_nil in Hi.
  - exists g', w'. split; [exact Hrun|]. split.
    + apply Hnew. apply elem_of_cons. right. apply elem_of_cons. by left.
    + apply Hord. reflexivity.
Defined.

Lemma addNodes_range_lookup_witness :
  ∃ g' w',
    addNodes_range false 12 14 two_nodes_graph two_nodes_binary32 = Done (g', w')
    ∧ addNodes false [12; 13] two_nodes_graph two_nodes_binary32 = Done (g', w')
    ∧ length (nodes g') = 4%nat.
Proof.
  pose proof (addNodes_range_lookup false 12 14 two_nodes_graph two_nodes_binary32
                two_nodes_graph_wf eq_refl) as Hw.
  change (14 <? 12) with false in Hw. cbv iota in Hw.
  destruct Hw as (g' & w' & Hrun & Hlist & _ & _ & Hlen).
  - intros i Hi. destruct (decide (i = 12)) as [->|]; [reflexivity|].
    destruct (decide (i = 13)) as [->|]; [reflexivity|]. lia.
  - exists g', w'. split; [exact Hrun|]. split; [exact Hlist|exact Hlen].
Defined.

Lemma addNodeAndLinks_known_ids_witness :
  addNodeAndLinks false false false 10 [InpSimple 11] two_nodes_graph two_nodes_binary32
  = addNodeLinks false false false 10 [InpSimple 11] two_nodes_graph two_nodes_binary32.
Proof.
  apply addNodeAndLinks_known_ids.
  intros i Hi. apply elem_of_cons in Hi as [->|Hi]; [by eexists|].
  apply elem_of_cons in Hi as [->|Hi]; [by eexists|]. by apply elem_of_nil in Hi.
Defined.

Lemma addNodeAndLinks_creates_witness :
  ∃ g' w',
    addNodeAndLinks false false true 12 [InpSimple 10; InpSimple 13]
      two_nodes_graph two_nodes_binary32 = Done (g', w')
    ∧ dom (m_idNodes g')
      = dom (m_idNodes two_nodes_graph) ∪ list_to_set [12; 10; 13]
    ∧ m_idNodes two_nodes_graph ⊆ m_idNodes g'
    ∧ nodes two_nodes_graph `prefix_of` nodes g'
    ∧ directed g' = true
    ∧ rng w' = rng two_nodes_binary32.
Proof.
  apply (addNodeAndLinks_creates false false true 12 [InpSimple 10; InpSimple 13]
           two_nodes_graph two_nodes_binary32 two_nodes_graph_wf eq_refl eq_refl).
  right. intros Hin. apply elem_of_cons in Hin as [Hin|Hin]; [discriminate Hin|].
  apply elem_of_cons in Hin as [Hin|Hin]; [discriminate Hin|]. by apply elem_of_nil in Hin.
Defined.

Lemma undirected_graph_symmetric_witness :
  ∃ g' w',
    addNodeAndLinks false false false 10 [InpSimple 12] two_nodes_graph two_nodes_binary32
    = Done (g', w')
    ∧ links_symmetric (nodes g') w'.
Proof.
  eexists _, _. split; [vm_compute; reflexivity|].
  apply (proj1 (proj2 (proj2 (proj2
           (undirected_graph_symmetric false false false two_nodes_graph
              two_nodes_binary32 two_nodes_graph_wf
              (λ _, two_nodes_graph_symmetric))))) 10 [InpSimple 12]).
  - vm_compute. reflexivity.
  - reflexivity.
Defined.

(** ** Cluster ids are distinct *)






(** ** [unwrap]: what a call adds, and the shares of a node *)

Section unwrap_more.
Local Open Scope Qc_scope.

Lemma unwrap_run (h : Hierarchy) (rank : ItemPtr → nat) (c fuel : nat)
    (clNodes : gmap nat Share) :
  descends h rank →
  (rank (ClusterItem c) < fuel)%nat →
  ∃ res,
    unwrap fuel h c clNodes = Some res
    ∧ (∀ n, share_at res n = share_at clNodes n + levels_total h c fuel (NodeItem n))
    ∧ (∀ n, is_Some (res !! n)
            ↔ is_Some (clNodes !! n)
              ∨ ∃ k, (k < fuel)%nat ∧ spec_level h c k (NodeItem n) ≠ 0)
    ∧ (all_positive clNodes → all_positive res).
Proof.
  intros Hdesc Hfuel.
  destruct (unwrap_loop_spec h rank c Hdesc fuel 0 {[ ClusterItem c := 1 ]} clNodes)
    as (res & Hrun & Hshares & Hdom & Hpos).
  - intros y. simpl. unfold share_at. destruct (decide (y = ClusterItem c)) as [->|Hne].
    + by rewrite lookup_singleton_eq.
    + by rewrite lookup_singleton_ne.
  - intros k s Hk. apply lookup_singleton_Some in Hk as [_ <-]. done.
  - intros y [s Hy]. apply lookup_singleton_Some in Hy as [<- _]. done.
  - exists res. split; [done|]. split; [apply Hshares|]. split; [apply Hdom|done].
Qed.


(** *** The nodes of a result *)

(** A cluster inside the hierarchy gives each of its descendants a share
    greater than 0 when its own share is so. *)
Lemma spec_next_pos (h : Hierarchy) (L : ItemPtr → Qc) (c : nat) (y : ItemPtr) :
  (∀ x, 0 ≤ L x) → y ∈ des_of h c → 0 < L (ClusterItem c) → 0 < spec_next h L y.
Proof.
  intros Hnn Hy Hc.
  assert (Hin : c ∈ parents h y).
  { apply elem_of_parents. split; [|done].
    destruct (decide (c < length (m_cls h))%nat) as [|Hge]; [done|].
    rewrite des_of_outside in Hy by lia. by apply elem_of_nil in Hy. }
  unfold spec_next.
  apply list_elem_of_split in Hin as (l1 & l2 & ->).
  rewrite fmap_app, fmap_cons, sumQc_app, sumQc_cons.
  assert (Hterm : ∀ c0, 0 ≤ L (ClusterItem c0) / spec_divisor h y).
  { intros c0. unfold Qcdiv. apply Qcmult_nonneg_nonneg; [done|].
    apply Qclt_le_weak, Qcinv_pos, spec_divisor_pos. }
  assert (H1 : 0 ≤ sumQc ((λ c0, L (ClusterItem c0) / spec_divisor h y) <$> l1)).
  { apply sumQc_nonneg. intros c0 _. apply Hterm. }
  assert (H2 : 0 ≤ sumQc ((λ c0, L (ClusterItem c0) / spec_divisor h y) <$> l2)).
  { apply sumQc_nonneg. intros c0 _. apply Hterm. }
  pose proof (Qcdiv_pos _ _ Hc (spec_divisor_pos h y)) as H3.
  eapply Qclt_le_trans; [exact H3|].
  rewrite <- (Qcplus_0_l (L (ClusterItem c) / spec_divisor h y)) at 1.
  apply Qcplus_le_compat; [done|].
  rewrite <- (Qcplus_0_r (L (ClusterItem c) / spec_divisor h y)) at 1.
  apply Qcplus_le_compat; [apply Qcle_refl|done].
Qed.

(** The items that the level [k] of the descent reaches. *)
Lemma spec_level_below (h : Hierarchy) (c k : nat) (y : ItemPtr) :
  spec_level h c (S k) y ≠ 0 → below h c y.
Proof.
  revert y. induction k as [|k IH]; intros y Hy.
  - cbn [spec_level] in Hy. apply spec_next_support in Hy as (c' & Hc' & Hnz).
    apply elem_of_parents in Hc' as [_ Hin].
    destruct (decide (ClusterItem c' = ClusterItem c)) as [[= ->]|]; [|done].
    by apply below_des.
  - change (spec_level h c (S (S k)) y) with (spec_next h (spec_level h c (S k)) y) in Hy.
    apply spec_next_support in Hy as (c' & Hc' & Hnz).
    apply elem_of_parents in Hc' as [_ Hin].
    eapply below_step; [|done]. by apply IH.
Qed.

Lemma below_spec_level (h : Hierarchy) (rank : ItemPtr → nat) (c : nat) (y : ItemPtr) :
  descends h rank → below h c y →
  ∃ k, (rank y + S k ≤ rank (ClusterItem c))%nat ∧ 0 < spec_level h c (S k) y.
Proof.
  intros Hdesc. induction 1 as [y Hy|d y Hd (k & Hk & Hpos) Hy].
  - exists O. split; [specialize (Hdesc _ _ Hy); lia|].
    cbn [spec_level]. eapply spec_next_pos; [|done|].
    + intros x. by destruct (decide (x = ClusterItem c)).
    + by rewrite decide_True.
  - exists (S k). split; [specialize (Hdesc _ _ Hy); lia|].
    change (spec_level h c (S (S k)) y) with (spec_next h (spec_level h c (S k)) y).
    eapply spec_next_pos; [|done|done]. intros x. apply spec_level_nonneg.
Qed.

(** X11. The result of [unwrap] on an empty map has an entry exactly for the
    nodes below the cluster. *)
Theorem unwrap_nodes_below (h : Hierarchy) (rank : ItemPtr → nat) (c fuel : nat) :
  descends h rank →
  (rank (ClusterItem c) < fuel)%nat →
  ∃ res,
    unwrap fuel h c ∅ = Some res
    ∧ ∀ n, is_Some (res !! n) ↔ below h c (NodeItem n).
Proof.
  intros Hdesc Hfuel.
  destruct (unwrap_run h rank c fuel ∅ Hdesc Hfuel) as (res & Hrun & _ & Hdom & _).
  exists res. split; [done|]. intros n. rewrite Hdom, lookup_empty. split.
  - intros [[? ?]|(k & Hk & Hnz)]; [done|]. destruct k as [|k].
    + by simpl in Hnz.
    + by eapply spec_level_below.
  - intros Hb. right.
    destruct (below_spec_level h rank c _ Hdesc Hb) as (k & Hk & Hpos).
    exists (S k). split; [lia|]. intros Hz. rewrite Hz in Hpos. by apply Qclt_not_eq in Hpos.
Qed.

(** *** The root clusters share out every node *)







End unwrap_more.




Lemma unwrap_nodes_below_witness :
  ∃ res, unwrap 2 overlap3 0 ∅ = Some res
    ∧ ∀ n, is_Some (res !! n) ↔ below overlap3 0 (NodeItem n).
Proof.
  apply (unwrap_nodes_below overlap3 overlap3_rank 0 2).
  - exact overlap3_descends.
  - simpl. lia.
Defined.


(** ** The lines of links *)

Section link_lines.
Context {W : Type} `{WeightOps W}.
Variable stof : string → Outcome (W * nat).

(** *** Strings *)

Lemma str_app_cons (c : ascii) (s t : string) : String c s +:+ t = String c (s +:+ t).
Proof. reflexivity. Qed.

Lemma str_app_nil_l (t : string) : EmptyString +:+ t = t.
Proof. reflexivity. Qed.

Lemma str_length_app (s t : string) :
  String.length (s +:+ t) = (String.length s + String.length t)%nat.
Proof.
  induction s as [|c s IH]; [done|]. rewrite str_app_cons. simpl. by rewrite IH.
Qed.

Lemma str_app_assoc (s t u : string) : (s +:+ t) +:+ u = s +:+ (t +:+ u).
Proof.
  induction s as [|c s IH]; [done|]. rewrite !str_app_cons. by rewrite IH.
Qed.

Lemma str_app_nil_r (s : string) : s +:+ EmptyString = s.
Proof. induction s as [|c s IH]; [done|]. rewrite str_app_cons. by rewrite IH. Qed.

Lemma str_drop_app (s t : string) : str_drop (String.length s) (s +:+ t) = t.
Proof. induction s as [|c s IH]; [done|]. rewrite str_app_cons. simpl. by rewrite IH. Qed.

Lemma str_drop_app_Z (s t : string) (pos : Z) :
  pos = str_size s → str_drop (Z.to_nat pos) (s +:+ t) = t.
Proof. intros ->. unfold str_size. rewrite Nat2Z.id. apply str_drop_app. Qed.

Lemma str_take_app (s t : string) : str_take (String.length s) (s +:+ t) = s.
Proof. induction s as [|c s IH]; [done|]. rewrite str_app_cons. simpl. by rewrite IH. Qed.

Lemma str_take_app_le (n : nat) (s t : string) :
  (n ≤ String.length s)%nat → str_take n (s +:+ t) = str_take n s.
Proof.
  revert n. induction s as [|c s IH]; intros n Hn.
  - simpl in Hn. replace n with O by lia. done.
  - rewrite str_app_cons. destruct n as [|n]; [done|]. simpl in *.
    rewrite IH; [done|lia].
Qed.

Lemma str_take_app_ge (n : nat) (s t : string) :
  (String.length s ≤ n)%nat →
  str_take n (s +:+ t) = s +:+ str_take (n - String.length s) t.
Proof.
  revert n. induction s as [|c s IH]; intros n Hn.
  - rewrite !str_app_nil_l. simpl. by rewrite Nat.sub_0_r.
  - rewrite !str_app_cons. destruct n as [|n]; [simpl in Hn; lia|]. simpl in *.
    rewrite IH; [done|lia].
Qed.

Lemma str_take_all (n : nat) (s : string) :
  (String.length s ≤ n)%nat → str_take n s = s.
Proof.
  revert n. induction s as [|c s IH]; intros n Hn; simpl in *.
  - by destruct n.
  - destruct n as [|n]; [lia|]. simpl. rewrite IH; [done|lia].
Qed.

Lemma str_size_app (s t : string) : str_size (s +:+ t) = str_size s + str_size t.
Proof. unfold str_size. rewrite str_length_app. lia. Qed.

Lemma str_size_nonneg (s : string) : 0 ≤ str_size s.
Proof. unfold str_size. lia. Qed.

Lemma str_all_app (P : ascii → bool) (s t : string) :
  str_all P (s +:+ t) = str_all P s && str_all P t.
Proof.
  induction s as [|c s IH]; [done|]. rewrite str_app_cons. simpl.
  by rewrite IH, andb_assoc.
Qed.

(** *** Searches *)

Lemma find_if_all (P : ascii → bool) (s : string) :
  str_all (λ c, negb (P c)) s = true → find_if P s = None.
Proof.
  induction s as [|c s IH]; simpl; [done|].
  intros [Hc Hs]%andb_true_iff. apply negb_true_iff in Hc. rewrite Hc.
  by rewrite IH.
Qed.

Lemma find_if_app (P : ascii → bool) (s : string) (c : ascii) (t : string) :
  str_all (λ c, negb (P c)) s = true → P c = true →
  find_if P (s +:+ String c t) = Some (String.length s).
Proof.
  intros Hs Hc. induction s as [|d s IH].
  - rewrite str_app_nil_l. simpl. by rewrite Hc.
  - rewrite str_app_cons. simpl in *.
    apply andb_true_iff in Hs as [Hd Hs]. apply negb_true_iff in Hd. rewrite Hd.
    by rewrite IH.
Qed.

(** A search in [pre ++ s ++ c :: t] from the end of [pre], when no
    character of [s] passes the test and [c] does. *)
Lemma find_if_from_app (P : ascii → bool) (pre s : string) (c : ascii) (t : string) :
  str_all (λ c, negb (P c)) s = true → P c = true →
  find_if_from P (pre +:+ s +:+ String c t) (str_size pre)
  = str_size pre + str_size s.
Proof.
  intros Hs Hc. unfold find_if_from.
  rewrite !str_size_app. unfold str_size at 2 3 4. simpl String.length.
  replace (_ <=? _) with false by (symmetry; apply Z.leb_gt; unfold str_size; lia).
  rewrite (str_drop_app_Z pre) by done. by rewrite find_if_app.
Qed.

(** The same search when nothing passes the test up to the end. *)
Lemma find_if_from_none (P : ascii → bool) (pre s : string) :
  str_all (λ c, negb (P c)) s = true →
  find_if_from P (pre +:+ s) (str_size pre) = npos.
Proof.
  intros Hs. unfold find_if_from. case_match; [done|].
  rewrite (str_drop_app_Z pre) by done. by rewrite find_if_all.
Qed.

Lemma str_at_app (pre : string) (c : ascii) (t : string) :
  str_at (pre +:+ String c t) (str_size pre) = c.
Proof. unfold str_at. by rewrite (str_drop_app_Z pre). Qed.

Lemma str_at_end (s : string) : str_at s (str_size s) = "000"%char.
Proof.
  unfold str_at. rewrite <- (str_app_nil_r s) at 2.
  by rewrite (str_drop_app_Z s).
Qed.

(** *** Digits *)

Lemma is_digit_plain (c : ascii) :
  is_digit c = true →
  isspace c = false ∧ Ascii.eqb c "-" = false ∧ Ascii.eqb c "+" = false
  ∧ is_blank c = false ∧ c ≠ ":"%char ∧ c ≠ ">"%char.
Proof.
  destruct c as [[] [] [] [] [] [] [] []]; intros Hc;
    try discriminate Hc; by vm_compute.
Qed.

Lemma is_blank_plain (c : ascii) :
  is_blank c = true → is_digit c = false ∧ c ≠ ":"%char ∧ c ≠ ">"%char.
Proof.
  destruct c as [[] [] [] [] [] [] [] []]; intros Hc;
    try discriminate Hc; by vm_compute.
Qed.

Lemma read_digits_stop (s : string) (acc cnt : Z) :
  no_digit_ahead s → read_digits s acc cnt = (acc, cnt).
Proof.
  destruct s as [|c s]; [done|]. simpl. unfold is_digit.
  by destruct (digit_of c).
Qed.

Lemma read_digits_app (t rest : string) (acc cnt : Z) :
  str_all is_digit t = true →
  read_digits (t +:+ rest) acc cnt
  = read_digits rest (read_digits t acc cnt).1 (read_digits t acc cnt).2.
Proof.
  revert acc cnt. induction t as [|c t IH]; intros acc cnt Ht; [done|].
  rewrite str_app_cons. simpl in *. apply andb_true_iff in Ht as [Hc Ht].
  unfold is_digit in Hc. destruct (digit_of c) as [d|]; [|done]. by apply IH.
Qed.

Lemma digit_of_range (c : ascii) (d : Z) : digit_of c = Some d → 0 ≤ d ≤ 9.
Proof.
  unfold digit_of. destruct (_ && _) eqn:Hr; [|done]. intros [= <-].
  apply andb_true_iff in Hr as [?%Z.leb_le ?%Z.leb_le]. lia.
Qed.

Lemma read_digits_all (t : string) (acc cnt : Z) :
  str_all is_digit t = true → 0 ≤ acc →
  (read_digits t acc cnt).2 = cnt + str_size t
  ∧ 0 ≤ (read_digits t acc cnt).1 < (acc + 1) * 10 ^ str_size t.
Proof.
  revert acc cnt. induction t as [|c t IH]; intros acc cnt Ht Hacc.
  - unfold str_size. simpl. lia.
  - simpl in *. apply andb_true_iff in Ht as [Hc Ht].
    unfold is_digit in Hc. destruct (digit_of c) as [d|] eqn:Hd; [|done].
    apply digit_of_range in Hd.
    destruct (IH (10 * acc + d) (cnt + 1) Ht) as [Hcnt Hval]; [lia|].
    unfold str_size in *. cbn [String.length]. rewrite Nat2Z.inj_succ, Z.pow_succ_r by lia.
    split; [lia|]. split; [lia|]. nia.
Qed.

(** [stoul] on a string that starts with digits: the value of the digits
    and their number, when the value fits into [unsigned long]. *)
Lemma stoul_digits (t rest : string) :
  t ≠ EmptyString → str_all is_digit t = true → no_digit_ahead rest →
  digits_value t ≤ ULONG_MAX →
  stoul (t +:+ rest) = Done (digits_value t, str_size t).
Proof.
  intros Hne Ht Hrest Hmax. destruct t as [|c t]; [done|]. clear Hne.
  pose proof Ht as Hc. simpl in Hc. apply andb_true_iff in Hc as [Hc _].
  apply is_digit_plain in Hc as (Hsp & Hminus & Hplus & _).
  unfold stoul. rewrite str_app_cons. cbn [count_spaces]. rewrite Hsp.
  cbn [str_drop]. rewrite Hminus, Hplus.
  rewrite <- str_app_cons, read_digits_app by done.
  rewrite read_digits_stop by done.
  destruct (read_digits_all (String c t) 0 0 Ht) as [Hcnt Hval]; [lia|].
  unfold digits_value in *. destruct (read_digits (String c t) 0 0) as [v cnt].
  cbn [fst snd] in *. subst cnt.
  replace (0 + str_size (String c t) =? 0) with false
    by (symmetry; apply Z.eqb_neq; unfold str_size; simpl; lia).
  replace (ULONG_MAX <? v) with false by (symmetry; apply Z.ltb_ge; lia).
  f_equal; f_equal; cbn [Z.of_nat]; lia.
Qed.

Lemma digits_value_bound (t : string) :
  str_all is_digit t = true → 0 ≤ digits_value t < 10 ^ str_size t.
Proof.
  intros Ht. destruct (read_digits_all t 0 0 Ht) as [_ Hval]; [lia|].
  unfold digits_value. lia.
Qed.

(** *** A round of the loop on a token without a weight *)

Lemma str_all_blank_not (ws : string) :
  str_all is_blank ws = true →
  str_all (λ c, negb (negb (char_in spaces c))) ws = true.
Proof.
  induction ws as [|c ws IH]; [done|]. simpl. unfold is_blank at 1.
  intros [Hc Hws]%andb_true_iff. rewrite Hc. simpl. by apply IH.
Qed.

Lemma str_take_blank_ahead (n : nat) (s : string) :
  blank_ahead s → no_digit_ahead (str_take n s).
Proof.
  destruct s as [|c s]; [by destruct n|]. destruct n as [|n]; [done|]. simpl.
  intros Hc. by apply is_blank_plain in Hc as [? _].
Qed.

Lemma parseLinks_step_token (WEIGHTED : bool) (pre ws t post : string)
    (lnks : list (@InpLink W)) :
  str_size (pre +:+ ws +:+ t +:+ post) < npos →
  str_all is_blank ws = true → digits_upto 8 t → blank_ahead post →
  parseLinks_step stof WEIGHTED (pre +:+ ws +:+ t +:+ post) (str_size pre) lnks
  = Done (str_size pre + str_size ws + str_size t, lnks ++ [plain_link WEIGHTED t]).
Proof.
  intros Hsize Hws (Hne & Ht & Hlen) Hpost.
  set (line := pre +:+ ws +:+ t +:+ post) in *.
  assert (Hline : str_size line = str_size pre + str_size ws + str_size t + str_size post).
  { unfold line. rewrite !str_size_app. lia. }
  pose proof (str_size_nonneg pre). pose proof (str_size_nonneg ws).
  pose proof (str_size_nonneg t). pose proof (str_size_nonneg post).
  assert (Ht1 : 1 ≤ str_size t).
  { destruct t; [done|]. unfold str_size. simpl. lia. }
  unfold parseLinks_step.
  (* the first character that is no blank *)
  assert (Hp : find_first_not_of line spaces (str_size pre) = str_size pre + str_size ws).
  { unfold find_first_not_of, line. destruct t as [|c t']; [done|].
    rewrite (str_app_cons c t' post). apply find_if_from_app.
    - by apply str_all_blank_not.
    - simpl in Ht. apply andb_true_iff in Ht as [Hc _].
      apply is_digit_plain in Hc as (_ & _ & _ & Hb & _). unfold is_blank in Hb.
      by rewrite Hb. }
  rewrite Hp.
  (* the eight characters from there *)
  assert (Hdrop : str_drop (Z.to_nat (str_size pre + str_size ws)) line = t +:+ post).
  { unfold line. rewrite <- (str_app_assoc pre ws).
    apply str_drop_app_Z. by rewrite str_size_app. }
  unfold substr.
  replace (str_size line <? str_size pre + str_size ws) with false
    by (symmetry; apply Z.ltb_ge; lia).
  rewrite Hdrop. unfold SYM_DIGITS_MAX. change (Z.to_nat (6 + 2)) with 8%nat.
  rewrite str_take_app_ge by done.
  cbn [mbind Outcome_mbind Outcome_bind].
  rewrite stoul_digits; [|done|done|by apply str_take_blank_ahead|].
  2:{ pose proof (digits_value_bound t Ht) as Hv.
      assert (10 ^ str_size t ≤ 10 ^ 8).
      { apply Z.pow_le_mono_r; [lia|]. unfold str_size. lia. }
      unfold ULONG_MAX. lia. }
  cbn [mbind Outcome_mbind Outcome_bind].
  (* no weight follows *)
  assert (Hcolon : (str_size pre + str_size ws + str_size t <? str_size line)
                   && bool_decide (str_at line (str_size pre + str_size ws + str_size t)
                                   = ":"%char) = false).
  { destruct post as [|c post'].
    - replace (_ <? _) with false; [done|]. symmetry. apply Z.ltb_ge.
      change (str_size EmptyString) with 0 in Hline. lia.
    - apply andb_false_iff. right. apply bool_decide_eq_false.
      replace line with ((pre +:+ ws +:+ t) +:+ String c post')
        by (unfold line; by rewrite !str_app_assoc).
      replace (str_size pre + str_size ws + str_size t) with (str_size (pre +:+ ws +:+ t))
        by (rewrite !str_size_app; lia).
      rewrite str_at_app. simpl in Hpost. by apply is_blank_plain in Hpost as (_ & ? & _). }
  rewrite <- andb_assoc, Hcolon, andb_false_r.
  cbn [mbind Outcome_mbind Outcome_bind mret Outcome_ret].
  (* the end of the token *)
  destruct post as [|c post'].
  - assert (Hoffs : find_first_of line spaces (str_size pre + str_size ws + str_size t)
                    = npos).
    { unfold find_first_of, find_if_from.
      replace (_ <=? _) with true; [done|]. symmetry. apply Z.leb_le.
      change (str_size EmptyString) with 0 in Hline. lia. }
    rewrite Hoffs. rewrite Z.eqb_refl. cbn [negb]. rewrite andb_false_r. cbn [andb].
    unfold plain_link, Operations_addLink. do 2 f_equal.
    change (str_size EmptyString) with 0 in Hline. lia.
  - assert (Hoffs : find_first_of line spaces (str_size pre + str_size ws + str_size t)
                    = str_size pre + str_size ws + str_size t).
    { unfold find_first_of.
      replace line with ((pre +:+ ws +:+ t) +:+ EmptyString +:+ String c post')
        by (unfold line; by rewrite !str_app_assoc).
      replace (str_size pre + str_size ws + str_size t) with (str_size (pre +:+ ws +:+ t))
        by (rewrite !str_size_app; lia).
      rewrite find_if_from_app; [|done|done]. unfold str_size at 2. simpl. lia. }
    rewrite Hoffs. rewrite Z.eqb_refl. cbn [negb andb].
    replace (_ =? npos) with false by (symmetry; apply Z.eqb_neq; lia).
    done.
Qed.

(** *** The loop on the tokens of a line *)

Lemma join_tokens_blank_ahead (toks : list (string * string)) (trail : string) :
  tokens_ok false toks → blank_ahead trail →
  blank_ahead (join_tokens toks +:+ trail).
Proof.
  destruct toks as [|[ws t] rest]; [done|]. simpl.
  intros (Hws & Hne & _) _. destruct ws as [|c ws]; [by destruct Hne|].
  rewrite !str_app_cons. simpl in *. by apply andb_true_iff in Hws as [? _].
Qed.

Lemma tokens_ok_weaken (first : bool) (toks : list (string * string)) :
  tokens_ok false toks → tokens_ok first toks.
Proof.
  destruct toks as [|[ws t] rest]; [done|]. simpl.
  intros (? & Hne & ? & ?). split_and!; try done. intros _. by apply Hne.
Qed.

Lemma join_tokens_length (first : bool) (toks : list (string * string)) :
  tokens_ok first toks → (length toks ≤ String.length (join_tokens toks))%nat.
Proof.
  revert first. induction toks as [|[ws t] rest IH]; intros first; [done|]. simpl.
  intros (_ & _ & (Hne & _) & Hrest). specialize (IH false Hrest).
  rewrite !str_length_app. destruct t; [done|]. simpl. lia.
Qed.

Lemma parseLinks_loop_tokens (WEIGHTED first : bool) (toks : list (string * string))
    (pre trail : string) (lnks : list (@InpLink W)) (fuel : nat) :
  str_size (pre +:+ join_tokens toks +:+ trail) < npos →
  tokens_ok first toks → blank_ahead trail → (length toks ≤ fuel)%nat →
  parseLinks_loop stof fuel WEIGHTED (pre +:+ join_tokens toks +:+ trail) (str_size pre) lnks
  = parseLinks_loop stof (fuel - length toks) WEIGHTED
      (pre +:+ join_tokens toks +:+ trail)
      (str_size pre + str_size (join_tokens toks))
      (lnks ++ (plain_link WEIGHTED <$> toks.*2)).
Proof.
  revert first pre lnks fuel.
  induction toks as [|[ws t] rest IH]; intros first pre lnks fuel Hsize Htoks Htrail Hfuel.
  - cbn [join_tokens length fmap list_fmap]. rewrite Nat.sub_0_r, app_nil_r.
    change (str_size EmptyString) with 0. by rewrite Z.add_0_r.
  - destruct fuel as [|fuel]; [simpl in Hfuel; lia|].
    destruct Htoks as (Hws & Hfirst & Ht & Hrest).
    cbn [join_tokens] in *.
    assert (Hshape : pre +:+ (ws +:+ t +:+ join_tokens rest) +:+ trail
                     = pre +:+ ws +:+ t +:+ (join_tokens rest +:+ trail)).
    { by rewrite !str_app_assoc. }
    assert (Hshape' : pre +:+ (ws +:+ t +:+ join_tokens rest) +:+ trail
                      = (pre +:+ ws +:+ t) +:+ join_tokens rest +:+ trail).
    { by rewrite !str_app_assoc. }
    assert (Ht1 : 1 ≤ str_size t).
    { destruct Ht as (Hne & _). destruct t; [done|]. unfold str_size. simpl. lia. }
    pose proof (str_size_nonneg pre). pose proof (str_size_nonneg ws).
    pose proof (str_size_nonneg (join_tokens rest)). pose proof (str_size_nonneg trail).
    cbn [parseLinks_loop].
    replace (str_size pre <? _) with true.
    2:{ symmetry. apply Z.ltb_lt. rewrite !str_size_app. lia. }
    cbn [negb]. rewrite Hshape at 1.
    rewrite parseLinks_step_token; [|by rewrite <- Hshape|done|done|].
    2:{ by apply join_tokens_blank_ahead. }
    rewrite Hshape'.
    replace (str_size pre + str_size ws + str_size t) with (str_size (pre +:+ ws +:+ t))
      by (rewrite !str_size_app; lia).
    rewrite (IH false); [|by rewrite <- Hshape'|done|done|simpl in Hfuel; lia].
    cbn [length fmap list_fmap snd]. rewrite <- app_assoc. cbn [app].
    f_equal. rewrite !str_size_app. lia.
Qed.

(** The start of a link line: the source id, blanks, and [>]. *)
Lemma parseLinks_line_head (WEIGHTED : bool) (src ws0 rest : string) :
  str_size (src +:+ ws0 +:+ String ">" rest) < npos →
  digits_upto 19 src → str_all is_blank ws0 = true →
  parseLinks_line stof WEIGHTED (src +:+ ws0 +:+ String ">" rest)
  = match parseLinks_loop stof (S (String.length (src +:+ ws0 +:+ String ">" rest)))
            WEIGHTED (src +:+ ws0 +:+ String ">" rest)
            (str_size src + str_size ws0 + 1) [] with
    | Some (Done lnks) => Some (Done (Some (to_Id (digits_value src), lnks)))
    | Some (Thrown e) => Some (Thrown e)
    | Some (AssertFailed m) => Some (AssertFailed m)
    | Some (Undefined u) => Some (Undefined u)
    | None => None
    end.
Proof.
  intros Hsize (Hne & Hsrc & Hlen) Hws0.
  set (line := src +:+ ws0 +:+ String ">" rest) in *.
  pose proof (str_size_nonneg src). pose proof (str_size_nonneg ws0).
  unfold parseLinks_line.
  assert (Hstoul : stoul line = Done (digits_value src, str_size src)).
  { unfold line. apply stoul_digits; try done.
    - destruct ws0 as [|c ws0']; [done|]. rewrite str_app_cons. simpl in *.
      apply andb_true_iff in Hws0 as [Hc _]. by apply is_blank_plain in Hc as [? _].
    - pose proof (digits_value_bound src Hsrc) as Hv.
      assert (10 ^ str_size src ≤ 10 ^ 19).
      { apply Z.pow_le_mono_r; [lia|]. unfold str_size. lia. }
      unfold ULONG_MAX. lia. }
  rewrite Hstoul.
  assert (Hgt : str_find line ">"%char (str_size src) = str_size src + str_size ws0).
  { unfold str_find, line. apply find_if_from_app; [|by apply bool_decide_eq_true].
    clear -Hws0. induction ws0 as [|c ws0 IH]; [done|]. simpl in *.
    apply andb_true_iff in Hws0 as [Hc Hws0]. rewrite IH by done.
    apply is_blank_plain in Hc as (_ & _ & Hc). by rewrite bool_decide_eq_false_2. }
  rewrite Hgt.
  assert (Hpos : find_first_not_of line spaces (str_size src + str_size ws0)
                 = str_size src + str_size ws0).
  { unfold find_first_not_of.
    replace line with ((src +:+ ws0) +:+ EmptyString +:+ String ">" rest)
      by (unfold line; by rewrite !str_app_assoc).
    replace (str_size src + str_size ws0) with (str_size (src +:+ ws0))
      by (by rewrite str_size_app).
    rewrite find_if_from_app; [|done|done]. change (str_size EmptyString) with 0. lia. }
  rewrite Hpos.
  replace (_ =? npos) with false; [done|]. symmetry. apply Z.eqb_neq.
  unfold line in Hsize. rewrite !str_size_app in Hsize.
  pose proof (str_size_nonneg (String ">" rest)). lia.
Qed.

Lemma parseLinks_loop_end (WEIGHTED : bool) (line : string) (pos : Z)
    (lnks : list (@InpLink W)) (fuel : nat) :
  str_size line ≤ pos →
  parseLinks_loop stof fuel WEIGHTED line pos lnks = Some (Done lnks).
Proof.
  intros Hpos. destruct fuel; simpl;
    by replace (pos <? str_size line) with false by (symmetry; apply Z.ltb_ge; lia).
Qed.

(** X13. A link line [src > d1 d2 ...] whose tokens are ids of eight digits at
    most, with blanks between them and nothing after the last: the line is
    read as the source id and one link for every token, in the order of the
    line; in a weighted graph the links have the default weight 1. *)
Theorem parseLinks_line_tokens (WEIGHTED : bool) (src ws0 : string)
    (toks : list (string * string)) :
  str_size (src +:+ ws0 +:+ String ">" (join_tokens toks)) < npos →
  digits_upto 19 src → str_all is_blank ws0 = true → tokens_ok true toks →
  parseLinks_line stof WEIGHTED (src +:+ ws0 +:+ String ">" (join_tokens toks))
  = Some (Done (Some (to_Id (digits_value src), plain_link WEIGHTED <$> toks.*2))).
Proof.
  intros Hsize Hsrc Hws0 Htoks.
  rewrite parseLinks_line_head by done.
  set (pre := src +:+ ws0 +:+ String ">" EmptyString).
  assert (Hline : src +:+ ws0 +:+ String ">" (join_tokens toks)
                  = pre +:+ join_tokens toks +:+ EmptyString).
  { unfold pre. by rewrite str_app_nil_r, !str_app_assoc. }
  assert (Hpre : str_size src + str_size ws0 + 1 = str_size pre).
  { unfold pre. rewrite !str_size_app.
    change (str_size (String ">" EmptyString)) with 1. lia. }
  rewrite Hpre, Hline.
  rewrite (parseLinks_loop_tokens WEIGHTED true); [|by rewrite <- Hline|done|done|].
  2:{ pose proof (join_tokens_length _ _ Htoks). rewrite !str_length_app. lia. }
  rewrite parseLinks_loop_end; [done|]. rewrite !str_size_app.
  change (str_size EmptyString) with 0. lia.
Qed.

(** X14. The same line with blanks after the last token, or with a comment
    after blanks: the next round of the loop finds no token.  With blanks
    only, [substr] is called at [npos] and throws [out_of_range]; with a
    comment, [stoul] finds no digit and throws [invalid_argument]. *)
Theorem parseLinks_line_trailing (WEIGHTED : bool) (src ws0 : string)
    (toks : list (string * string)) (ws comment : string) :
  str_size (src +:+ ws0 +:+ String ">" (join_tokens toks +:+ ws +:+ comment)) < npos →
  digits_upto 19 src → str_all is_blank ws0 = true → tokens_ok true toks →
  str_all is_blank ws = true → ws ≠ EmptyString →
  (comment = EmptyString →
   ∃ what,
     parseLinks_line stof WEIGHTED
       (src +:+ ws0 +:+ String ">" (join_tokens toks +:+ ws +:+ comment))
     = Some (Thrown (out_of_range what)))
  ∧ (∀ text, comment = String "#" text →
     parseLinks_line stof WEIGHTED
       (src +:+ ws0 +:+ String ">" (join_tokens toks +:+ ws +:+ comment))
     = Some (Thrown (invalid_argument "stoul"))).
Proof.
  intros Hsize Hsrc Hws0 Htoks Hws Hne.
  set (pre := src +:+ ws0 +:+ String ">" EmptyString).
  assert (Hline : src +:+ ws0 +:+ String ">" (join_tokens toks +:+ ws +:+ comment)
                  = pre +:+ join_tokens toks +:+ (ws +:+ comment)).
  { unfold pre. by rewrite !str_app_assoc. }
  assert (Hpre : str_size src + str_size ws0 + 1 = str_size pre).
  { unfold pre. rewrite !str_size_app.
    change (str_size (String ">" EmptyString)) with 1. lia. }
  assert (Hahead : blank_ahead (ws +:+ comment)).
  { destruct ws as [|c ws']; [done|]. rewrite str_app_cons. simpl in *.
    by apply andb_true_iff in Hws as [? _]. }
  assert (Hws1 : 1 ≤ str_size ws).
  { destruct ws; [done|]. unfold str_size. simpl. lia. }
  pose proof (join_tokens_length _ _ Htoks) as Hlen.
  pose proof (str_size_nonneg pre). pose proof (str_size_nonneg (join_tokens toks)).
  pose proof (str_size_nonneg comment).
  assert (Hrun : ∀ r,
            (∀ lnks, parseLinks_step stof WEIGHTED
                       (pre +:+ join_tokens toks +:+ (ws +:+ comment))
                       (str_size pre + str_size (join_tokens toks)) lnks = Thrown r) →
            parseLinks_line stof WEIGHTED
              (src +:+ ws0 +:+ String ">" (join_tokens toks +:+ ws +:+ comment))
            = Some (Thrown r)).
  { intros r Hstep. rewrite parseLinks_line_head by done.
    rewrite Hpre, Hline.
    rewrite (parseLinks_loop_tokens WEIGHTED true); [|by rewrite <- Hline|done|done|].
    2:{ rewrite !str_length_app. lia. }
    destruct (S _ - length toks)%nat as [|fuel] eqn:Hfuel.
    { rewrite !str_length_app in Hfuel. lia. }
    cbn [parseLinks_loop].
    replace (_ <? _) with true.
    2:{ symmetry. apply Z.ltb_lt. rewrite !str_size_app. lia. }
    cbn [negb]. by rewrite Hstep. }
  split.
  - intros ->. eexists. apply Hrun. intros lnks. unfold parseLinks_step.
    assert (Hp : find_first_not_of (pre +:+ join_tokens toks +:+ ws +:+ EmptyString) spaces
                   (str_size pre + str_size (join_tokens toks)) = npos).
    { unfold find_first_not_of. rewrite <- (str_app_assoc pre), str_app_nil_r.
      rewrite <- str_size_app. apply find_if_from_none. by apply str_all_blank_not. }
    rewrite Hp. unfold substr.
    replace (_ <? npos) with true; [done|]. symmetry. apply Z.ltb_lt.
    by rewrite Hline in Hsize.
  - intros text ->. apply Hrun. intros lnks. unfold parseLinks_step.
    assert (Hp : find_first_not_of (pre +:+ join_tokens toks +:+ ws +:+ String "#" text)
                   spaces (str_size pre + str_size (join_tokens toks))
                 = str_size pre + str_size (join_tokens toks) + str_size ws).
    { unfold find_first_not_of. rewrite <- (str_app_assoc pre).
      rewrite <- str_size_app. apply find_if_from_app; [|done].
      by apply str_all_blank_not. }
    rewrite Hp. unfold substr.
    replace (_ <? _) with false.
    2:{ symmetry. apply Z.ltb_ge. rewrite !str_size_app. lia. }
    replace (pre +:+ join_tokens toks +:+ ws +:+ String "#" text)
      with ((pre +:+ join_tokens toks +:+ ws) +:+ String "#" text)
      by (by rewrite !str_app_assoc).
    rewrite str_drop_app_Z by (rewrite !str_size_app; lia).
    done.
Qed.

(** *** An id of more than eight digits *)

Lemma str_take_drop (n : nat) (s : string) : str_take n s +:+ str_drop n s = s.
Proof.
  revert s. induction n as [|n IH]; intros s; [done|].
  destruct s as [|c s]; [done|]. simpl. rewrite str_app_cons. by rewrite IH.
Qed.

Lemma str_take_length (n : nat) (s : string) :
  (n ≤ String.length s)%nat → String.length (str_take n s) = n.
Proof.
  revert s. induction n as [|n IH]; intros s Hn; [done|].
  destruct s as [|c s]; simpl in *; [lia|]. rewrite IH; [done|lia].
Qed.

Lemma parseLinks_step_long_token (WEIGHTED : bool) (pre ws t : string)
    (lnks : list (@InpLink W)) :
  str_size (pre +:+ ws +:+ t) < npos →
  str_all is_blank ws = true → str_all is_digit t = true → (8 < String.length t)%nat →
  parseLinks_step stof WEIGHTED (pre +:+ ws +:+ t) (str_size pre) lnks
  = Done (str_size (pre +:+ ws +:+ t), lnks ++ [plain_link WEIGHTED (str_take 8 t)]).
Proof.
  intros Hsize Hws Ht Hlen.
  pose proof (str_take_drop 8 t) as Hsplit.
  pose proof (str_take_length 8 t) as Hlen8.
  set (t1 := str_take 8 t) in *. set (t2 := str_drop 8 t) in *.
  assert (Ht12 : str_all is_digit t1 = true ∧ str_all is_digit t2 = true).
  { rewrite <- Hsplit, str_all_app in Ht. by apply andb_true_iff in Ht. }
  destruct Ht12 as [Ht1 Ht2]. specialize (Hlen8 ltac:(lia)).
  assert (Hlen2 : (0 < String.length t2)%nat).
  { unfold t2. rewrite str_drop_length. lia. }
  destruct t2 as [|c2 t2'] eqn:Ht2eq; [simpl in Hlen2; lia|].
  rewrite <- Hsplit in *. clear Hsplit.
  set (line := pre +:+ ws +:+ t1 +:+ String c2 t2') in *.
  assert (Hline : str_size line = str_size pre + str_size ws + 8 + str_size (String c2 t2')).
  { unfold line. rewrite !str_size_app. unfold str_size at 3. rewrite Hlen8. lia. }
  pose proof (str_size_nonneg pre). pose proof (str_size_nonneg ws).
  assert (Hs2 : 1 ≤ str_size (String c2 t2')) by (unfold str_size; simpl; lia).
  assert (Hne1 : t1 ≠ EmptyString) by (intros Heq; by rewrite Heq in Hlen8).
  pose proof Ht2 as Hc2. simpl in Hc2. apply andb_true_iff in Hc2 as [Hc2 _].
  apply is_digit_plain in Hc2 as (_ & _ & _ & Hc2b & Hc2c & _).
  unfold parseLinks_step.
  assert (Hp : find_first_not_of line spaces (str_size pre) = str_size pre + str_size ws).
  { unfold find_first_not_of, line. destruct t1 as [|c t1']; [done|].
    rewrite (str_app_cons c t1'). apply find_if_from_app.
    - by apply str_all_blank_not.
    - simpl in Ht1. apply andb_true_iff in Ht1 as [Hc _].
      apply is_digit_plain in Hc as (_ & _ & _ & Hb & _). unfold is_blank in Hb.
      by rewrite Hb. }
  rewrite Hp.
  assert (Hdrop : str_drop (Z.to_nat (str_size pre + str_size ws)) line
                  = t1 +:+ String c2 t2').
  { unfold line. rewrite <- (str_app_assoc pre ws).
    apply str_drop_app_Z. by rewrite str_size_app. }
  unfold substr.
  replace (str_size line <? str_size pre + str_size ws) with false
    by (symmetry; apply Z.ltb_ge; lia).
  rewrite Hdrop. unfold SYM_DIGITS_MAX. change (Z.to_nat (6 + 2)) with 8%nat.
  rewrite <- Hlen8 at 1. rewrite str_take_app.
  cbn [mbind Outcome_mbind Outcome_bind].
  rewrite <- (str_app_nil_r t1) at 1.
  rewrite stoul_digits; [|done|done|done|].
  2:{ pose proof (digits_value_bound t1 Ht1) as Hv.
      assert (10 ^ str_size t1 ≤ 10 ^ 8).
      { apply Z.pow_le_mono_r; [lia|]. unfold str_size. lia. }
      unfold ULONG_MAX. lia. }
  cbn [mbind Outcome_mbind Outcome_bind].
  assert (Hs1 : str_size t1 = 8) by (unfold str_size; lia).
  rewrite Hs1.
  assert (Hat : str_at line (str_size pre + str_size ws + 8) = c2).
  { replace line with ((pre +:+ ws +:+ t1) +:+ String c2 t2')
      by (unfold line; by rewrite !str_app_assoc).
    replace (str_size pre + str_size ws + 8) with (str_size (pre +:+ ws +:+ t1))
      by (rewrite !str_size_app; lia).
    apply str_at_app. }
  rewrite Hat. rewrite (bool_decide_eq_false_2 _ Hc2c). rewrite andb_false_r.
  cbn [mbind Outcome_mbind Outcome_bind mret Outcome_ret].
  assert (Hoffs : find_first_of line spaces (str_size pre + str_size ws + 8) = npos).
  { unfold find_first_of.
    replace line with ((pre +:+ ws +:+ t1) +:+ String c2 t2')
      by (unfold line; by rewrite !str_app_assoc).
    replace (str_size pre + str_size ws + 8) with (str_size (pre +:+ ws +:+ t1))
      by (rewrite !str_size_app; lia).
    apply find_if_from_none.
    clear -Ht2. generalize dependent (String c2 t2'). intros s.
    induction s as [|c s IH]; [done|]. simpl.
    intros [Hc Hs]%andb_true_iff. apply is_digit_plain in Hc as (_ & _ & _ & Hb & _).
    unfold is_blank in Hb. rewrite Hb. simpl. by apply IH. }
  rewrite Hoffs. rewrite Z.eqb_refl. cbn [negb]. rewrite andb_false_r. cbn [andb].
  done.
Qed.

(** X15. A destination id of more than eight digits at the end of a link line
    is cut after its eighth digit without an error: the link goes to the
    node whose id the first eight digits write. *)
Theorem parseLinks_line_long_id (WEIGHTED : bool) (src ws0 : string)
    (toks : list (string * string)) (ws t : string) :
  str_size (src +:+ ws0 +:+ String ">" (join_tokens toks +:+ ws +:+ t)) < npos →
  digits_upto 19 src → str_all is_blank ws0 = true → tokens_ok true toks →
  str_all is_blank ws = true → ws ≠ EmptyString →
  str_all is_digit t = true → (8 < String.length t)%nat →
  parseLinks_line stof WEIGHTED
    (src +:+ ws0 +:+ String ">" (join_tokens toks +:+ ws +:+ t))
  = Some (Done (Some (to_Id (digits_value src),
                      (plain_link WEIGHTED <$> toks.*2)
                      ++ [plain_link WEIGHTED (str_take 8 t)]))).
Proof.
  intros Hsize Hsrc Hws0 Htoks Hws Hne Ht Hlen.
  set (pre := src +:+ ws0 +:+ String ">" EmptyString).
  assert (Hline : src +:+ ws0 +:+ String ">" (join_tokens toks +:+ ws +:+ t)
                  = pre +:+ join_tokens toks +:+ (ws +:+ t)).
  { unfold pre. by rewrite !str_app_assoc. }
  assert (Hpre : str_size src + str_size ws0 + 1 = str_size pre).
  { unfold pre. rewrite !str_size_app.
    change (str_size (String ">" EmptyString)) with 1. lia. }
  assert (Hahead : blank_ahead (ws +:+ t)).
  { destruct ws as [|c ws']; [done|]. rewrite str_app_cons. simpl in *.
    by apply andb_true_iff in Hws as [? _]. }
  pose proof (join_tokens_length _ _ Htoks) as Hjl.
  pose proof (str_size_nonneg pre). pose proof (str_size_nonneg (join_tokens toks)).
  pose proof (str_size_nonneg ws).
  rewrite parseLinks_line_head by done.
  rewrite Hpre, Hline.
  rewrite (parseLinks_loop_tokens WEIGHTED true); [|by rewrite <- Hline|done|done|].
  2:{ rewrite !str_length_app. lia. }
  destruct (S _ - length toks)%nat as [|fuel] eqn:Hfuel.
  { rewrite !str_length_app in Hfuel. lia. }
  cbn [parseLinks_loop].
  replace (_ <? _) with true.
  2:{ symmetry. apply Z.ltb_lt. rewrite !str_size_app. unfold str_size at 6. lia. }
  cbn [negb].
  replace (pre +:+ join_tokens toks +:+ ws +:+ t)
    with ((pre +:+ join_tokens toks) +:+ ws +:+ t) by (by rewrite !str_app_assoc).
  rewrite <- str_size_app.
  rewrite parseLinks_step_long_token; [|by rewrite str_app_assoc, <- Hline|done|done|done].
  by rewrite parseLinks_loop_end.
Qed.

End link_lines.

(** ** The arguments of the client *)

Section args_facts.
Context {W : Type} `{WeightOps W}.
Variable stof : string → Outcome (W * nat).

Lemma classifyArgs_loop_spec (args opts files : list string) :
  classifyArgs_loop args opts files
  = (opts ++ (str_drop 1 <$> filter (λ a, str_at a 0 = "-"%char) args),
     files ++ filter (λ a, str_at a 0 ≠ "-"%char) args).
Proof.
  revert opts files. induction args as [|a args IH]; intros opts files.
  - simpl. by rewrite !app_nil_r.
  - cbn [classifyArgs_loop]. rewrite !filter_cons.
    destruct (decide (str_at a 0 = "-"%char)) as [Ha|Ha].
    + rewrite bool_decide_eq_true_2 by done. rewrite IH.
      rewrite decide_False by (intros Hn; by apply Hn).
      by rewrite fmap_cons, <- app_assoc.
    + rewrite bool_decide_eq_false_2 by done. rewrite IH.
      rewrite decide_True by done. by rewrite <- app_assoc.
Qed.

Lemma parseArgs_option_inv (opt : string) (pc pc' : @ClientParams W * Client) :
  parseArgs_option stof opt pc = Done pc' →
  known_option opt = true
  ∧ m_inpfile pc'.1 = m_inpfile pc.1
  ∧ m_validate pc'.1 = m_validate pc.1 && negb (option_kind "c" opt)
  ∧ m_fast pc'.1 = m_fast pc.1 || option_kind "f" opt
  ∧ m_reorder pc'.2 = m_reorder pc.2 || option_kind "r" opt
  ∧ m_nodesNum pc'.2 = m_nodesNum pc.2
  ∧ m_nodesStartId pc'.2 = m_nodesStartId pc.2
  ∧ m_graphPtr pc'.2 = m_graphPtr pc.2.
Proof.
  destruct pc as [p c]. unfold parseArgs_option, known_option, option_kind.
  destruct (bool_decide (str_at opt 0 = "o"%char)) eqn:Ho.
  { apply bool_decide_eq_true in Ho. rewrite Ho.
    destruct (_ || _); [done|]. intros [= <-]. cbn [fst snd m_inpfile m_validate m_fast].
    split; [done|]. split; [done|].
    split; [by rewrite andb_true_r|]. split; [by rewrite orb_false_r|].
    split; [by rewrite orb_false_r|]. done. }
  destruct (bool_decide (str_at opt 0 = "c"%char)) eqn:Hc.
  { apply bool_decide_eq_true in Hc. rewrite Hc.
    intros [= <-]. cbn [fst snd m_inpfile m_validate m_fast].
    split; [done|]. split; [done|].
    split; [by rewrite andb_false_r|]. split; [by rewrite orb_false_r|].
    split; [by rewrite orb_false_r|]. done. }
  destruct (bool_decide (str_at opt 0 = "f"%char)) eqn:Hf.
  { apply bool_decide_eq_true in Hf. rewrite Hf.
    intros [= <-]. cbn [fst snd m_inpfile m_validate m_fast].
    split; [done|]. split; [done|].
    split; [by rewrite andb_true_r|]. split; [by rewrite orb_true_r|].
    split; [by rewrite orb_false_r|]. done. }
  destruct (bool_decide (str_at opt 0 = "r"%char)) eqn:Hr.
  { intros [= <-]. cbn [fst snd m_inpfile m_validate m_fast m_reorder m_nodesNum
                        m_nodesStartId m_graphPtr].
    split; [done|]. split; [done|].
    split; [by rewrite andb_true_r|]. split; [by rewrite orb_false_r|].
    split; [by rewrite orb_true_r|]. done. }
  destruct (bool_decide (str_at opt 0 = "m"%char)) eqn:Hm; [|done].
  destruct (substr opt 1 npos) as [sub| | |]; try done.
  cbn [mbind Outcome_mbind Outcome_bind].
  destruct (stof sub) as [[v n]| | |]; try done.
  intros [= <-]. cbn [fst snd m_inpfile m_validate m_fast].
  split; [done|]. split; [done|].
  split; [by rewrite andb_true_r|]. split; [by rewrite orb_false_r|].
  split; [by rewrite orb_false_r|]. done.
Qed.

Lemma parseArgs_options_inv (opts : list string) (pc pc' : @ClientParams W * Client) :
  parseArgs_options stof opts pc = Done pc' →
  forallb known_option opts = true
  ∧ m_inpfile pc'.1 = m_inpfile pc.1
  ∧ m_validate pc'.1 = m_validate pc.1 && negb (existsb (option_kind "c") opts)
  ∧ m_fast pc'.1 = m_fast pc.1 || existsb (option_kind "f") opts
  ∧ m_reorder pc'.2 = m_reorder pc.2 || existsb (option_kind "r") opts
  ∧ m_nodesNum pc'.2 = m_nodesNum pc.2
  ∧ m_nodesStartId pc'.2 = m_nodesStartId pc.2
  ∧ m_graphPtr pc'.2 = m_graphPtr pc.2.
Proof.
  revert pc. induction opts as [|opt opts IH]; intros pc.
  - simpl. intros [= <-]. by rewrite andb_true_r, !orb_false_r.
  - cbn [parseArgs_options].
    destruct (parseArgs_option stof opt pc) as [pc1| | |] eqn:Hopt; try done.
    cbn [mbind Outcome_mbind Outcome_bind]. intros Hrest.
    apply parseArgs_option_inv in Hopt
      as (Hk & Hfile & Hval & Hfast & Hre & Hnum & Hstart & Hptr).
    apply IH in Hrest as (Hk' & Hfile' & Hval' & Hfast' & Hre' & Hnum' & Hstart' & Hptr').
    simpl. rewrite Hk, Hk', Hfile', Hfile, Hval', Hval, Hfast', Hfast, Hre', Hre.
    rewrite Hnum', Hnum, Hstart', Hstart, Hptr', Hptr.
    split_and!; try done.
    + rewrite negb_orb. by rewrite andb_assoc.
    + by rewrite orb_assoc.
    + by rewrite orb_assoc.
Qed.

Lemma filter_none {A : Type} (P : A → Prop) `{∀ x, Decision (P x)} (l : list A) :
  (∀ x, x ∈ l → ¬ P x) → filter P l = [].
Proof.
  induction l as [|x l IH]; intros Hl; [done|].
  rewrite filter_cons, decide_False by (apply Hl; by left).
  apply IH. intros y Hy. apply Hl. by right.
Qed.

(** X16. [parseArgs] returns [false] exactly when there is no argument after
    the program name, and then it changes nothing; when no argument is a
    file name, which is every argument that does not start with [-], it
    throws [domain_error], whatever the options are. *)
Theorem parseArgs_without_file (argv : list string) (pc : @ClientParams W * Client) :
  (∀ pc', parseArgs stof argv pc = Done (false, pc') ↔ (length argv < 2)%nat ∧ pc' = pc)
  ∧ ((2 ≤ length argv)%nat →
     (∀ arg, arg ∈ drop 1 argv → str_at arg 0 = "-"%char) →
     parseArgs stof argv pc
     = Thrown (domain_error "Output file name is expected to be provided")).
Proof.
  unfold parseArgs, classifyArgs. split.
  - intros pc'. destruct (Z.of_nat (length argv) <? 2) eqn:Hlen.
    + apply Z.ltb_lt in Hlen. split; [intros [= <-]; split; [lia|done]|].
      by intros [_ ->].
    + apply Z.ltb_ge in Hlen. split; [|intros [? _]; lia].
      rewrite classifyArgs_loop_spec. cbn [app].
      destruct (filter _ (drop 1 argv)) as [|file files]; [done|].
      destruct pc as [p c].
      by destruct (parseArgs_options _ _ _).
  - intros Hlen Hall.
    replace (Z.of_nat (length argv) <? 2) with false by (symmetry; apply Z.ltb_ge; lia).
    rewrite classifyArgs_loop_spec. cbn [app].
    rewrite (filter_none (λ a, str_at a 0 ≠ "-"%char)); [done|].
    intros arg Harg Hne. by apply Hne, Hall.
Qed.

(** X17. When [parseArgs] returns [true]: the input file is the first argument
    that does not start with [-], every option starts with one of the
    letters [o], [c], [f], [r], [m], and the flags depend on these first
    letters only: validation is switched off by an option [c...], the fast
    mode and the reordering are switched on by [f...] and [r...].  The
    fields of the file reader are not touched. *)
Theorem parseArgs_accepts (argv : list string) (pc pc' : @ClientParams W * Client) :
  parseArgs stof argv pc = Done (true, pc') →
  let opts := str_drop 1 <$> filter (λ a, str_at a 0 = "-"%char) (drop 1 argv) in
  let files := filter (λ a, str_at a 0 ≠ "-"%char) (drop 1 argv) in
  head files = Some (m_inpfile pc'.1)
  ∧ forallb known_option opts = true
  ∧ m_validate pc'.1 = m_validate pc.1 && negb (existsb (option_kind "c") opts)
  ∧ m_fast pc'.1 = m_fast pc.1 || existsb (option_kind "f") opts
  ∧ m_reorder pc'.2 = m_reorder pc.2 || existsb (option_kind "r") opts
  ∧ m_nodesNum pc'.2 = m_nodesNum pc.2
  ∧ m_nodesStartId pc'.2 = m_nodesStartId pc.2
  ∧ m_graphPtr pc'.2 = m_graphPtr pc.2.
Proof.
  unfold parseArgs, classifyArgs.
  destruct (Z.of_nat (length argv) <? 2); [done|].
  rewrite classifyArgs_loop_spec. cbn [app].
  destruct (filter (λ a, str_at a 0 ≠ "-"%char) (drop 1 argv)) as [|file files]; [done|].
  destruct pc as [p c].
  destruct (parseArgs_options _ _ _) as [pc1| | |] eqn:Hopts; try done.
  cbn [mbind Outcome_mbind Outcome_bind]. intros [= <-].
  apply parseArgs_options_inv in Hopts as (Hk & Hfile & Hrest).
  cbn [fst snd m_inpfile] in *. split; [by rewrite Hfile|].
  split; [done|]. exact Hrest.
Qed.

End args_facts.

(** ** The reader of [.hig] files *)

Section process_facts.
Context {W : Type} `{WeightOps W}.
Variable NDEBUG : bool.
Variable stof : string → Outcome (W * nat).

(** *** The first character of a line *)

Lemma first_char_find (line : string) :
  str_size line < npos →
  match first_char line with
  | None => find_first_not_of line spaces 0 = npos
  | Some c =>
      0 ≤ find_first_not_of line spaces 0 < str_size line
      ∧ str_at line (find_first_not_of line spaces 0) = c
  end.
Proof.
  intros Hsize. unfold find_first_not_of, find_if_from, str_at.
  change (Z.to_nat 0) with O. cbn [str_drop].
  destruct (str_size line <=? 0) eqn:Hz.
  - apply Z.leb_le in Hz. destruct line; [done|]. unfold str_size in Hz. simpl in Hz. lia.
  - clear Hz.
    assert (Hgen : match first_char line with
                   | None => find_if (λ x, negb (char_in spaces x)) line = None
                   | Some c => ∃ i, find_if (λ x, negb (char_in spaces x)) line = Some i
                                    ∧ (i < String.length line)%nat
                                    ∧ str_drop i line
                                      = String c (str_drop (S i) line)
                   end).
    { clear Hsize. induction line as [|a line IH]; [done|]. simpl.
      unfold is_blank. destruct (char_in spaces a); simpl.
      - destruct (first_char line) as [c|].
        + destruct IH as (i & -> & Hi & Hdrop). exists (S i). simpl.
          split; [done|]. split; [lia|done].
        + by rewrite IH.
      - exists O. simpl. split; [done|]. split; [lia|done]. }
    destruct (first_char line) as [c|].
    + destruct Hgen as (i & -> & Hi & Hdrop). rewrite Z.add_0_l, Nat2Z.id, Hdrop.
      unfold str_size. split; [lia|done].
    + by rewrite Hgen.
Qed.

(** *** Lines that the reader skips *)

Lemma process_line_comment (st : Reader) (line : string) (w : @World W) :
  str_size line < npos → comment_line line = true →
  process_line NDEBUG stof st line w = Some (Done (st, w)).
Proof.
  intros Hsize Hc. unfold process_line, comment_line in *.
  pose proof (first_char_find line Hsize) as Hf.
  destruct (first_char line) as [c|].
  - destruct Hf as [Hrange Hat]. rewrite Hat. rewrite Hc.
    by rewrite orb_true_r.
  - by rewrite Hf.
Qed.

Lemma process_lines_comments (st : Reader) (lines : list string) (w : @World W) :
  Forall (λ line, str_size line < npos) lines →
  process_lines NDEBUG stof st lines w
  = process_lines NDEBUG stof st (filter (λ line, comment_line line = false) lines) w.
Proof.
  intros Hsize. revert st w. induction Hsize as [|line lines Hline _ IH]; intros st w.
  - done.
  - rewrite filter_cons. destruct (comment_line line) eqn:Hc.
    + rewrite decide_False by done. cbn [process_lines].
      rewrite process_line_comment by done. cbn [mbind option_bind]. apply IH.
    + rewrite decide_True by done. cbn [process_lines].
      destruct (process_line NDEBUG stof st line w) as [[[st' w']| | |]|]; try done.
      cbn [mbind option_bind]. apply IH.
Qed.

(** *** Section headers *)

(** The title of a header line [ws / title rest]. *)
Lemma process_header_title (ws title rest : string) (st : Reader) :
  str_size (ws +:+ String "/" (title +:+ rest)) < npos →
  str_all (λ c, negb (is_blank c)) title = true → blank_ahead rest →
  find_first_of (ws +:+ String "/" (title +:+ rest)) spaces (str_size ws + 1)
  = (if bool_decide (rest = EmptyString) then npos
     else str_size ws + 1 + str_size title)
  ∧ substr (ws +:+ String "/" (title +:+ rest)) (str_size ws + 1)
      ((if bool_decide (rest = EmptyString) then npos
        else str_size ws + 1 + str_size title) - (str_size ws + 1))
    = Done title.
Proof.
  intros Hsize Htitle Hrest.
  set (line := ws +:+ String "/" (title +:+ rest)) in *.
  assert (Hshape : line = (ws +:+ String "/" EmptyString) +:+ title +:+ rest).
  { unfold line. by rewrite str_app_assoc. }
  assert (Hpre : str_size (ws +:+ String "/" EmptyString) = str_size ws + 1).
  { rewrite str_size_app. done. }
  assert (Hline : str_size line = str_size ws + 1 + str_size title + str_size rest).
  { rewrite Hshape, !str_size_app. change (str_size (String "/" EmptyString)) with 1. lia. }
  pose proof (str_size_nonneg ws). pose proof (str_size_nonneg title).
  pose proof (str_size_nonneg rest).
  assert (Hdrop : str_drop (Z.to_nat (str_size ws + 1)) line = title +:+ rest).
  { rewrite Hshape. by apply str_drop_app_Z. }
  split.
  - unfold find_first_of. rewrite Hshape, <- Hpre.
    destruct rest as [|c rest'].
    + rewrite str_app_nil_r. by rewrite find_if_from_none.
    + rewrite bool_decide_eq_false_2 by done.
      rewrite find_if_from_app; [done| |done].
      clear -Htitle. induction title as [|a t IH]; [done|]. simpl in *.
      apply andb_true_iff in Htitle as [Ha Ht]. unfold is_blank in Ha.
      rewrite Ha. by apply IH.
  - unfold substr.
    replace (str_size line <? str_size ws + 1) with false
      by (symmetry; apply Z.ltb_ge; lia).
    rewrite Hdrop. f_equal. destruct rest as [|c rest'].
    + rewrite bool_decide_eq_true_2 by done. rewrite str_app_nil_r.
      apply str_take_all. change (str_size EmptyString) with 0 in Hline.
      unfold str_size in *. lia.
    + rewrite bool_decide_eq_false_2 by done.
      replace (str_size ws + 1 + str_size title - (str_size ws + 1)) with (str_size title)
        by lia.
      unfold str_size. rewrite Nat2Z.id. apply str_take_app.
Qed.

Lemma process_line_header (ws rest : string) (st : Reader) (w : @World W) :
  str_size (ws +:+ String "/" rest) < npos → str_all is_blank ws = true →
  process_line NDEBUG stof st (ws +:+ String "/" rest) w
  = Some (st' ← process_header (ws +:+ String "/" rest) (str_size ws) st; Done (st', w)).
Proof.
  intros Hsize Hws. unfold process_line.
  assert (Hp : find_first_not_of (ws +:+ String "/" rest) spaces 0 = str_size ws).
  { unfold find_first_not_of.
    change (ws +:+ String "/" rest) with (EmptyString +:+ ws +:+ String "/" rest).
    change 0 with (str_size EmptyString) at 1.
    rewrite find_if_from_app; [done| |done]. by apply str_all_blank_not. }
  rewrite Hp.
  pose proof (str_size_nonneg ws). pose proof (str_size_nonneg (String "/" rest)).
  rewrite str_size_app in Hsize.
  replace (str_size ws =? npos) with false by (symmetry; apply Z.eqb_neq; lia).
  by rewrite str_at_app.
Qed.

(** X18. A section header [/title] after blanks, the title ending at the first
    blank or at the end of the line.  The title is compared without regard
    to case.  [/Edges] and [/Arcs] are accepted in every place and set the
    section; [/Graph] is refused unless it is the first section, [/Nodes]
    unless it is the first or follows [/Graph]; an empty title and every
    other title are refused. *)
Theorem process_line_section (ws title rest : string) (st : Reader) (w : @World W) :
  str_size (ws +:+ String "/" (title +:+ rest)) < npos →
  str_all is_blank ws = true →
  str_all (λ c, negb (is_blank c)) title = true → blank_ahead rest →
  let run := process_line NDEBUG stof st (ws +:+ String "/" (title +:+ rest)) w in
  if bool_decide (title = EmptyString)
  then run = Some (Thrown (domain_error ("Invalid (empty) section header" +:+ newline)))
  else
    match section_of (str_map tolower title) with
    | Some EDGES =>
        run = Some (Done ({| weighted := weighted st; sect := EDGES; client := client st |}, w))
    | Some ARCS =>
        run = Some (Done ({| weighted := weighted st; sect := ARCS; client := client st |}, w))
    | Some GRAPH =>
        sect st ≠ NONE →
        run = Some (Thrown (domain_error
                 ("Unexpected section: Graph section must be first one" +:+ newline)))
    | Some NODES =>
        sect st ≠ NONE → sect st ≠ GRAPH →
        run = Some (Thrown (domain_error
                 ("Unexpected section: Nodes section must be first one"
                  +:+ " or after the Graph section" +:+ newline)))
    | Some NONE => True
    | None =>
        run = Some (Thrown (out_of_range
                 (("Unknown section is used: " +:+ str_map tolower title) +:+ newline)))
    end.
Proof.
  intros Hsize Hws Htitle Hrest run. unfold run. clear run.
  rewrite process_line_header by done.
  destruct (process_header_title ws title rest st Hsize Htitle Hrest) as [Hpose Hsub].
  unfold process_header. rewrite Hpose, Hsub.
  cbn [mbind Outcome_mbind Outcome_bind].
  destruct (bool_decide (title = EmptyString)); [done|].
  unfold section_of.
  destruct (bool_decide (str_map tolower title = "graph")).
  { intros Hs. unfold header_graph. by rewrite (bool_decide_eq_false_2 _ Hs). }
  destruct (bool_decide (str_map tolower title = "nodes")).
  { intros Hs1 Hs2. unfold header_nodes.
    rewrite (bool_decide_eq_false_2 _ Hs1), (bool_decide_eq_false_2 _ Hs2). done. }
  destruct (bool_decide (str_map tolower title = "edges")); [done|].
  by destruct (bool_decide (str_map tolower title = "arcs")).
Qed.

Variable processNodes : bool → list NodePtr → bool → @ClientParams W → @M W unit.

(** X19. Blank lines and comment lines, whose first character after the blanks
    is [#], do not matter: a file without them is processed as the file
    with them. *)
Theorem process_ignores_comments (lines : list string) (p : @ClientParams W) (c : Client)
    (w : @World W) :
  Forall (λ line, str_size line < npos) lines →
  process NDEBUG stof processNodes lines p c w
  = process NDEBUG stof processNodes
      (filter (λ line, comment_line line = false) lines) p c w.
Proof.
  intros Hsize. unfold process.
  destruct (assert _ _ _ _) as [[[] w1]| | |]; try done.
  by rewrite process_lines_comments.
Qed.

(** *** Lines outside the sections of links *)

Lemma assert_run (b : bool) (msg : string) (w : @World W) :
  assert NDEBUG (mret b) msg w
  = if NDEBUG || b then Done ((), w) else AssertFailed msg.
Proof. unfold assert. destruct NDEBUG; [done|]. by destruct b. Qed.

Lemma process_line_outside (st : Reader) (line : string) (w : @World W) :
  str_size line < npos → header_line line = false →
  sect st ≠ EDGES → sect st ≠ ARCS →
  process_line NDEBUG stof st line w = Some (Done (st, w)).
Proof.
  intros Hsize Hh He Ha. unfold process_line, header_line in *.
  pose proof (first_char_find line Hsize) as Hf.
  destruct (first_char line) as [c|].
  - destruct Hf as [Hrange Hat]. rewrite Hat, Hh.
    destruct ((_ =? _) || _); [done|]. cbn [negb].
    by rewrite (bool_decide_eq_false_2 _ He), (bool_decide_eq_false_2 _ Ha).
  - by rewrite Hf.
Qed.

Lemma process_lines_outside (st : Reader) (lines : list string) (w : @World W) :
  Forall (λ line, str_size line < npos ∧ header_line line = false) lines →
  sect st ≠ EDGES → sect st ≠ ARCS →
  process_lines NDEBUG stof st lines w = Some (Done (st, w)).
Proof.
  intros Hlines He Ha. induction Hlines as [|line lines [Hsize Hh] _ IH]; [done|].
  cbn [process_lines]. rewrite process_line_outside by done. apply IH.
Qed.

(** X20. A file without a section header: its lines are skipped, link lines
    too, no graph is built, and the run ends with the error of
    [processGraph]; so does the run on a file that cannot be opened.  When
    the assertions are compiled in, a client that holds a graph on start
    fails the first of them. *)
Theorem process_without_sections (lines : list string) (p : @ClientParams W) (c : Client)
    (w : @World W) :
  Forall (λ line, str_size line < npos ∧ header_line line = false) lines →
  process NDEBUG stof processNodes lines p c w
  = Some (if NDEBUG || bool_decide (m_graphPtr c = None)
          then Thrown (domain_error ("Graph should be existed" +:+ newline))
          else AssertFailed ("m_graphPtr should be empty on start" +:+ newline)).
Proof.
  intros Hlines. unfold process. rewrite assert_run.
  destruct (NDEBUG || bool_decide (m_graphPtr c = None)); [|done].
  by rewrite process_lines_outside.
Qed.

End process_facts.

Section header_facts.
Context {W : Type} `{WeightOps W}.
Variable NDEBUG : bool.
Variable stof : string → Outcome (W * nat).

(** *** Tokens of a header line *)

Lemma digits_not_blank (t : string) :
  str_all is_digit t = true → str_all (λ c, negb (is_blank c)) t = true.
Proof.
  induction t as [|c t IH]; [done|]. simpl. intros [Hc Ht]%andb_true_iff.
  apply is_digit_plain in Hc as (_ & _ & _ & -> & _). by rewrite IH.
Qed.

(** Blanks, then a token, then the end of the line or a blank: where the
    searches of the reader stop, and what [substr] cuts out. *)
Lemma token_scan (pre bl tok rest : string) :
  str_size (pre +:+ bl +:+ tok +:+ rest) < npos →
  str_all is_blank bl = true →
  tok ≠ EmptyString → str_all (λ c, negb (is_blank c)) tok = true →
  blank_ahead rest →
  let line := pre +:+ bl +:+ tok +:+ rest in
  let pos := str_size pre + str_size bl in
  let pose := if bool_decide (rest = EmptyString) then npos else pos + str_size tok in
  find_first_not_of line spaces (str_size pre) = pos
  ∧ find_first_of line spaces (pos + 1) = pose
  ∧ ∃ more, substr line pos pose = Done (tok +:+ more) ∧ no_digit_ahead more.
Proof.
  intros Hsize Hbl Hne Htok Hrest line pos pose.
  pose proof (str_size_nonneg pre). pose proof (str_size_nonneg bl).
  pose proof (str_size_nonneg tok). pose proof (str_size_nonneg rest).
  assert (Hline : str_size line = str_size pre + str_size bl + str_size tok + str_size rest).
  { unfold line. rewrite !str_size_app. lia. }
  assert (Hlt : str_size line < npos) by exact Hsize.
  destruct tok as [|c tok']; [done|]. clear Hne.
  simpl in Htok. apply andb_true_iff in Htok as [Hc Htok].
  assert (Hsc : str_size (String c tok') = 1 + str_size tok').
  { unfold str_size. cbn [String.length]. lia. }
  split; [|split].
  - unfold find_first_not_of, line. rewrite !str_app_cons.
    apply find_if_from_app; [by apply str_all_blank_not|].
    unfold is_blank in Hc. by rewrite Hc.
  - unfold find_first_of.
    assert (Hshape : line = (pre +:+ bl +:+ String c EmptyString) +:+ tok' +:+ rest).
    { unfold line. by rewrite !str_app_assoc. }
    assert (Hpre : str_size (pre +:+ bl +:+ String c EmptyString) = pos + 1).
    { rewrite !str_size_app. unfold pos.
      change (str_size (String c EmptyString)) with 1. lia. }
    rewrite Hshape, <- Hpre. unfold pose. destruct rest as [|d rest'].
    + rewrite str_app_nil_r. rewrite bool_decide_eq_true_2 by done.
      by apply find_if_from_none.
    + rewrite bool_decide_eq_false_2 by done.
      rewrite find_if_from_app; [|done|done]. lia.
  - assert (Hdrop : str_drop (Z.to_nat pos) line = String c tok' +:+ rest).
    { unfold line. rewrite <- str_app_assoc. apply str_drop_app_Z.
      by rewrite str_size_app. }
    unfold substr. replace (str_size line <? pos) with false
      by (symmetry; apply Z.ltb_ge; lia).
    rewrite Hdrop. exists (str_take (Z.to_nat pose - String.length (String c tok')) rest).
    split; [|by apply str_take_blank_ahead].
    f_equal. apply str_take_app_ge. unfold pose, pos.
    destruct (bool_decide (rest = EmptyString)).
    + apply Nat2Z.inj_le. rewrite Z2Nat.id by done. fold (str_size (String c tok')). lia.
    + apply Nat2Z.inj_le. rewrite Z2Nat.id by lia. fold (str_size (String c tok')). lia.
Qed.

Lemma blank_ahead_app (bl rest : string) :
  bl ≠ EmptyString → str_all is_blank bl = true → blank_ahead (bl +:+ rest).
Proof.
  destruct bl as [|c bl]; [done|]. intros _. rewrite str_app_cons. simpl.
  by intros [? _]%andb_true_iff.
Qed.

(** *** A comment after a header *)

Lemma find_str_hash (s : string) (t : string) :
  str_all not_hash s = true →
  find_str "#" (s +:+ String "#" t) = Some (String.length s).
Proof.
  intros Hs. induction s as [|c s IH].
  - done.
  - rewrite str_app_cons. simpl in Hs. apply andb_true_iff in Hs as [Hc Hs].
    unfold not_hash in Hc. apply negb_true_iff, bool_decide_eq_false in Hc.
    cbn [find_str str_prefix].
    replace (Ascii.eqb "#" c) with false
      by (symmetry; apply Ascii.eqb_neq; congruence).
    cbn [andb]. by rewrite IH.
Qed.

Lemma find_str_no_hash (s : string) :
  str_all not_hash s = true → find_str "#" s = None.
Proof.
  intros Hs. induction s as [|c s IH]; [done|].
  simpl in Hs. apply andb_true_iff in Hs as [Hc Hs].
  unfold not_hash in Hc. apply negb_true_iff, bool_decide_eq_false in Hc.
  cbn [find_str str_prefix].
  replace (Ascii.eqb "#" c) with false
    by (symmetry; apply Ascii.eqb_neq; congruence).
  cbn [andb]. by rewrite IH.
Qed.

Lemma str_find_hash_none (pre s : string) (pos : Z) :
  str_size (pre +:+ s) < npos →
  str_all not_hash s = true →
  pos = npos ∨ pos = str_size pre →
  str_find_str (pre +:+ s) "#" pos = npos.
Proof.
  intros Hsize Hs [->| ->]; unfold str_find_str.
  - by replace (_ <? _) with true by (symmetry; by apply Z.ltb_lt).
  - case_match; [done|]. rewrite (str_drop_app_Z pre) by done.
    by rewrite find_str_no_hash.
Qed.

Lemma str_find_hash (pre s t : string) :
  str_size (pre +:+ s +:+ String "#" t) < npos →
  str_all not_hash s = true →
  str_find_str (pre +:+ s +:+ String "#" t) "#" (str_size pre)
  = str_size pre + str_size s.
Proof.
  intros Hsize Hs. unfold str_find_str.
  rewrite str_size_app in *. pose proof (str_size_nonneg (s +:+ String "#" t)).
  replace (_ <? _) with false by (symmetry; apply Z.ltb_ge; lia).
  rewrite (str_drop_app_Z pre) by done. by rewrite find_str_hash.
Qed.

(** A header line without the sign of a comment after the title: the
    line is handed on as it is. *)
Lemma process_header_plain (ws title rest : string) (st : Reader) :
  str_size (ws +:+ String "/" (title +:+ rest)) < npos →
  title ≠ EmptyString → str_all (λ c, negb (is_blank c)) title = true →
  blank_ahead rest → str_all not_hash rest = true →
  let line := ws +:+ String "/" (title +:+ rest) in
  let pose := if bool_decide (rest = EmptyString) then npos
              else str_size ws + 1 + str_size title in
  process_header line (str_size ws) st
  = if bool_decide (str_map tolower title = "graph") then header_graph line pose st
    else if bool_decide (str_map tolower title = "nodes") then header_nodes line pose st
    else if bool_decide (str_map tolower title = "edges")
    then Done {| weighted := weighted st; sect := EDGES; client := client st |}
    else if bool_decide (str_map tolower title = "arcs")
    then Done {| weighted := weighted st; sect := ARCS; client := client st |}
    else Thrown (out_of_range
                   (("Unknown section is used: " +:+ str_map tolower title) +:+ newline)).
Proof.
  intros Hsize Hne Htitle Hrest Hhash line pose.
  destruct (process_header_title ws title rest st Hsize Htitle Hrest) as [Hpose Hsub].
  unfold process_header. fold line. fold line in Hpose, Hsub. fold pose in Hpose, Hsub.
  rewrite Hpose, Hsub. cbn [mbind Outcome_mbind Outcome_bind].
  rewrite (bool_decide_eq_false_2 _ Hne).
  assert (Hfind : str_find_str line "#" pose = npos).
  { unfold line.
    replace (ws +:+ String "/" (title +:+ rest))
      with ((ws +:+ String "/" title) +:+ rest)
      by (by rewrite str_app_assoc, str_app_cons).
    apply str_find_hash_none; [|done|].
    - by rewrite str_app_assoc, str_app_cons.
    - unfold pose. destruct (bool_decide (rest = EmptyString)); [by left|right].
      rewrite str_size_app. unfold str_size. cbn [String.length]. lia. }
  rewrite Hfind. by rewrite Z.eqb_refl.
Qed.

(** X21. A comment after a section header, from the first [#] that follows the
    blank after the title, is cut off before the attributes are read: the
    header with the comment is read as the header without it. *)
Theorem process_line_header_comment (ws title rest comment : string) (st : Reader)
    (w : @World W) :
  str_size (ws +:+ String "/" (title +:+ rest +:+ String "#" comment)) < npos →
  str_all is_blank ws = true →
  str_all (λ c, negb (is_blank c)) title = true →
  rest ≠ EmptyString → blank_ahead rest → str_all not_hash rest = true →
  process_line NDEBUG stof st (ws +:+ String "/" (title +:+ rest +:+ String "#" comment)) w
  = process_line NDEBUG stof st (ws +:+ String "/" (title +:+ rest)) w.
Proof.
  intros Hsize Hws Htitle Hne Hrest Hhash.
  assert (Hsize' : str_size (ws +:+ String "/" (title +:+ rest)) < npos).
  { revert Hsize. rewrite !str_size_app. unfold str_size. cbn [String.length].
    rewrite !str_length_app. cbn [String.length]. lia. }
  assert (Hrest' : blank_ahead (rest +:+ String "#" comment)).
  { destruct rest as [|c rest']; [done|]. by rewrite str_app_cons. }
  assert (Hne' : rest +:+ String "#" comment ≠ EmptyString).
  { destruct rest as [|c rest']; [done|]. by rewrite str_app_cons. }
  rewrite !process_line_header by done. f_equal. f_equal.
  destruct (process_header_title ws title _ st Hsize Htitle Hrest') as [Hpose Hsub].
  destruct (process_header_title ws title _ st Hsize' Htitle Hrest) as [Hpose' Hsub'].
  rewrite (bool_decide_eq_false_2 _ Hne') in Hpose, Hsub.
  rewrite (bool_decide_eq_false_2 _ Hne) in Hpose', Hsub'.
  unfold process_header. rewrite Hpose, Hsub, Hpose', Hsub'.
  cbn [mbind Outcome_mbind Outcome_bind].
  destruct (bool_decide (title = EmptyString)); [done|].
  set (pose := str_size ws + 1 + str_size title).
  assert (Hpre : str_size (ws +:+ String "/" title) = pose).
  { rewrite str_size_app. unfold pose, str_size. cbn [String.length]. lia. }
  assert (Hshape : ws +:+ String "/" (title +:+ rest +:+ String "#" comment)
                   = (ws +:+ String "/" title) +:+ rest +:+ String "#" comment).
  { by rewrite str_app_assoc, str_app_cons. }
  assert (Hshape' : ws +:+ String "/" (title +:+ rest)
                    = (ws +:+ String "/" title) +:+ rest).
  { by rewrite str_app_assoc, str_app_cons. }
  assert (Hfind : str_find_str (ws +:+ String "/" (title +:+ rest +:+ String "#" comment))
                    "#" pose = pose + str_size rest).
  { rewrite Hshape, <- Hpre. apply str_find_hash; [|done]. by rewrite <- Hshape. }
  assert (Hfind' : str_find_str (ws +:+ String "/" (title +:+ rest)) "#" pose = npos).
  { rewrite Hshape'. apply str_find_hash_none; [by rewrite <- Hshape'|done|by right]. }
  rewrite Hfind, Hfind', Z.eqb_refl.
  pose proof (str_size_nonneg rest).
  assert (Hlt : pose + str_size rest < npos).
  { revert Hsize'. rewrite Hshape', str_size_app, Hpre. lia. }
  replace (pose + str_size rest =? npos) with false by (symmetry; apply Z.eqb_neq; lia).
  assert (Hresize : str_resize (ws +:+ String "/" (title +:+ rest +:+ String "#" comment))
                      (pose + str_size rest)
                    = ws +:+ String "/" (title +:+ rest)).
  { unfold str_resize. rewrite Hshape, Hshape', <- Hpre, <- str_size_app.
    rewrite <- str_app_assoc. unfold str_size. rewrite Nat2Z.id. apply str_take_app. }
  by rewrite Hresize.
Qed.

(** *** The attributes of the headers *)

Lemma str_size_cons (c : ascii) (s : string) : str_size (String c s) = 1 + str_size s.
Proof. unfold str_size. cbn [String.length]. lia. Qed.

Lemma str_size_nil : str_size EmptyString = 0.
Proof. done. Qed.

Lemma tolower_blank (c : ascii) : is_blank (tolower c) = is_blank c.
Proof. by destruct c as [[] [] [] [] [] [] [] []]. Qed.

Lemma lower_title_not_blank (title : string) :
  str_all (λ c, negb (is_blank c)) (str_map tolower title) = true →
  str_all (λ c, negb (is_blank c)) title = true.
Proof.
  induction title as [|c t IH]; [done|]. simpl.
  rewrite tolower_blank. intros [-> Ht]%andb_true_iff. by rewrite IH.
Qed.

Lemma str_all_impl (P Q : ascii → bool) (s : string) :
  (∀ c, P c = true → Q c = true) → str_all P s = true → str_all Q s = true.
Proof.
  intros HPQ. induction s as [|c s IH]; [done|]. simpl.
  intros [Hc Hs]%andb_true_iff. by rewrite (HPQ c Hc), IH.
Qed.

Lemma blanks_no_hash (bl : string) :
  str_all is_blank bl = true → str_all not_hash bl = true.
Proof.
  apply str_all_impl. intros c.
  destruct c as [[] [] [] [] [] [] [] []]; intros Hc; try discriminate Hc; by vm_compute.
Qed.

Lemma digits_no_hash (t : string) :
  str_all is_digit t = true → str_all not_hash t = true.
Proof.
  apply str_all_impl. intros c.
  destruct c as [[] [] [] [] [] [] [] []]; intros Hc; try discriminate Hc; by vm_compute.
Qed.

Lemma blanks_to_end (pre : string) (c : ascii) (bl : string) :
  str_all is_blank bl = true →
  find_first_not_of (pre +:+ String c bl) spaces (str_size pre + 1) = npos.
Proof.
  intros Hbl. unfold find_first_not_of.
  replace (pre +:+ String c bl) with ((pre +:+ String c EmptyString) +:+ bl)
    by (by rewrite str_app_assoc).
  replace (str_size pre + 1) with (str_size (pre +:+ String c EmptyString))
    by (by rewrite str_size_app).
  apply find_if_from_none. by apply str_all_blank_not.
Qed.

Lemma digits_upto_value (n : nat) (t : string) :
  digits_upto n t → 0 ≤ digits_value t < 10 ^ Z.of_nat n.
Proof.
  intros (Hne & Ht & Hlen). pose proof (digits_value_bound t Ht) as Hv.
  assert (10 ^ str_size t ≤ 10 ^ Z.of_nat n).
  { apply Z.pow_le_mono_r; [lia|]. unfold str_size. lia. }
  lia.
Qed.

End header_facts.

Ltac str_norm :=
  repeat first [ rewrite str_app_assoc | rewrite str_app_cons
               | rewrite str_app_nil_l | rewrite str_app_nil_r ].
Ltac size_norm :=
  repeat first [ rewrite str_size_app | rewrite str_size_cons | rewrite str_size_nil ].
Ltac size_norm_in H :=
  repeat first [ rewrite str_size_app in H | rewrite str_size_cons in H
               | rewrite str_size_nil in H ].

Section header_attributes.
Context {W : Type} `{WeightOps W}.
Variable NDEBUG : bool.
Variable stof : string → Outcome (W * nat).

(** A number after blanks in a header: [stoul] reads the digits, whatever
    [substr] cut out after them. *)
Lemma header_number (pre bl tok rest : string) :
  str_size (pre +:+ bl +:+ tok +:+ rest) < npos →
  str_all is_blank bl = true → digits_upto 19 tok → blank_ahead rest →
  let line := pre +:+ bl +:+ tok +:+ rest in
  let pos := str_size pre + str_size bl in
  let pose := if bool_decide (rest = EmptyString) then npos else pos + str_size tok in
  find_first_not_of line spaces (str_size pre) = pos
  ∧ find_first_of line spaces (pos + 1) = pose
  ∧ ∃ sub, substr line pos pose = Done sub
           ∧ stoul sub = Done (digits_value tok, str_size tok).
Proof.
  intros Hsize Hbl Htok Hrest line pos pose.
  pose proof (digits_upto_value _ _ Htok) as Hv. destruct Htok as (Hne & Htok & Hlen).
  destruct (token_scan pre bl tok rest Hsize Hbl Hne (digits_not_blank _ Htok) Hrest)
    as (Hp & He & more & Hsub & Hmore).
  split; [done|]. split; [done|]. exists (tok +:+ more). split; [done|].
  apply stoul_digits; try done. unfold ULONG_MAX.
  change (Z.of_nat 19) with 19 in Hv. lia.
Qed.

(** X22. The header [/Nodes]: the section is entered at the start of the file
    or after [/Graph]; a number after the title is the number of nodes, a
    second number the start id, both cut to 32 bits; a header without them
    leaves the fields as they are. *)
Theorem process_line_nodes (ws title : string) (st : Reader) (w : @World W) :
  str_all is_blank ws = true → str_map tolower title = "nodes" →
  sect st = NONE ∨ sect st = GRAPH →
  let entered c := Some (Done ({| weighted := weighted st; sect := NODES; client := c |}, w)) in
  (∀ bl, str_size (ws +:+ String "/" (title +:+ bl)) < npos →
     str_all is_blank bl = true →
     process_line NDEBUG stof st (ws +:+ String "/" (title +:+ bl)) w
     = entered (client st))
  ∧ (∀ b1 num b2,
       str_size (ws +:+ String "/" (title +:+ b1 +:+ num +:+ b2)) < npos →
       b1 ≠ EmptyString → str_all is_blank b1 = true → digits_upto 19 num →
       str_all is_blank b2 = true →
       process_line NDEBUG stof st (ws +:+ String "/" (title +:+ b1 +:+ num +:+ b2)) w
       = entered (with_nodesNum (client st) (to_Id (digits_value num))))
  ∧ (∀ b1 num b2 start tail,
       str_size (ws +:+ String "/" (title +:+ b1 +:+ num +:+ b2 +:+ start +:+ tail)) < npos →
       b1 ≠ EmptyString → str_all is_blank b1 = true → digits_upto 19 num →
       b2 ≠ EmptyString → str_all is_blank b2 = true → digits_upto 19 start →
       blank_ahead tail → str_all not_hash tail = true →
       process_line NDEBUG stof st
         (ws +:+ String "/" (title +:+ b1 +:+ num +:+ b2 +:+ start +:+ tail)) w
       = entered (with_nodesStartId
                    (with_nodesNum (client st) (to_Id (digits_value num)))
                    (to_Id (digits_value start)))).
Proof.
  intros Hws Htitle Hsect entered.
  assert (Hnb : str_all (λ c, negb (is_blank c)) title = true).
  { apply lower_title_not_blank. by rewrite Htitle. }
  assert (Hne : title ≠ EmptyString) by (by intros ->).
  assert (Hs : negb (bool_decide (sect st = NONE)) && negb (bool_decide (sect st = GRAPH))
               = false).
  { destruct Hsect as [-> | ->]; done. }
  pose proof (str_size_nonneg ws). pose proof (str_size_nonneg title).
  set (pose := str_size ws + 1 + str_size title).
  assert (Hpre : ∀ c, str_size (ws +:+ String "/" (title +:+ String c EmptyString))
                      = pose + 1).
  { intros c. size_norm. unfold pose. lia. }
  split; [|split].
  - intros bl Hsize Hbl.
    rewrite process_line_header by done.
    rewrite process_header_plain; try done.
    2:{ destruct bl as [|c bl]; [done|]. simpl in *. by apply andb_true_iff in Hbl as [? _]. }
    2:{ by apply blanks_no_hash. }
    rewrite Htitle.
    change (bool_decide ("nodes" = "graph")) with false.
    change (bool_decide ("nodes" = "nodes")) with true. cbv iota.
    unfold header_nodes. rewrite Hs.
    destruct bl as [|c bl].
    + by rewrite bool_decide_eq_true_2.
    + rewrite bool_decide_eq_false_2 by done. fold pose.
      size_norm_in Hsize. pose proof (str_size_nonneg bl).
      replace (pose =? npos) with false by (symmetry; apply Z.eqb_neq; unfold pose; lia).
      simpl in Hbl. apply andb_true_iff in Hbl as [Hc Hbl].
      replace (ws +:+ String "/" (title +:+ String c bl))
        with ((ws +:+ String "/" title) +:+ String c bl) by (by str_norm).
      replace pose with (str_size (ws +:+ String "/" title))
        by (size_norm; unfold pose; lia).
      rewrite blanks_to_end by done. done.
  - intros b1 num b2 Hsize Hb1ne Hb1 Hnum Hb2.
    set (line := ws +:+ String "/" (title +:+ b1 +:+ num +:+ b2)) in *.
    unfold line at 1. rewrite process_line_header by done.
    rewrite process_header_plain; try done.
    2:{ by apply blank_ahead_app. }
    2:{ rewrite !str_all_app, (blanks_no_hash b1), (blanks_no_hash b2) by done.
        by rewrite (digits_no_hash num) by apply Hnum. }
    rewrite Htitle.
    change (bool_decide ("nodes" = "graph")) with false.
    change (bool_decide ("nodes" = "nodes")) with true. cbv iota.
    fold line. unfold header_nodes. rewrite Hs. cbv iota.
    destruct b1 as [|c b1']; [done|]. clear Hb1ne.
    simpl in Hb1. apply andb_true_iff in Hb1 as [Hc Hb1].
    rewrite bool_decide_eq_false_2 by (by rewrite str_app_cons). fold pose.
    set (pre := ws +:+ String "/" (title +:+ String c EmptyString)).
    assert (Hshape : line = pre +:+ b1' +:+ num +:+ b2) by (unfold line, pre; by str_norm).
    assert (Hlen : str_size line
                   = pose + 1 + str_size b1' + str_size num + str_size b2).
    { rewrite Hshape. size_norm. fold pose. unfold pre. rewrite (Hpre c). fold pose. lia. }
    pose proof (str_size_nonneg b1'). pose proof (str_size_nonneg num).
    pose proof (str_size_nonneg b2).
    replace (pose =? npos) with false by (symmetry; apply Z.eqb_neq; lia).
    destruct (header_number pre b1' num b2) as (Hp & He & sub & Hsub & Hstoul); try done.
    { by rewrite <- Hshape. }
    { destruct b2 as [|d b2']; [done|]. simpl in *. by apply andb_true_iff in Hb2 as [? _]. }
    rewrite <- Hshape in Hp, He, Hsub.
    assert (Hpresz : str_size pre = pose + 1) by apply Hpre.
    rewrite Hpresz in Hp, He, Hsub.
    rewrite Hp. replace (pose + 1 + str_size b1' =? npos) with false
      by (symmetry; apply Z.eqb_neq; lia).
    rewrite He, Hsub. cbn [mbind Outcome_mbind Outcome_bind]. rewrite Hstoul.
    cbn [mbind Outcome_mbind Outcome_bind].
    destruct b2 as [|d b2'].
    + by rewrite bool_decide_eq_true_2.
    + rewrite bool_decide_eq_false_2 by done.
      replace (pose + 1 + str_size b1' + str_size num =? npos) with false
        by (symmetry; apply Z.eqb_neq; lia).
      simpl in Hb2. apply andb_true_iff in Hb2 as [Hd Hb2].
      assert (Hshape2 : line = (pre +:+ b1' +:+ num) +:+ String d b2')
        by (unfold line, pre; by str_norm).
      replace (pose + 1 + str_size b1' + str_size num)
        with (str_size (pre +:+ b1' +:+ num))
        by (size_norm; unfold pre; rewrite (Hpre c); lia).
      rewrite Hshape2 at 1. rewrite blanks_to_end by done. done.
  - intros b1 num b2 start tail Hsize Hb1ne Hb1 Hnum Hb2ne Hb2 Hstart Htail Hhash.
    set (line := ws +:+ String "/" (title +:+ b1 +:+ num +:+ b2 +:+ start +:+ tail)) in *.
    unfold line at 1. rewrite process_line_header by done.
    rewrite process_header_plain; try done.
    2:{ by apply blank_ahead_app. }
    2:{ rewrite !str_all_app, (blanks_no_hash b1), (blanks_no_hash b2) by done.
        rewrite (digits_no_hash num) by apply Hnum.
        by rewrite (digits_no_hash start) by apply Hstart. }
    rewrite Htitle.
    change (bool_decide ("nodes" = "graph")) with false.
    change (bool_decide ("nodes" = "nodes")) with true. cbv iota.
    fold line. unfold header_nodes. rewrite Hs. cbv iota.
    destruct b1 as [|c b1']; [done|]. clear Hb1ne.
    simpl in Hb1. apply andb_true_iff in Hb1 as [Hc Hb1].
    destruct b2 as [|d b2']; [done|]. clear Hb2ne.
    simpl in Hb2. apply andb_true_iff in Hb2 as [Hd Hb2].
    rewrite bool_decide_eq_false_2 by (by rewrite str_app_cons). fold pose.
    set (pre := ws +:+ String "/" (title +:+ String c EmptyString)).
    set (pre2 := pre +:+ b1' +:+ num +:+ String d EmptyString).
    assert (Hshape : line = pre +:+ b1' +:+ num +:+ String d b2' +:+ start +:+ tail)
      by (unfold line, pre; by str_norm).
    assert (Hshape2 : line = pre2 +:+ b2' +:+ start +:+ tail)
      by (unfold line, pre2, pre; by str_norm).
    pose proof (str_size_nonneg b1'). pose proof (str_size_nonneg num).
    pose proof (str_size_nonneg b2'). pose proof (str_size_nonneg start).
    pose proof (str_size_nonneg tail).
    assert (Hpre2 : str_size pre2 = pose + 1 + str_size b1' + str_size num + 1).
    { unfold pre2. size_norm. unfold pre. rewrite (Hpre c). lia. }
    assert (Hlen : str_size line = str_size pre2 + str_size b2' + str_size start
                                   + str_size tail).
    { rewrite Hshape2. size_norm. lia. }
    replace (pose =? npos) with false by (symmetry; apply Z.eqb_neq; lia).
    destruct (header_number pre b1' num (String d b2' +:+ start +:+ tail))
      as (Hp & He & sub & Hsub & Hstoul); try done.
    { by rewrite <- Hshape. }
    rewrite <- Hshape in Hp, He, Hsub.
    assert (Hpresz : str_size pre = pose + 1) by apply Hpre.
    rewrite Hpresz in Hp, He, Hsub.
    rewrite bool_decide_eq_false_2 in He, Hsub by done.
    rewrite Hp. replace (pose + 1 + str_size b1' =? npos) with false
      by (symmetry; apply Z.eqb_neq; lia).
    rewrite He, Hsub. cbn [mbind Outcome_mbind Outcome_bind]. rewrite Hstoul.
    cbn [mbind Outcome_mbind Outcome_bind].
    replace (pose + 1 + str_size b1' + str_size num =? npos) with false
      by (symmetry; apply Z.eqb_neq; lia).
    destruct (header_number pre2 b2' start tail)
      as (Hp2 & He2 & sub2 & Hsub2 & Hstoul2); try done.
    { by rewrite <- Hshape2. }
    rewrite <- Hshape2 in Hp2, He2, Hsub2. rewrite Hpre2 in Hp2, He2, Hsub2.
    rewrite Hp2.
    replace (pose + 1 + str_size b1' + str_size num + 1 + str_size b2' =? npos) with false
      by (symmetry; apply Z.eqb_neq; lia).
    rewrite He2, Hsub2. cbn [mbind Outcome_mbind Outcome_bind]. rewrite Hstoul2.
    done.
Qed.

(** [stoi] on a string that starts with digits whose value fits into
    [int]. *)
Lemma stoi_digits (t rest : string) :
  t ≠ EmptyString → str_all is_digit t = true → no_digit_ahead rest →
  digits_value t ≤ INT_MAX →
  stoi (t +:+ rest) = Done (digits_value t).
Proof.
  intros Hne Ht Hrest Hmax. destruct t as [|c t]; [done|]. clear Hne.
  pose proof Ht as Hc. simpl in Hc. apply andb_true_iff in Hc as [Hc _].
  apply is_digit_plain in Hc as (Hsp & Hminus & Hplus & _).
  unfold stoi. rewrite str_app_cons. cbn [count_spaces]. rewrite Hsp.
  cbn [str_drop]. rewrite Hminus, Hplus.
  rewrite <- str_app_cons, read_digits_app by done.
  rewrite read_digits_stop by done.
  destruct (read_digits_all (String c t) 0 0 Ht) as [Hcnt Hval]; [lia|].
  unfold digits_value in *. destruct (read_digits (String c t) 0 0) as [v cnt].
  cbn [fst snd] in *. subst cnt.
  replace (0 + str_size (String c t) =? 0) with false
    by (symmetry; apply Z.eqb_neq; unfold str_size; simpl; lia).
  replace (v <? INT_MIN) with false by (symmetry; apply Z.ltb_ge; unfold INT_MIN; lia).
  by replace (INT_MAX <? v) with false by (symmetry; apply Z.ltb_ge; lia).
Qed.

Lemma find_str_blanks (p : string) (c : ascii) (bl : string) :
  is_blank c = false → str_all is_blank bl = true →
  find_str (String c p) bl = None.
Proof.
  intros Hc Hbl. induction bl as [|d bl IH]; [done|].
  simpl in Hbl. apply andb_true_iff in Hbl as [Hd Hbl].
  cbn [find_str str_prefix].
  replace (Ascii.eqb c d) with false
    by (symmetry; apply Ascii.eqb_neq; congruence).
  cbn [andb]. by rewrite IH.
Qed.

Lemma str_prefix_app (p t : string) : str_prefix p (p +:+ t) = true.
Proof.
  induction p as [|c p IH]; [done|]. rewrite str_app_cons. cbn [str_prefix].
  by rewrite Ascii.eqb_refl, IH.
Qed.

Lemma find_str_after_blanks (p : string) (c : ascii) (bl t : string) :
  is_blank c = false → str_all is_blank bl = true →
  find_str (String c p) (bl +:+ String c p +:+ t) = Some (String.length bl).
Proof.
  intros Hc Hbl. induction bl as [|d bl IH].
  - rewrite str_app_nil_l. pose proof (str_prefix_app (String c p) t) as Hp.
    rewrite str_app_cons in *. cbn [find_str]. by rewrite Hp.
  - simpl in Hbl. apply andb_true_iff in Hbl as [Hd Hbl].
    rewrite str_app_cons. cbn [find_str str_prefix].
    replace (Ascii.eqb c d) with false
      by (symmetry; apply Ascii.eqb_neq; congruence).
    cbn [andb]. by rewrite IH.
Qed.

(** X23. The header [/Graph]: the section is entered only at the start of the
    file; the attribute [weighted:] with a number says whether the links
    that follow are read with their weights, zero being no and every other
    number yes; a header without attributes leaves the default. *)
Theorem process_line_graph (ws title : string) (st : Reader) (w : @World W) :
  str_all is_blank ws = true → str_map tolower title = "graph" →
  sect st = NONE →
  (∀ bl, str_size (ws +:+ String "/" (title +:+ bl)) < npos →
     str_all is_blank bl = true →
     process_line NDEBUG stof st (ws +:+ String "/" (title +:+ bl)) w
     = Some (Done ({| weighted := weighted st; sect := GRAPH; client := client st |}, w)))
  ∧ (∀ b1 b2 v tail,
       str_size (ws +:+ String "/" (title +:+ b1 +:+ "weighted:" +:+ b2 +:+ v +:+ tail))
       < npos →
       b1 ≠ EmptyString → str_all is_blank b1 = true → str_all is_blank b2 = true →
       digits_upto 9 v → blank_ahead tail → str_all not_hash tail = true →
       process_line NDEBUG stof st
         (ws +:+ String "/" (title +:+ b1 +:+ "weighted:" +:+ b2 +:+ v +:+ tail)) w
       = Some (Done ({| weighted := negb (digits_value v =? 0); sect := GRAPH;
                        client := client st |}, w))).
Proof.
  intros Hws Htitle Hsect.
  assert (Hnb : str_all (λ c, negb (is_blank c)) title = true).
  { apply lower_title_not_blank. by rewrite Htitle. }
  assert (Hne : title ≠ EmptyString) by (by intros ->).
  pose proof (str_size_nonneg ws). pose proof (str_size_nonneg title).
  set (pose := str_size ws + 1 + str_size title).
  assert (Hpre : ∀ c, str_size (ws +:+ String "/" (title +:+ String c EmptyString))
                      = pose + 1).
  { intros c. size_norm. unfold pose. lia. }
  split.
  - intros bl Hsize Hbl.
    set (line := ws +:+ String "/" (title +:+ bl)) in *.
    unfold line at 1. rewrite process_line_header by done.
    rewrite process_header_plain; try done.
    2:{ destruct bl as [|c bl]; [done|]. simpl in *. by apply andb_true_iff in Hbl as [? _]. }
    2:{ by apply blanks_no_hash. }
    rewrite Htitle. change (bool_decide ("graph" = "graph")) with true. cbv iota.
    fold line. unfold header_graph. rewrite Hsect.
    change (negb (bool_decide (NONE = NONE))) with false. cbv iota.
    destruct bl as [|c bl].
    + by rewrite bool_decide_eq_true_2.
    + rewrite bool_decide_eq_false_2 by done. fold pose.
      unfold line in Hsize. size_norm_in Hsize. pose proof (str_size_nonneg bl).
      replace (pose =? npos) with false by (symmetry; apply Z.eqb_neq; unfold pose; lia).
      simpl in Hbl. apply andb_true_iff in Hbl as [Hc Hbl].
      set (pre := ws +:+ String "/" (title +:+ String c EmptyString)).
      assert (Hshape : line = pre +:+ bl) by (unfold line, pre; by str_norm).
      cbv zeta.
      assert (Hfind : str_find_str line "weighted:" (pose + 1) = npos).
      { unfold str_find_str. rewrite Hshape, str_size_app, <- (Hpre c). fold pre.
        replace (str_size pre + str_size bl <? str_size pre) with false
          by (symmetry; apply Z.ltb_ge; lia).
        rewrite (str_drop_app_Z pre) by done.
        by rewrite find_str_blanks. }
      by rewrite Hfind, Z.eqb_refl.
  - intros b1 b2 v tail Hsize Hb1ne Hb1 Hb2 Hv Htail Hhash.
    set (line := ws +:+ String "/" (title +:+ b1 +:+ "weighted:" +:+ b2 +:+ v +:+ tail)) in *.
    unfold line at 1. rewrite process_line_header by done.
    rewrite process_header_plain; try done.
    2:{ by apply blank_ahead_app. }
    2:{ rewrite !str_all_app, (blanks_no_hash b1), (blanks_no_hash b2) by done.
        by rewrite (digits_no_hash v) by apply Hv. }
    rewrite Htitle. change (bool_decide ("graph" = "graph")) with true. cbv iota.
    fold line. unfold header_graph. rewrite Hsect.
    change (negb (bool_decide (NONE = NONE))) with false. cbv iota.
    destruct b1 as [|c b1']; [done|]. clear Hb1ne.
    simpl in Hb1. apply andb_true_iff in Hb1 as [Hc Hb1].
    rewrite bool_decide_eq_false_2 by (by rewrite str_app_cons). fold pose.
    set (pre := ws +:+ String "/" (title +:+ String c EmptyString)).
    set (pre2 := pre +:+ b1' +:+ "weighted:").
    assert (Hshape : line = pre +:+ b1' +:+ "weighted:" +:+ b2 +:+ v +:+ tail)
      by (unfold line, pre; by str_norm).
    assert (Hshape2 : line = pre2 +:+ b2 +:+ v +:+ tail)
      by (unfold line, pre2, pre; by str_norm).
    pose proof (str_size_nonneg b1'). pose proof (str_size_nonneg b2).
    pose proof (str_size_nonneg v). pose proof (str_size_nonneg tail).
    assert (Hpresz : str_size pre = pose + 1) by apply Hpre.
    assert (Hpre2 : str_size pre2 = pose + 1 + str_size b1' + 9).
    { unfold pre2. rewrite !str_size_app, Hpresz.
      change (str_size "weighted:") with 9. lia. }
    assert (Hlen : str_size line = str_size pre2 + str_size b2 + str_size v + str_size tail).
    { rewrite Hshape2. size_norm. lia. }
    replace (pose =? npos) with false by (symmetry; apply Z.eqb_neq; lia).
    cbv zeta.
    assert (Hfind : str_find_str line "weighted:" (pose + 1) = pose + 1 + str_size b1').
    { unfold str_find_str.
      replace (str_size line <? pose + 1) with false by (symmetry; apply Z.ltb_ge; lia).
      rewrite Hshape, (str_drop_app_Z pre) by done.
      by rewrite find_str_after_blanks. }
    rewrite Hfind.
    replace (pose + 1 + str_size b1' =? npos) with false
      by (symmetry; apply Z.eqb_neq; lia).
    change (str_size "weighted:") with 9.
    pose proof (digits_upto_value _ _ Hv) as Hval. destruct Hv as (Hvne & Hv & Hvlen).
    destruct (token_scan pre2 b2 v tail) as (Hp & He & more & Hsub & Hmore); try done.
    { by rewrite <- Hshape2. }
    { by apply digits_not_blank. }
    rewrite <- Hshape2 in Hp, He, Hsub. rewrite Hpre2 in Hp, He, Hsub.
    rewrite Hp.
    rewrite (Z.mod_small (pose + 1 + str_size b1' + 9 + str_size b2 + 1))
      by (unfold npos in *; lia).
    rewrite He, Hsub. cbn [mbind Outcome_mbind Outcome_bind].
    rewrite stoi_digits; try done.
    change (Z.of_nat 9) with 9 in Hval. unfold INT_MAX. lia.
Qed.

End header_attributes.

Section reader_facts.
Context {W : Type} `{WeightOps W}.
Variable NDEBUG : bool.
Variable stof : string → Outcome (W * nat).
Variable processNodes : bool → list NodePtr → bool → @ClientParams W → @M W unit.

(** *** The reader ends *)

Lemma parseLinks_total (WEIGHTED : bool) (line : string) (directed : bool) (c : Client)
    (w : @World W) :
  str_size line < npos → is_Some (parseLinks NDEBUG stof WEIGHTED line directed c w).
Proof.
  intros Hsize. unfold parseLinks.
  destruct (parseLinks_line_total stof WEIGHTED line Hsize) as [r ->].
  by eexists.
Qed.

Lemma process_line_total (st : Reader) (line : string) (w : @World W) :
  str_size line < npos → is_Some (process_line NDEBUG stof st line w).
Proof.
  intros Hsize. unfold process_line.
  destruct (_ || _); [by eexists|]. destruct (negb _); [|by eexists].
  destruct (_ && _); [by eexists|].
  destruct (parseLinks_total (weighted st) line (bool_decide (sect st = ARCS)) (client st) w
              Hsize) as [r ->].
  by eexists.
Qed.

Lemma process_lines_total (st : Reader) (lines : list string) (w : @World W) :
  Forall (λ line, str_size line < npos) lines →
  is_Some (process_lines NDEBUG stof st lines w).
Proof.
  intros Hlines. revert st w. induction Hlines as [|line lines Hline _ IH]; intros st w.
  - by eexists.
  - cbn [process_lines]. destruct (process_line_total st line w Hline) as [r ->].
    cbn [mbind option_bind]. destruct r as [[st' w']| | |]; [apply IH|by eexists..].
Qed.

(** X24. Reading a file ends, whatever its lines are: every round of the loop
    of [parseLinks] moves on in the line, so that the run of [process]
    returns or throws. *)
Theorem process_terminates (lines : list string) (p : @ClientParams W) (c : Client)
    (w : @World W) :
  Forall (λ line, str_size line < npos) lines →
  is_Some (process NDEBUG stof processNodes lines p c w).
Proof.
  intros Hlines. unfold process.
  destruct (assert _ _ _ _) as [[[] w1]| | |]; try by eexists.
  destruct (process_lines_total
              {| weighted := true; sect := NONE;
                 client := {| m_reorder := m_reorder c; m_nodesNum := 0;
                              m_nodesStartId := ID_NONE; m_graphPtr := None |} |}
              lines w1 Hlines) as [r ->].
  by eexists.
Qed.

(** *** The range of the nodes *)

(** X25. A range of nodes that passes the largest id: the end of the range
    wraps around and lies before its start, and the first line of links,
    whatever it holds, ends with the error of [addNodes]. *)
Theorem parseLinks_range_wraps (WEIGHTED : bool) (line : string) (directed : bool)
    (c : Client) (w : @World W) :
  str_size line < npos →
  m_graphPtr c = None →
  0 ≤ m_nodesStartId c < ID_NONE → 0 ≤ m_nodesNum c < Id_modulus →
  Id_modulus ≤ m_nodesStartId c + m_nodesNum c →
  parseLinks NDEBUG stof WEIGHTED line directed c w
  = Some (Thrown (domain_error ("addNodes(), idEnd must be >= idBeg" +:+ newline))).
Proof.
  intros Hsize Hptr Hstart Hnum Hwrap. unfold parseLinks.
  destruct (parseLinks_line_total stof WEIGHTED line Hsize) as [r ->].
  cbn [mbind option_bind]. f_equal. rewrite Hptr.
  unfold Graph_ctor, srand_time.
  cbv beta iota delta [mbind mret M_mbind M_mret M_bind M_ret].
  rewrite decide_True by (unfold ID_NONE in *; lia).
  unfold addNodes_range, validateExtension.
  cbv beta iota delta [mbind mret M_mbind M_mret M_bind M_ret m_finalized].
  replace (to_Id (m_nodesStartId c + m_nodesNum c) <? m_nodesStartId c) with true; [done|].
  symmetry. apply Z.ltb_lt. unfold to_Id, ID_NONE, Id_modulus in *.
  rewrite <- (Z.mod_add _ (-1)) by lia.
  rewrite Z.mod_small; lia.
Qed.

End reader_facts.

(** ** From the reader to the clustering *)

Section handover_facts.
Context {W : Type} `{WeightOps W}.
Variable NDEBUG : bool.
Variable stof : string → Outcome (W * nat).
Variable processNodes : bool → list NodePtr → bool → @ClientParams W → @M W unit.

Lemma Graph_ctor_ok (nodesNum : Id) (shuffle : bool) (g : Graph) (w w' : @World W) :
  Graph_ctor nodesNum shuffle w = Done (g, w') → graph_ok g w' ∧ w' = w.
Proof.
  unfold Graph_ctor, srand_time.
  intros ([] & w1 & [_ <-]%M_ret_Done & [<- <-]%M_ret_Done)%M_bind_Done.
  split; [|done]. split.
  - split; simpl; try done.
    + apply NoDup_nil_2.
    + by intros p ?%elem_of_nil.
    + by intros p n l ?%elem_of_nil.
  - intros _ a na l Ha. by apply elem_of_nil in Ha.
Qed.

Lemma addNodes_range_ok (idBeg idEnd : Id) (g g' : Graph) (w w' : @World W) :
  graph_ok g w → addNodes_range NDEBUG idBeg idEnd g w = Done (g', w') → graph_ok g' w'.
Proof.
  intros [Hwf Hsym] (_ & _ & ns & idn & Hadd & ->)%addNodes_range_inv. split.
  - by destruct (acsAddNodes_wf _ _ _ _ _ _ _ _ _ Hwf Hadd).
  - intros Hdir. eapply acsAddNodes_symmetric; [done|by apply Hsym|done].
Qed.

Lemma addNodeLinks_ok (WEIGHTED DIRECTED : bool) (node : Id) (lns : list (@InpLink W))
    (g g' : Graph) (w w' : @World W) :
  graph_ok g w → addNodeLinks NDEBUG WEIGHTED DIRECTED node lns g w = Done (g', w') →
  graph_ok g' w'.
Proof.
  intros [Hwf Hsym] (_ & Hadd & ->)%addNodeLinks_inv. split.
  - eapply (builder_wf_grown (nodes g)); [done|].
    eapply acsAddNodeLinks_grown; [|done]. intros i p. by eapply builder_wf_in.
  - intros Hdir. unfold directed in *. cbn [m_directed with_directed] in Hdir.
    apply orb_false_iff in Hdir as [Hdir ->]. cbn [nodes with_directed].
    unfold acsAddNodeLinks in Hadd.
    apply M_bind_Done in Hadd as (nd & w1 & Hat & Hrest).
    apply catch_unexistent_Done, map_at_Done in Hat as [Hnd ->].
    eapply acsAddNodeLinks_loop_symmetric; [| |by apply Hsym|done].
    + intros i p. by eapply builder_wf_in.
    + by eapply builder_wf_in.
Qed.

Lemma addNodeAndLinks_ok (WEIGHTED DIRECTED : bool) (node : Id) (lns : list (@InpLink W))
    (g g' : Graph) (w w' : @World W) :
  graph_ok g w → addNodeAndLinks NDEBUG WEIGHTED DIRECTED node lns g w = Done (g', w') →
  graph_ok g' w'.
Proof.
  intros [Hwf Hsym] (_ & ns & idn & Hadd & ->)%addNodeAndLinks_inv. split.
  - by destruct (acsAddNodeAndLinks_wf _ _ _ _ _ _ _ _ _ _ _ _ Hwf Hadd).
  - intros Hdir. unfold directed in *. cbn [m_directed with_directed with_nodes] in Hdir.
    apply orb_false_iff in Hdir as [Hdir ->]. cbn [nodes with_nodes].
    unfold acsAddNodeAndLinks in Hadd.
    apply M_bind_Done in Hadd as ([[ns1 idn1] ind] & w1 & Hfind & Hrest).
    destruct (find_or_add_wf _ _ _ _ _ _ _ _ _ _ _ Hwf Hfind)
      as (Hwf1 & _ & Hsub1 & _ & Hind).
    assert (Hsym1 : links_symmetric ns1 w1).
    { apply find_or_add_inv in Hfind as [(_ & -> & -> & ->)|(_ & Hem & _)];
        [by apply Hsym|].
      eapply links_symmetric_emplace; [exact Hwf|by apply Hsym|exact Hem]. }
    eapply acsAddNodeAndLinks_loop_symmetric; [done| |done|done].
    by eapply builder_wf_in.
Qed.

Lemma lift_Outcome_Done {A : Type} (o : Outcome A) (a : A) (w w' : @World W) :
  lift_Outcome o w = Done (a, w') → o = Done a ∧ w' = w.
Proof. destruct o; simpl; [|done..]. by intros [= -> ->]. Qed.

(** A line of links leaves the graph of the client in order. *)
Lemma parseLinks_ok (WEIGHTED : bool) (line : string) (directed : bool) (c c' : Client)
    (w w' : @World W) :
  client_ok c w →
  parseLinks NDEBUG stof WEIGHTED line directed c w = Some (Done (c', w')) →
  client_ok c' w' ∧ is_Some (m_graphPtr c').
Proof.
  intros Hc. unfold parseLinks.
  destruct (parseLinks_line stof WEIGHTED line) as [parsed|]; [|done].
  cbn [mbind option_bind]. intros [= Hrun].
  apply M_bind_Done in Hrun as (g & w1 & Hg & Hrun).
  assert (Hok : graph_ok g w1).
  { unfold client_ok in Hc. destruct (m_graphPtr c) as [g0|].
    - by apply M_ret_Done in Hg as [<- <-].
    - apply M_bind_Done in Hg as (g0 & w0 & [Hok0 ->]%Graph_ctor_ok & Hg).
      destruct (decide _).
      + by eapply addNodes_range_ok.
      + by apply M_ret_Done in Hg as [<- <-]. }
  apply M_bind_Done in Hrun as (r & w2 & [-> ->]%lift_Outcome_Done & Hrun).
  destruct r as [[nid [|ln lns]]|].
  - apply M_ret_Done in Hrun as [<- <-]. split; [done|by eexists].
  - apply M_bind_Done in Hrun as (g' & w3 & Hmut & [<- <-]%M_ret_Done).
    split; [|by eexists]. unfold client_ok. cbn [m_graphPtr].
    destruct (decide _).
    + by eapply addNodeLinks_ok.
    + by eapply addNodeAndLinks_ok.
  - apply M_ret_Done in Hrun as [<- <-]. split; [done|by eexists].
Qed.

Lemma process_header_client (line : string) (pos : Z) (st st' : Reader) :
  process_header line pos st = Done st' →
  m_graphPtr (client st') = m_graphPtr (client st).
Proof.
  unfold process_header, header_graph, header_nodes.
  unfold mbind, Outcome_mbind, Outcome_bind. intros Hrun.
  repeat (case_match; try discriminate Hrun); by injection Hrun as <-.
Qed.

Lemma process_line_ok (st st' : Reader) (line : string) (w w' : @World W) :
  client_ok (client st) w →
  process_line NDEBUG stof st line w = Some (Done (st', w')) →
  client_ok (client st') w'.
Proof.
  intros Hc. unfold process_line.
  destruct (_ || _); [by intros [= <- <-]|].
  destruct (negb _).
  - destruct (_ && _); [by intros [= <- <-]|].
    destruct (parseLinks _ _ _ _ _ _ _) as [[[c1 w1]| | |]|] eqn:Hparse; try done.
    cbn [mbind option_bind Outcome_mbind Outcome_bind]. intros [= <- <-].
    by destruct (parseLinks_ok _ _ _ _ _ _ _ Hc Hparse).
  - destruct (process_header _ _ _) as [st1| | |] eqn:Hhead; try done.
    cbn [mbind Outcome_mbind Outcome_bind]. intros [= <- <-].
    unfold client_ok in *. by rewrite (process_header_client _ _ _ _ Hhead).
Qed.

Lemma process_lines_ok (st st' : Reader) (lines : list string) (w w' : @World W) :
  client_ok (client st) w →
  process_lines NDEBUG stof st lines w = Some (Done (st', w')) →
  client_ok (client st') w'.
Proof.
  revert st w. induction lines as [|line lines IH]; intros st w Hc.
  - by intros [= <- <-].
  - cbn [process_lines].
    destruct (process_line NDEBUG stof st line w) as [[[st1 w1]| | |]|] eqn:Hline; try done.
    cbn [mbind option_bind]. apply IH. by eapply process_line_ok.
Qed.

Lemma processGraph_Done (WEIGHTED : bool) (p : @ClientParams W) (c c' : Client)
    (w w' : @World W) :
  processGraph processNodes WEIGHTED p c w = Done (c', w') →
  ∃ g, m_graphPtr c = Some g
       ∧ processNodes WEIGHTED (nodes g) (negb (directed g)) p w = Done ((), w')
       ∧ m_graphPtr c' = None.
Proof.
  unfold processGraph. destruct (m_graphPtr c) as [g|]; [|done].
  intros ([] & w1 & Hcall & [<- <-]%M_ret_Done)%M_bind_Done.
  exists g. split; [done|]. split; [exact Hcall|done].
Qed.

(** X27. Whatever the file is: when [process] returns, the lines were read
    without an error and gave a graph, [processNodes] was called once, on
    the node list of this graph with [symmetric] as the negation of
    [directed()], and returned; at that call the graph was well formed
    (its links point to nodes of the list, its ids are those of its nodes),
    and when [symmetric] was passed as true every link had its back link
    of the same weight.  The client holds no graph afterwards. *)
Theorem process_hands_over (lines : list string) (p : @ClientParams W) (c c' : Client)
    (w w' : @World W) :
  process NDEBUG stof processNodes lines p c w = Some (Done (c', w')) →
  ∃ st w1 g,
    process_lines NDEBUG stof
      {| weighted := true; sect := NONE;
         client := {| m_reorder := m_reorder c; m_nodesNum := 0;
                      m_nodesStartId := ID_NONE; m_graphPtr := None |} |} lines w
    = Some (Done (st, w1))
    ∧ m_graphPtr (client st) = Some g
    ∧ graph_ok g w1
    ∧ processNodes (weighted st) (nodes g) (negb (directed g)) p w1 = Done ((), w')
    ∧ m_graphPtr c' = None.
Proof.
  unfold process. rewrite assert_run.
  destruct (NDEBUG || _); [|done].
  destruct (process_lines _ _ _ _ _) as [[[st w1]| | |]|] eqn:Hlines; try done.
  cbn [mbind option_bind Outcome_mbind Outcome_bind].
  assert (Hok : client_ok (client st) w1).
  { eapply process_lines_ok; [|exact Hlines]. exact I. }
  destruct (processGraph processNodes (weighted st) p (client st) w1)
    as [[c2 w2]| | |] eqn:Hpg; try done.
  cbn [mbind Outcome_mbind Outcome_bind].
  destruct (assert _ _ _ w2) as [[[] w3]| | |] eqn:Hassert; try done.
  cbn [mbind Outcome_mbind Outcome_bind]. intros [= <- <-].
  apply processGraph_Done in Hpg as (g & Hg & Hcall & Hnone).
  assert (w3 = w2) as ->.
  { apply assert_Done in Hassert as [[_ ->]|[_ [_ ->]%M_ret_Done]]; done. }
  unfold client_ok in Hok. rewrite Hg in Hok.
  exists st, w1, g. split; [done|]. split; [done|]. split; [done|]. done.
Qed.

End handover_facts.

(** ** Formatting *)

Section format_facts.

Lemma str_pop_back_app (s : string) (c : ascii) :
  str_pop_back (s +:+ String c EmptyString) = s.
Proof.
  unfold str_pop_back. rewrite str_length_app. cbn [String.length].
  replace (String.length s + 1 - 1)%nat with (String.length s) by lia.
  apply str_take_app.
Qed.

Lemma itemsToStr_loop {A : Type} (id_of : A → Id) (els : list A) (delim : ascii)
    (acc : string) :
  foldl (λ str c, str +:+ (to_string (id_of c) +:+ String delim EmptyString)) acc els
  = acc +:+ fold_right (λ c s, to_string (id_of c) +:+ String delim s) EmptyString els.
Proof.
  revert acc. induction els as [|c els IH]; intros acc.
  - by rewrite str_app_nil_r.
  - cbn [foldl fold_right]. rewrite IH. rewrite !str_app_assoc. by rewrite str_app_cons.
Qed.

Lemma ids_joined_delim {A : Type} (id_of : A → Id) (c : A) (els : list A) (delim : ascii) :
  fold_right (λ c s, to_string (id_of c) +:+ String delim s) EmptyString (c :: els)
  = ids_joined delim (id_of <$> c :: els) +:+ String delim EmptyString.
Proof.
  revert c. induction els as [|d els IH]; intros c.
  - done.
  - change (fold_right ?f ?e (c :: d :: els))
      with (to_string (id_of c) +:+ String delim (fold_right f e (d :: els))).
    rewrite (IH d).
    change (ids_joined delim (id_of <$> c :: d :: els))
      with (to_string (id_of c) +:+ String delim (ids_joined delim (id_of <$> d :: els))).
    by rewrite str_app_assoc, str_app_cons.
Qed.

(** X26. [itemsToStr] writes the ids in the order of the items with the
    delimiter between them and none after the last, between the prefix
    and the suffix.  Of an empty list it writes neither prefix nor suffix:
    nothing when [strict], a dash otherwise. *)
Theorem itemsToStr_joins {A : Type} (id_of : A → Id) (els : list A) (delim : ascii)
    (strict : bool) (prefix suffix : string) :
  itemsToStr id_of els delim strict prefix suffix
  = if bool_decide (els = [])
    then (if strict then EmptyString else "-")
    else prefix +:+ ids_joined delim (id_of <$> els) +:+ suffix.
Proof.
  destruct els as [|c els]; [by destruct strict|].
  rewrite bool_decide_eq_false_2 by done. unfold itemsToStr.
  rewrite itemsToStr_loop, ids_joined_delim.
  by rewrite <- str_app_assoc, str_pop_back_app, str_app_assoc.
Qed.

End format_facts.

(** ** Examples of the client *)

Lemma parseLinks_line_tokens_witness :
  parseLinks_line no_stof true "0> 1 2"
  = Some (Done (Some (0, [InpWeighted 1 (w_of_int 1); InpWeighted 2 (w_of_int 1)]))).
Proof.
  apply (parseLinks_line_tokens no_stof true "0" EmptyString [(" ", "1"); (" ", "2")]).
  - reflexivity.
  - split; [discriminate|]. split; [reflexivity|]. apply Nat.leb_le. reflexivity.
  - reflexivity.
  - simpl. repeat split; try discriminate; try reflexivity; apply Nat.leb_le; reflexivity.
Defined.

Lemma parseLinks_line_trailing_witness :
  (∃ what, parseLinks_line no_stof true "0> 1 2 " = Some (Thrown (out_of_range what)))
  ∧ parseLinks_line no_stof true "0>1 2  # Weights"
    = Some (Thrown (invalid_argument "stoul")).
Proof.
  split.
  - apply (parseLinks_line_trailing no_stof true "0" EmptyString [(" ", "1"); (" ", "2")] " " EmptyString).
    + reflexivity.
    + split; [discriminate|]. split; [reflexivity|]. apply Nat.leb_le. reflexivity.
    + reflexivity.
    + simpl. repeat split; try discriminate; try reflexivity; apply Nat.leb_le; reflexivity.
    + reflexivity.
    + discriminate.
    + reflexivity.
  - apply (parseLinks_line_trailing no_stof true "0" EmptyString [(EmptyString, "1"); (" ", "2")] "  "
             "# Weights") with (text := " Weights").
    + reflexivity.
    + split; [discriminate|]. split; [reflexivity|]. apply Nat.leb_le. reflexivity.
    + reflexivity.
    + simpl. repeat split; try discriminate; try reflexivity; apply Nat.leb_le; reflexivity.
    + reflexivity.
    + discriminate.
    + reflexivity.
Defined.

Lemma parseLinks_line_long_id_witness :
  parseLinks_line no_stof false "0> 1 123456789"
  = Some (Done (Some (0, [InpSimple 1; InpSimple 12345678]))).
Proof.
  apply (parseLinks_line_long_id no_stof false "0" EmptyString [(" ", "1")] " " "123456789").
  - reflexivity.
  - split; [discriminate|]. split; [reflexivity|]. apply Nat.leb_le. reflexivity.
  - reflexivity.
  - simpl. repeat split; try discriminate; try reflexivity; apply Nat.leb_le; reflexivity.
  - reflexivity.
  - discriminate.
  - reflexivity.
  - apply Nat.ltb_lt. reflexivity.
Defined.

Lemma parseArgs_without_file_witness :
  parseArgs no_stof ["hirecs"; "-f"; "-oj"] (default_params, fresh_client)
  = Thrown (domain_error "Output file name is expected to be provided").
Proof.
  apply (proj2 (parseArgs_without_file no_stof ["hirecs"; "-f"; "-oj"]
                  (default_params, fresh_client))).
  - simpl. lia.
  - intros arg Harg. simpl in Harg.
    apply elem_of_cons in Harg as [->|Harg]; [reflexivity|].
    apply elem_of_cons in Harg as [->|Harg]; [reflexivity|].
    by apply elem_of_nil in Harg.
Defined.

Lemma parseArgs_accepts_witness :
  ∃ pc',
    parseArgs no_stof ["hirecs"; "-f"; "-oje"; "graph.hig"; "-cx"; "other.hig"]
      (default_params, fresh_client) = Done (true, pc')
    ∧ m_inpfile pc'.1 = "graph.hig"
    ∧ m_validate pc'.1 = false
    ∧ m_fast pc'.1 = true
    ∧ m_reorder pc'.2 = false.
Proof.
  eexists. split; [vm_compute; reflexivity|].
  pose proof (parseArgs_accepts no_stof
                ["hirecs"; "-f"; "-oje"; "graph.hig"; "-cx"; "other.hig"]
                (default_params, fresh_client) _ eq_refl)
    as (Hfile & _ & Hval & Hfast & Hre & _).
  split; [exact (eq_sym (inj Some _ _ Hfile))|]. split; [exact Hval|]. split; [exact Hfast|exact Hre].
Defined.

Lemma process_ignores_comments_witness :
  process false no_stof no_processNodes
    ["# a triangle"; "/Edges"; EmptyString; "0> 1 2"; "  # the end"] default_params fresh_client
    two_nodes
  = process false no_stof no_processNodes ["/Edges"; "0> 1 2"] default_params fresh_client
      two_nodes.
Proof.
  apply (process_ignores_comments false no_stof no_processNodes
           ["# a triangle"; "/Edges"; EmptyString; "0> 1 2"; "  # the end"]).
  repeat constructor.
Defined.

Lemma process_line_section_witness :
  process_line false no_stof reader_start "/EDGES # all links" two_nodes
  = Some (Done ({| weighted := true; sect := EDGES; client := fresh_client |}, two_nodes))
  ∧ process_line false no_stof reader_start " /Links" two_nodes
    = Some (Thrown (out_of_range ("Unknown section is used: links" +:+ newline))).
Proof.
  split.
  - apply (process_line_section false no_stof EmptyString "EDGES" " # all links" reader_start
             two_nodes); reflexivity.
  - apply (process_line_section false no_stof " " "Links" EmptyString reader_start two_nodes);
      reflexivity.
Defined.

Lemma process_without_sections_witness :
  process false no_stof no_processNodes ["0> 1 2"; "1> 2"] default_params fresh_client
    two_nodes
  = Some (Thrown (domain_error ("Graph should be existed" +:+ newline))).
Proof.
  apply (process_without_sections false no_stof no_processNodes ["0> 1 2"; "1> 2"]
           default_params fresh_client two_nodes).
  repeat constructor.
Defined.

Lemma process_line_header_comment_witness :
  process_line false no_stof reader_start "/Nodes 3 0 # 3 nodes starting from id=1"
    two_nodes
  = process_line false no_stof reader_start "/Nodes 3 0 " two_nodes.
Proof.
  apply (process_line_header_comment false no_stof EmptyString "Nodes" " 3 0 "
           " 3 nodes starting from id=1" reader_start two_nodes);
    try reflexivity. discriminate.
Defined.

Lemma process_line_nodes_witness :
  process_line false no_stof reader_start "/Nodes 3 0" two_nodes
  = Some (Done ({| weighted := true; sect := NODES;
                   client := {| m_reorder := false; m_nodesNum := 3;
                                m_nodesStartId := 0; m_graphPtr := None |} |}, two_nodes)).
Proof.
  apply (proj2 (proj2 (process_line_nodes false no_stof EmptyString "Nodes" reader_start two_nodes
                         eq_refl eq_refl (or_introl eq_refl)))
           " " "3" " " "0" EmptyString);
    try reflexivity; try discriminate;
    (split; [discriminate|]; split; [reflexivity|]; apply Nat.leb_le; reflexivity).
Defined.

Lemma process_line_graph_witness :
  process_line false no_stof reader_start "/Graph weighted:0" two_nodes
  = Some (Done ({| weighted := false; sect := GRAPH; client := fresh_client |}, two_nodes)).
Proof.
  apply (proj2 (process_line_graph false no_stof EmptyString "Graph" reader_start two_nodes
                  eq_refl eq_refl eq_refl)
           " " EmptyString "0" EmptyString);
    try reflexivity; try discriminate.
  split; [discriminate|]. split; [reflexivity|]. apply Nat.leb_le. reflexivity.
Defined.

Lemma process_terminates_witness :
  is_Some (process false no_stof no_processNodes ["/Edges"; "0> 1 2"; "1> 2:x"]
             default_params fresh_client two_nodes).
Proof.
  apply (process_terminates false no_stof no_processNodes ["/Edges"; "0> 1 2"; "1> 2:x"]).
  repeat constructor.
Defined.

Lemma parseLinks_range_wraps_witness :
  parseLinks false no_stof true "0> 1" false
    {| m_reorder := false; m_nodesNum := 10; m_nodesStartId := 4294967290;
       m_graphPtr := None |} two_nodes
  = Some (Thrown (domain_error ("addNodes(), idEnd must be >= idBeg" +:+ newline))).
Proof.
  apply (parseLinks_range_wraps false no_stof true "0> 1" false
           {| m_reorder := false; m_nodesNum := 10; m_nodesStartId := 4294967290;
              m_graphPtr := None |} two_nodes).
  - reflexivity.
  - reflexivity.
  - split; [discriminate|reflexivity].
  - split; [discriminate|reflexivity].
  - discriminate.
Defined.

Lemma process_hands_over_witness :
  ∃ c' w' st w1 g,
    process false no_stof no_processNodes ["/Edges"; "0> 1 2"; "1> 2"] default_params
      fresh_client no_nodes = Some (Done (c', w'))
    ∧ process_lines false no_stof reader_start ["/Edges"; "0> 1 2"; "1> 2"] no_nodes
      = Some (Done (st, w1))
    ∧ m_graphPtr (client st) = Some g
    ∧ graph_ok g w1
    ∧ no_processNodes (weighted st) (nodes g) (negb (directed g)) default_params w1
      = Done ((), w').
Proof.
  assert (Hrun : ∃ c' w',
             process false no_stof no_processNodes ["/Edges"; "0> 1 2"; "1> 2"]
               default_params fresh_client no_nodes = Some (Done (c', w'))).
  { eexists _, _. reflexivity. }
  destruct Hrun as (c' & w' & Hrun). exists c', w'.
  destruct (process_hands_over false no_stof no_processNodes
              ["/Edges"; "0> 1 2"; "1> 2"] default_params fresh_client c' no_nodes w' Hrun)
    as (st & w1 & g & Hlines & Hg & Hok & Hcall & _).
  exists st, w1, g. split; [exact Hrun|]. split; [exact Hlines|].
  split; [exact Hg|]. split; [exact Hok|exact Hcall].
Defined.
